(** Quote engine and executor of the Solana DEX arbitrage bot.

    The quote arithmetic is decimal.js at its default configuration: 20
    significant digits, rounding half up, exponents within 9e15.  The
    bonding-curve quotes are BigInt arithmetic.  The executor is an
    asynchronous program over the RPC connection, the clock and the
    console; it is modelled as a tree of effects whose answers come from
    an arbitrary outside world. *)

From Stdlib Require Import ZArith NArith QArith Qround Bool List Lia String DecimalString.
From Stdlib.Strings Require Import Byte.
Import ListNotations.

(** * Part I. The program *)

(** * Decimal (decimal.js), as the program uses it

    The program never calls [Decimal.set]: every [mul], [div], [add] and
    [sub] rounds its exact result to [precision] = 20 significant digits,
    half up, and constructors and [floor] do not round.  A finite value is
    [(-1)^neg * c * 10^e]; the operations below keep [c] free of trailing
    zeros, so that equal values are equal terms (decimal.js stores the same
    digits in words of base 10^7).  Zero carries a sign. *)
Module Dec.

Local Open Scope N_scope.

Definition precision : Z := 20.
Definition EXP_LIMIT : Z := 9000000000000000.

Inductive Decimal : Type :=
| Fin (neg : bool) (c : N) (e : Z)
| Inf (neg : bool)
| NaN.

Definition pow10 (k : Z) : N := 10 ^ Z.to_N k.

(* number of decimal digits of [n]; 0 for 0 *)
Fixpoint digits_aux (fuel : nat) (n : N) : Z :=
  match fuel with
  | O => 0%Z
  | S f => if n =? 0 then 0%Z else (1 + digits_aux f (n / 10))%Z
  end.

Definition digits (n : N) : Z := digits_aux (N.to_nat (N.size n)) n.

(* dropping the trailing zeros of a coefficient *)
Fixpoint strip_aux (fuel : nat) (c : N) (e : Z) : N * Z :=
  match fuel with
  | O => (c, e)
  | S f => if c mod 10 =? 0 then strip_aux f (c / 10) (e + 1)%Z else (c, e)
  end.

Definition strip (c : N) (e : Z) : N * Z :=
  if c =? 0 then (0, 0%Z) else strip_aux (N.to_nat (N.size c)) c e.

(* [a / b * 10^x] rounded half up to [precision] significant digits:
   [k] is the number of digits of the integer part of [a / b] (negative or
   zero for a quotient below 1), so the digit kept last has weight
   [10^(k - precision)] *)
Definition round_sig (a b : N) (x : Z) : N * Z :=
  if a =? 0 then (0, 0%Z) else
  let k0 := (digits a - digits b)%Z in
  let k := if a * pow10 (- k0) <? b * pow10 k0 then k0 else (k0 + 1)%Z in
  let t := (k - precision)%Z in
  let num := a * pow10 (- t) in
  let den := b * pow10 t in
  strip ((2 * num + den) / (2 * den)) (t + x).

(* exponent limits: overflow gives Infinity, underflow zero *)
Definition finalise (neg : bool) (p : N * Z) : Decimal :=
  let (c, e) := p in
  if c =? 0 then Fin neg 0 0
  else
    let lead := (e + digits c - 1)%Z in
    if (EXP_LIMIT <? lead)%Z then Inf neg
    else if (lead <? - EXP_LIMIT)%Z then Fin neg 0 0
    else Fin neg c e.

(* new Decimal(n) for an integer n *)
Definition ofZ (z : Z) : Decimal := finalise (z <? 0)%Z (strip (Z.abs_N z) 0).

Definition isZero (x : Decimal) : bool :=
  match x with Fin _ c _ => c =? 0 | _ => false end.

Definition dneg (x : Decimal) : Decimal :=
  match x with
  | Fin s c e => Fin (negb s) c e
  | Inf s => Inf (negb s)
  | NaN => NaN
  end.

Definition dmul (x y : Decimal) : Decimal :=
  match x, y with
  | NaN, _ | _, NaN => NaN
  | Inf s1, Inf s2 => Inf (xorb s1 s2)
  | Inf s1, Fin s2 c2 _ => if c2 =? 0 then NaN else Inf (xorb s1 s2)
  | Fin s1 c1 _, Inf s2 => if c1 =? 0 then NaN else Inf (xorb s1 s2)
  | Fin s1 c1 e1, Fin s2 c2 e2 =>
      if (c1 =? 0) || (c2 =? 0) then Fin (xorb s1 s2) 0 0
      else finalise (xorb s1 s2) (round_sig (c1 * c2) 1 (e1 + e2))
  end.

Definition ddiv (x y : Decimal) : Decimal :=
  match x, y with
  | NaN, _ | _, NaN => NaN
  | Inf _, Inf _ => NaN
  | Inf s1, Fin s2 _ _ => Inf (xorb s1 s2)
  | Fin s1 _ _, Inf s2 => Fin (xorb s1 s2) 0 0
  | Fin s1 c1 e1, Fin s2 c2 e2 =>
      if c2 =? 0 then (if c1 =? 0 then NaN else Inf (xorb s1 s2))
      else if c1 =? 0 then Fin (xorb s1 s2) 0 0
      else finalise (xorb s1 s2)
             (round_sig (c1 * pow10 (e1 - e2)) (c2 * pow10 (e2 - e1)) 0)
  end.

(* magnitudes of two finite values on their common exponent *)
Definition align (c1 : N) (e1 : Z) (c2 : N) (e2 : Z) : N * N * Z :=
  let e := Z.min e1 e2 in
  (c1 * pow10 (e1 - e), c2 * pow10 (e2 - e), e).

Definition dadd (x y : Decimal) : Decimal :=
  match x, y with
  | NaN, _ | _, NaN => NaN
  | Inf s1, Inf s2 => if Bool.eqb s1 s2 then Inf s1 else NaN
  | Inf s1, Fin _ _ _ => Inf s1
  | Fin _ _ _, Inf s2 => Inf s2
  | Fin s1 c1 e1, Fin s2 c2 e2 =>
      let '(a1, a2, e) := align c1 e1 c2 e2 in
      if Bool.eqb s1 s2 then finalise s1 (round_sig (a1 + a2) 1 e)
      else if a1 =? a2 then Fin false 0 0
      else if a2 <? a1 then finalise s1 (round_sig (a1 - a2) 1 e)
      else finalise s2 (round_sig (a2 - a1) 1 e)
  end.

Definition dsub (x y : Decimal) : Decimal := dadd x (dneg y).

(* towards minus infinity; the result is not rounded to the precision *)
Definition floor (x : Decimal) : Decimal :=
  match x with
  | Fin s c e =>
      if (0 <=? e)%Z then x
      else
        let q := c / pow10 (- e) in
        let r := c mod pow10 (- e) in
        if s && negb (r =? 0) then finalise s (strip (q + 1) 0)
        else finalise s (strip q 0)
  | _ => x
  end.

(* cmp: no answer when an operand is NaN *)
Definition dcompare (x y : Decimal) : option comparison :=
  match x, y with
  | NaN, _ | _, NaN => None
  | Inf s1, Inf s2 =>
      Some (if Bool.eqb s1 s2 then Eq else if s1 then Lt else Gt)
  | Inf s1, Fin _ _ _ => Some (if s1 then Lt else Gt)
  | Fin _ _ _, Inf s2 => Some (if s2 then Gt else Lt)
  | Fin s1 c1 e1, Fin s2 c2 e2 =>
      let '(a1, a2, _) := align c1 e1 c2 e2 in
      let v1 := if s1 then (- Z.of_N a1)%Z else Z.of_N a1 in
      let v2 := if s2 then (- Z.of_N a2)%Z else Z.of_N a2 in
      Some (v1 ?= v2)%Z
  end.

Definition gt (x y : Decimal) : bool :=
  match dcompare x y with Some Gt => true | _ => false end.
Definition lte (x y : Decimal) : bool :=
  match dcompare x y with Some Lt | Some Eq => true | _ => false end.

(* new Decimal(10).pow(n) *)
Definition dpow10 (n : N) : Decimal := finalise false (1, Z.of_N n).

(* the value [n * 10^x], and non-negative integers *)
Definition canon (n : N) (x : Z) : Decimal := finalise false (strip n x).
Definition ofN (n : N) : Decimal := canon n 0.
(* at most [precision] significant digits: rounding leaves [n] as it is *)
Definition fits (n : N) : bool := fst (strip n 0) <? pow10 precision.
(* integer part of a magnitude *)
Definition floor_mag (p : N * Z) : N :=
  let (c, e) := p in if (0 <=? e)%Z then c * pow10 e else c / pow10 (- e).

End Dec.

Import Dec.

(** * Pool model (src/pools/types.ts) *)

Definition PublicKey : Type := N.
Definition pk_equals (a b : PublicKey) : bool := N.eqb a b.

Inductive Dex : Type := raydium | orca | pumpfun | pumpswap.
Inductive PoolType : Type := amm_v4 | clmm | cpmm | whirlpool | bonding_curve.

Record PoolInfo : Type := mkPoolInfo {
  oid : N;
  address : PublicKey;
  dex : Dex;
  poolType : PoolType;
  tokenA : PublicKey;
  tokenB : PublicKey;
  reserveA : Decimal;
  reserveB : Decimal;
  fee : Z;
  lastUpdate : Z;
  decimalsA : option N;
  decimalsB : option N;
  sqrtPriceX64 : option Decimal;
  orcaApiPrice : option Decimal
}.

Record PriceQuote : Type := mkPriceQuote {
  pool : PoolInfo;
  inputMint : PublicKey;
  outputMint : PublicKey;
  inputAmount : Decimal;
  outputAmount : Decimal;
  priceImpact : Decimal;
  effectivePrice : Decimal
}.

(** * Quote engine (PoolManager, src/pools/poolManager.ts) *)

Definition getAmountOut (amountIn reserveIn reserveOut : Decimal) (feeBps : Z)
  : Decimal :=
  let feeMultiplier := ddiv (ofZ (10000 - feeBps)) (ofZ 10000) in
  let effectiveIn := dmul amountIn feeMultiplier in
  floor (ddiv (dmul effectiveIn reserveOut) (dadd reserveIn effectiveIn)).

Definition or_default (o : option N) (d : N) : N :=
  match o with
  | Some n => if n =? 0 then d else n
  | None => d
  end%N.

Definition usable_price (o : option Decimal) : option Decimal :=
  match o with
  | Some p => if gt p (ofZ 0) then Some p else None
  | None => None
  end.

Definition is_concentrated (t : PoolType) : bool :=
  match t with whirlpool | clmm => true | _ => false end.

Definition getQuote (p : PoolInfo) (inMint : PublicKey) (amount : Decimal)
  : PriceQuote :=
  let isForward := pk_equals (tokenA p) inMint in
  let reserveIn := if isForward then reserveA p else reserveB p in
  let reserveOut := if isForward then reserveB p else reserveA p in
  let outMint := if isForward then tokenB p else tokenA p in
  let out :=
    match usable_price (orcaApiPrice p) with
    | Some apiPrice =>
        let decA := or_default (decimalsA p) 9 in
        let decB := or_default (decimalsB p) 9 in
        let rawPrice := ddiv (dmul apiPrice (dpow10 decB)) (dpow10 decA) in
        let feeMultiplier := ddiv (ofZ (10000 - fee p)) (ofZ 10000) in
        let effectiveIn := dmul amount feeMultiplier in
        if isForward then floor (dmul effectiveIn rawPrice)
        else floor (ddiv effectiveIn rawPrice)
    | None =>
        match (if is_concentrated (poolType p) then sqrtPriceX64 p else None) with
        | Some sqrtX64 =>
            let Q64 := ofZ (2 ^ 64) in
            let sqrtPrice := ddiv sqrtX64 Q64 in
            let price := dmul sqrtPrice sqrtPrice in
            let feeMultiplier := ddiv (ofZ (10000 - fee p)) (ofZ 10000) in
            let effectiveIn := dmul amount feeMultiplier in
            if isForward then floor (dmul effectiveIn price)
            else floor (ddiv effectiveIn price)
        | None => getAmountOut amount reserveIn reserveOut (fee p)
        end
    end in
  let actualRate := if isZero amount then ofZ 0 else ddiv out amount in
  let idealRate := if isZero reserveIn then ofZ 0 else ddiv reserveOut reserveIn in
  let impact :=
    if isZero idealRate then ofZ 0 else dsub (ofZ 1) (ddiv actualRate idealRate) in
  {| pool := p; inputMint := inMint; outputMint := outMint;
     inputAmount := amount; outputAmount := out;
     priceImpact := impact; effectivePrice := actualRate |}.

(** * The constant-product formula of the specification, in exact arithmetic *)

Definition spec_amount_out (amountIn reserveIn reserveOut : N) (feeBps : Z) : Z :=
  let effIn := (inject_Z (Z.of_N amountIn) * inject_Z (10000 - feeBps)
                / inject_Z 10000)%Q in
  Qfloor (effIn * inject_Z (Z.of_N reserveOut)
          / (inject_Z (Z.of_N reserveIn) + effIn))%Q.

(* the same quantities as integers: everything scaled by 10^4 *)
Definition scaled_in (amountIn : N) (feeBps : Z) : N :=
  (amountIn * Z.to_N (10000 - feeBps))%N.
Definition scaled_num (amountIn reserveOut : N) (feeBps : Z) : N :=
  (scaled_in amountIn feeBps * reserveOut)%N.
Definition scaled_den (amountIn reserveIn : N) (feeBps : Z) : N :=
  (10000 * reserveIn + scaled_in amountIn feeBps)%N.
Definition exact_out (amountIn reserveIn reserveOut : N) (feeBps : Z) : N :=
  (scaled_num amountIn reserveOut feeBps / scaled_den amountIn reserveIn feeBps)%N.

(** The inputs on which the 20-digit arithmetic of the quote is exact. *)
Definition exact_regime (amountIn reserveIn reserveOut : N) (feeBps : Z) : bool :=
  let num := scaled_num amountIn reserveOut feeBps in
  let den := scaled_den amountIn reserveIn feeBps in
  let g := N.gcd num den in
  ((0 <=? feeBps)%Z && (feeBps <? 10000)%Z
   && (0 <? reserveIn) && (reserveIn <? pow10 100)
   && (amountIn <? pow10 100) && (reserveOut <? pow10 100)
   && fits (scaled_in amountIn feeBps) && fits num && fits den
   && (num / g <? 2 * pow10 19) && (den / g <? 2 * pow10 20))%N.

Module RaydiumFetcher.
(* src/pools/raydium.ts, static getAmountOut *)
Definition getAmountOut (amountIn reserveIn reserveOut : Decimal) (feeBps : Z)
  : Decimal :=
  let feeMultiplier := ddiv (ofZ (10000 - feeBps)) (ofZ 10000) in
  let effectiveIn := dmul amountIn feeMultiplier in
  let numerator := dmul effectiveIn reserveOut in
  let denominator := dadd reserveIn effectiveIn in
  floor (ddiv numerator denominator).
End RaydiumFetcher.

(** Quoting straight from the reserves: no positive API price and no stored
    square-root price on a concentrated-liquidity pool. *)
Definition quotes_by_reserves (p : PoolInfo) : bool :=
  match usable_price (orcaApiPrice p) with
  | Some _ => false
  | None =>
      match (if is_concentrated (poolType p) then sqrtPriceX64 p else None) with
      | Some _ => false
      | None => true
      end
  end.

(** The result vocabulary of the specification's error taxonomy. *)
Inductive QuoteError : Type := InvalidPool | QuoteUnavailable.
Inductive QuoteOutcome : Type :=
| Quoted (q : PriceQuote)
| QuoteFailed (e : QuoteError).

(* getQuote has one exit, [return { pool, ... }] on line 72 *)
Definition getQuote_outcome (p : PoolInfo) (inMint : PublicKey) (amount : Decimal)
  : QuoteOutcome := Quoted (getQuote p inMint amount).


(** Reserves seen by a quote whose input is [inMint]. *)
Definition reserveIn_of (p : PoolInfo) (inMint : PublicKey) : Decimal :=
  if pk_equals (tokenA p) inMint then reserveA p else reserveB p.
Definition reserveOut_of (p : PoolInfo) (inMint : PublicKey) : Decimal :=
  if pk_equals (tokenA p) inMint then reserveB p else reserveA p.

(* a plain constant-product pool with integer reserves, for examples *)
Definition sample_pool (ra rb fee : Z) : PoolInfo :=
  {| oid := 1; address := 100%N; dex := raydium; poolType := amm_v4;
     tokenA := 11%N; tokenB := 22%N;
     reserveA := ofZ ra; reserveB := ofZ rb; fee := fee; lastUpdate := 0;
     decimalsA := None; decimalsB := None;
     sqrtPriceX64 := None; orcaApiPrice := None |}.

(** * Bonding-curve quotes (src/pools/pumpfun.ts), BigInt arithmetic *)
Module PumpFun.

Local Open Scope Z_scope.

Record BondingCurveData : Type := {
  virtualTokenReserves : Z;
  virtualSolReserves : Z;
  realTokenReserves : Z;
  realSolReserves : Z;
  tokenTotalSupply : Z;
  complete : bool
}.

(* BigInt [/]: truncates towards zero; a zero divisor raises RangeError *)
Definition bigint_div (a b : Z) : option Z :=
  if b =? 0 then None else Some (Z.quot a b).

Definition getBuyQuote (curve : BondingCurveData) (solIn : Z) : option Z :=
  let solAfterFee := Z.quot (solIn * 99) 100 in
  let newSolReserves := virtualSolReserves curve + solAfterFee in
  let k := virtualTokenReserves curve * virtualSolReserves curve in
  match bigint_div k newSolReserves with
  | Some newTokenReserves => Some (virtualTokenReserves curve - newTokenReserves)
  | None => None
  end.

Definition getSellQuote (curve : BondingCurveData) (tokensIn : Z) : option Z :=
  let newTokenReserves := virtualTokenReserves curve + tokensIn in
  let k := virtualTokenReserves curve * virtualSolReserves curve in
  match bigint_div k newTokenReserves with
  | Some newSolReserves =>
      let solOut := virtualSolReserves curve - newSolReserves in
      Some (Z.quot (solOut * 99) 100)
  | None => None
  end.

(** The formula of the specification:
    out = virtualOut - (virtualIn * virtualOut) / (virtualIn + effIn). *)
Definition curve_formula (virtualIn virtualOut effIn : Z) : option Z :=
  match bigint_div (virtualIn * virtualOut) (virtualIn + effIn) with
  | Some rest => Some (virtualOut - rest)
  | None => None
  end.

(* the 1% fee, as the source takes it *)
Definition after_fee (x : Z) : Z := Z.quot (x * 99) 100.

End PumpFun.

Import PumpFun.

Local Open Scope string_scope.
Local Open Scope list_scope.
Local Open Scope Z_scope.

(** * Byte buffers (Node Buffer) *)

Definition Buffer : Type := list byte.

Definition subarray (buf : Buffer) (a b : nat) : Buffer :=
  firstn (b - a) (skipn a buf).

(* big-endian value of a byte string: [new PublicKey(bytes)] *)
Definition be_value (b : Buffer) : N :=
  fold_left (fun acc x => (acc * 256 + Byte.to_N x)%N) b 0%N.

(* little-endian value *)
Definition le_value (b : Buffer) : N := be_value (rev b).

Fixpoint le_bytes (len : nat) (n : N) : Buffer :=
  match len with
  | O => []
  | S l =>
      match Byte.of_N (n mod 256) with
      | Some x => x :: le_bytes l (n / 256)
      | None => []
      end
  end.

(* buf.readUIntLE-style reads raise RangeError outside the buffer *)
Definition read_le (buf : Buffer) (off len : nat) : option N :=
  if (off + len <=? List.length buf)%nat then Some (le_value (subarray buf off (off + len)))
  else None.

Definition readBigUInt64LE (buf : Buffer) (off : nat) : option N := read_le buf off 8.
Definition readUInt16LE (buf : Buffer) (off : nat) : option N := read_le buf off 2.
Definition readInt32LE (buf : Buffer) (off : nat) : option Z :=
  match read_le buf off 4 with
  | Some n => Some (if (n <? 2 ^ 31)%N then Z.of_N n else Z.of_N n - 2 ^ 32)
  | None => None
  end.

Definition key_at (buf : Buffer) (a b : nat) : PublicKey := be_value (subarray buf a b).

Definition bytes_of_string (s : string) : Buffer := list_byte_of_string s.

(** * Amount strings *)

(* the decimal strings handed between the legs: Decimal.toFixed(0) and the
   [amount] field of an RPC token balance *)
Inductive AmountStr : Type :=
| AInt (z : Z)
| ANotInteger.

Definition toFixed0 (d : Decimal) : AmountStr :=
  match d with
  | Fin s c e =>
      let mag :=
        if 0 <=? e then (c * pow10 e)%N
        else ((2 * c + pow10 (- e)) / (2 * pow10 (- e)))%N in
      AInt (if s then - Z.of_N mag else Z.of_N mag)
  | _ => ANotInteger
  end.

(* parseInt(s) === 0 *)
Definition parses_to_zero (a : AmountStr) : bool :=
  match a with AInt z => z =? 0 | ANotInteger => false end.
(* parseInt(s) > 0 *)
Definition parses_positive (a : AmountStr) : bool :=
  match a with AInt z => 0 <? z | ANotInteger => false end.

(* new BN(s).toArrayLike(Buffer, 'le', 8): the magnitude on 8 bytes; raises
   on a string that is not a number and on a value above 8 bytes *)
Definition bn_of (a : AmountStr) : option N :=
  match a with AInt z => Some (Z.abs_N z) | ANotInteger => None end.
Definition bn_le8 (n : N) : option Buffer :=
  if (n <? 2 ^ 64)%N then Some (le_bytes 8 n) else None.
Definition bn_le16 (n : N) : Buffer := le_bytes 16 n.

(* lamports: parseInt(amount) as an unsigned 64-bit number *)
Definition lamports_of (a : AmountStr) : option N :=
  match a with
  | AInt z => if (0 <=? z) && (z <? 2 ^ 64) then Some (Z.to_N z) else None
  | ANotInteger => None
  end.

(** * Transactions *)

Record AccountMeta : Type := mkMeta {
  pubkey : PublicKey;
  isSigner : bool;
  isWritable : bool
}.

Inductive Instruction : Type :=
| SetComputeUnitLimit (units : N)
| SetComputeUnitPrice (microLamports : N)
| CreateAssociatedTokenAccount (payer ata owner mint : PublicKey)
| SystemTransfer (fromPubkey toPubkey : PublicKey) (lamports : N)
| SyncNative (account : PublicKey)
| CloseAccount (account destination authority : PublicKey)
| RawInstruction (programId : PublicKey) (keys : list AccountMeta) (data : Buffer).

Record Transaction : Type := mkTx {
  instructions : list Instruction;
  feePayer : option PublicKey;
  recentBlockhash : option string
}.

Definition tx_add (tx : Transaction) (ixs : list Instruction) : Transaction :=
  {| instructions := instructions tx ++ ixs;
     feePayer := feePayer tx; recentBlockhash := recentBlockhash tx |}.

Definition new_Transaction : Transaction :=
  {| instructions := []; feePayer := None; recentBlockhash := None |}.

(** * What the executor takes from its libraries and its configuration *)

Inductive Seed : Type :=
| SeedText (s : string)
| SeedBytes (b : Buffer)
| SeedKey (k : PublicKey)
| SeedNumber (n : option Z).   (* String(n); None is NaN *)

Record Web3 : Type := {
  fromBase58 : string -> PublicKey;
  toBase58 : PublicKey -> string;
  findProgramAddressSync : list Seed -> PublicKey -> PublicKey;
  (* raises when the derived address lies on the curve *)
  createProgramAddressSync : list Seed -> PublicKey -> option PublicKey;
  (* raises TokenOwnerOffCurveError for an owner off the curve *)
  getAssociatedTokenAddress : PublicKey -> PublicKey -> option PublicKey;
  (* allowOwnerOffCurve = true *)
  getAssociatedTokenAddressSync : PublicKey -> PublicKey -> PublicKey
}.

Record Config : Type := {
  dryRun : bool;
  slippageBps : Z;
  wallet_publicKey : PublicKey
}.

(** * Effects *)

Inductive Rpc (X : Type) : Type :=
| Resolved (x : X)
| Rejected (reason : string).
Arguments Resolved {X} x.
Arguments Rejected {X} reason.

Record AccountInfo : Type := { acc_data : Buffer; acc_owner : PublicKey }.
Record TokenAmount : Type := { amount : AmountStr; uiAmountString : string }.
Record SimulationResult : Type := {
  sim_err : option string;
  sim_logs : option (list string)
}.

Inductive Venue : Type :=
| VRaydium | VCpmm | VOrca | VPumpFun | VPumpSwap.

Inductive ArbType : Type := spatial | temporal | triangular.

Inductive LogMsg : Type :=
(* execute *)
| LSkipDuplicate
| LOpportunity (t : ArbType)
| LBuy (d : Dex) (t : PoolType) (addr : string)
| LSell (d : Dex) (t : PoolType) (addr : string)
| LSize (sol : Decimal)
| LProfit (sol : Decimal) (bps : Z)
| LDryRun
| LExecutionFailed (message : string)
(* executeArb *)
| LLeg1Buy (d : Dex)
| LLeg1Failed
| LLeg1 (sig : string)
| LGotTokens (ui : string)
| LNoTokens
| LLeg2Sell (d : Dex)
| LLeg2Failed
| LFallbackVia (d : Dex)
| LFallback (sig : string)
| LLeg2 (sig : string)
| LArbComplete
(* builders *)
| LPoolNotFound (v : Venue)
| LMarketNotFound
| LMissingTickArrays (found : nat)
| LPoolParseFailed
| LSimFailed (v : Venue) (err : string)
| LSimLogs (lines : list string)
| LConfirming (sig : string)
| LTxFailed (err : string)
| LConfirmed.

Inductive Event : Type -> Type :=
| Now : Event Z
| Log (m : LogMsg) : Event unit
| Sleep (ms : N) : Event unit
| GetAccountInfo (a : PublicKey) : Event (Rpc (option AccountInfo))
| GetMultipleAccountsInfo (l : list PublicKey)
    : Event (Rpc (list (option AccountInfo)))
| GetTokenAccountBalance (a : PublicKey) : Event (Rpc TokenAmount)
| GetLatestBlockhash : Event (Rpc string)
| SimulateTransaction (tx : Transaction) : Event (Rpc SimulationResult)
| SignAndSerialize (tx : Transaction) : Event (Rpc Buffer)
| SendRawTransaction (raw : Buffer) : Event (Rpc string)
| ConfirmTransaction (sig : string) : Event (Rpc (option string)).

(** Programs: a returned value, or an effect and its continuation. *)
Inductive Prog (A : Type) : Type :=
| Ret (a : A)
| Vis {X : Type} (e : Event X) (k : X -> Prog A).
Arguments Ret {A} a.
Arguments Vis {A X} e k.

(** A promise settles with a value or an exception. *)
Inductive Outcome (A : Type) : Type :=
| Ok (a : A)
| Thrown (message : string).
Arguments Ok {A} a.
Arguments Thrown {A} message.

Definition Async (A : Type) : Type := Prog (Outcome A).

Definition ret {A} (a : A) : Async A := Ret (Ok a).
Definition throw {A} (message : string) : Async A := Ret (Thrown message).

Fixpoint bind {A B} (m : Async A) (f : A -> Async B) : Async B :=
  match m with
  | Ret (Ok a) => f a
  | Ret (Thrown e) => Ret (Thrown e)
  | Vis ev k => Vis ev (fun x => bind (k x) f)
  end.

Fixpoint try_catch {A} (m : Async A) (handler : string -> Async A) : Async A :=
  match m with
  | Ret (Ok a) => Ret (Ok a)
  | Ret (Thrown e) => handler e
  | Vis ev k => Vis ev (fun x => try_catch (k x) handler)
  end.

Declare Scope async_scope.
Delimit Scope async_scope with async.
Notation "x <- m ;; f" := (bind m (fun x => f))
  (at level 61, m at next level, right associativity) : async_scope.
Notation "m ;;; f" := (bind m (fun _ => f))
  (at level 61, right associativity) : async_scope.
Local Open Scope async_scope.

(* an effect that cannot fail *)
Definition perform {X} (e : Event X) : Async X := Vis e (fun x => Ret (Ok x)).
(* an awaited RPC call: a rejection is thrown *)
Definition await {X} (e : Event (Rpc X)) : Async X :=
  Vis e (fun r => match r with
                  | Resolved x => Ret (Ok x)
                  | Rejected reason => Ret (Thrown reason)
                  end).
Definition log (m : LogMsg) : Async unit := perform (Log m).
(* a library call that may raise *)
Definition orThrow {A} (o : option A) (message : string) : Async A :=
  match o with Some a => ret a | None => throw message end.

(** * Running a program against the outside world *)

Inductive Entry : Type :=
| Ev {X : Type} (e : Event X) (x : X).
Definition Trace : Type := list Entry.
(* the world answers each effect knowing what happened so far *)
Definition World : Type := forall X, Trace -> Event X -> X.

(* [run w p history]: the result of [p] and the effects it performed, in
   order, when started after [history] *)
Fixpoint run {A} (w : World) (p : Prog A) (history : Trace) : A * Trace :=
  match p with
  | Ret a => (a, [])
  | Vis e k =>
      let x := w _ history e in
      let (a, evs) := run w (k x) (history ++ [Ev e x]) in
      (a, Ev e x :: evs)
  end.

(** * Executor (src/execution/executor.ts) *)

Record ArbOpportunity : Type := {
  type : ArbType;
  buyPool : PoolInfo;
  sellPool : PoolInfo;
  tokenMint : PublicKey;
  opp_inputAmount : Decimal;
  expectedProfit : Decimal;
  profitBps : Z;
  timestamp : Z
}.

Record Executor : Type := {
  executionCount : N;
  totalProfit : Decimal;
  lastExecution : option (string * Z)
}.

Definition new_Executor : Executor :=
  {| executionCount := 0; totalProfit := ofZ 0; lastExecution := None |}.

Definition type_name (t : ArbType) : string :=
  match t with
  | spatial => "spatial" | temporal => "temporal" | triangular => "triangular"
  end.

Definition same_object (p q : PoolInfo) : bool := (oid p =? oid q)%N.

(* [if (!sig)]: null and the empty string are falsy *)
Definition truthy (sig : option string) : option string :=
  match sig with
  | Some s => if String.eqb s "" then None else Some s
  | None => None
  end.

Section WithLibraries.

Context (L : Web3) (cfg : Config).

Definition SOL_MINT : PublicKey :=
  fromBase58 L "So11111111111111111111111111111111111111112".
Definition TOKEN_PROGRAM_ID : PublicKey :=
  fromBase58 L "TokenkegQfeZyiNwAJbNbGKPFXCWuBvf9Ss623VQ5DA".
Definition TOKEN_2022 : PublicKey :=
  fromBase58 L "TokenzQdBNbLqP5VEhdkAS6EPFLC1PHnBqCXEpPxuEb".
Definition SYSTEM_PROGRAM : PublicKey :=
  fromBase58 L "11111111111111111111111111111111".
Definition RAYDIUM_AMM : PublicKey :=
  fromBase58 L "675kPX9MHTjS2zt1qfr1NYHuzeLXfQM9H24wFSUt1Mp8".
Definition ORCA_WHIRLPOOL : PublicKey :=
  fromBase58 L "whirLbMiicVdio4qvUfM5KAg6Ct8VwpYzGff3uctyCc".
Definition CPMM_PROGRAM : PublicKey :=
  fromBase58 L "CPMMoo8L3F4NbTegBCKVNunggL7H1ZpdTHKxQB5qKP1C".
Definition PUMPFUN_PROGRAM : PublicKey :=
  fromBase58 L "6EF8rrecthR5Dkzon8Nwu78hRvfCKubJ14M5uBEwF6P".
Definition PUMPFUN_FEE_RECIPIENT : PublicKey :=
  fromBase58 L "CebN5WGQ4jvEPvsVU4EoHEpgzq1VV7AbCJ1w8Tt5KwKc".
Definition PUMPSWAP_PROGRAM : PublicKey :=
  fromBase58 L "pAMMBay6oceH9fJKBRHGP5D4bD4sWpmSwMn52FMfXEA".
Definition PUMPSWAP_GLOBAL_CONFIG : PublicKey :=
  fromBase58 L "ADyA8hdefvWN2dbGGWFotbzWxrAvLW83WG6QCVXvJKqw".
Definition PUMPSWAP_FEE_RECIPIENT : PublicKey :=
  fromBase58 L "5PHirr8joyTMp9JMm6nW7hNDVyEYdkzDqazxPD7RaTjx".
Definition RENT : PublicKey :=
  fromBase58 L "SysvarRent111111111111111111111111111111111".
Definition ASSOCIATED_TOKEN_PROGRAM : PublicKey :=
  fromBase58 L "ATokenGPvbdGVxr1b2hvZbsiqW5xWH25efTNsLJA8knL".

Definition AMM_AUTHORITY : PublicKey :=
  findProgramAddressSync L [SeedText "amm authority"] RAYDIUM_AMM.

Definition wallet : PublicKey := wallet_publicKey cfg.

Definition ata (mint owner : PublicKey) : Async PublicKey :=
  orThrow (getAssociatedTokenAddress L mint owner) "TokenOwnerOffCurveError".

Definition readonly (k : PublicKey) : AccountMeta := mkMeta k false false.
Definition writable (k : PublicKey) : AccountMeta := mkMeta k false true.
Definition signer (k : PublicKey) : AccountMeta := mkMeta k true true.

(* for (const [mint, ata] of [...]) { if (!info) tx.add(create...) } *)
Fixpoint ensureAtas (pairs : list (PublicKey * PublicKey)) (tx : Transaction)
  : Async Transaction :=
  match pairs with
  | [] => ret tx
  | (mint, a) :: rest =>
      info <- await (GetAccountInfo a) ;;
      ensureAtas rest
        (match info with
         | Some _ => tx
         | None => tx_add tx [CreateAssociatedTokenAccount wallet a wallet mint]
         end)
  end.

Definition wrapSol (amount : AmountStr) (account : PublicKey) (tx : Transaction)
  : Async Transaction :=
  lamports <- orThrow (lamports_of amount) "RangeError" ;;
  ret (tx_add tx [SystemTransfer wallet account lamports; SyncNative account]).

Definition logSimLogs (logs : option (list string)) (n : nat) : Async unit :=
  match logs with
  | Some lines => log (LSimLogs (skipn (List.length lines - n) lines))
  | None => ret tt
  end.

(* Shared send + confirm *)
Definition sendAndConfirm (serialized : Buffer) : Async (option string) :=
  sig <- await (SendRawTransaction serialized) ;;
  log (LConfirming (substring 0 20 sig)) ;;;
  conf <- await (ConfirmTransaction sig) ;;
  match conf with
  | Some err => log (LTxFailed err) ;;; ret None
  | None => log LConfirmed ;;; ret (Some sig)
  end.

(* The closing block of every builder: fee payer, blockhash, simulation,
   signature, submission (lines 247-259, 346-358, 473-487, 563-576, 698-711).
   [tail] is the number of simulation log lines printed on failure. *)
Definition simulateSignSend (v : Venue) (tail : nat) (tx : Transaction)
  : Async (option string) :=
  blockhash <- await GetLatestBlockhash ;;
  let tx := {| instructions := instructions tx; feePayer := Some wallet;
               recentBlockhash := Some blockhash |} in
  sim <- await (SimulateTransaction tx) ;;
  match sim_err sim with
  | Some err =>
      log (LSimFailed v err) ;;;
      logSimLogs (sim_logs sim) tail ;;;
      ret None
  | None =>
      raw <- await (SignAndSerialize tx) ;;
      sendAndConfirm raw
  end.

Definition computeBudget (units : N) : list Instruction :=
  [SetComputeUnitLimit units; SetComputeUnitPrice 100000].

(* Raydium: raw AMM-V4 swap instruction *)
Definition swapViaRaydiumRaw (inMint outMint : PublicKey) (amount : AmountStr)
  (p : PoolInfo) : Async (option string) :=
  poolAcct <- await (GetAccountInfo (address p)) ;;
  match poolAcct with
  | None => log (LPoolNotFound VRaydium) ;;; ret None
  | Some acct =>
      let buf := acc_data acct in
      let baseVault := key_at buf 336 368 in
      let quoteVault := key_at buf 368 400 in
      let openOrders := key_at buf 496 528 in
      let marketId := key_at buf 528 560 in
      let marketProgramId := key_at buf 560 592 in
      let targetOrders := key_at buf 592 624 in
      marketAcct <- await (GetAccountInfo marketId) ;;
      match marketAcct with
      | None => log LMarketNotFound ;;; ret None
      | Some macct =>
          let mBuf := acc_data macct in
          vaultSignerNonce <- orThrow (readBigUInt64LE mBuf 45) "RangeError" ;;
          let serumBaseVault := key_at mBuf 117 149 in
          let serumQuoteVault := key_at mBuf 165 197 in
          let eventQueue := key_at mBuf 253 285 in
          let bids := key_at mBuf 285 317 in
          let asks := key_at mBuf 317 349 in
          let nonceBuffer := le_bytes 8 vaultSignerNonce in
          vaultSigner <- orThrow
            (createProgramAddressSync L [SeedKey marketId; SeedBytes nonceBuffer]
               marketProgramId) "Invalid seeds" ;;
          userSourceAta <- ata inMint wallet ;;
          userDestAta <- ata outMint wallet ;;
          let tx := tx_add new_Transaction (computeBudget 400000) in
          tx <- ensureAtas [(inMint, userSourceAta); (outMint, userDestAta)] tx ;;
          tx <- (if pk_equals inMint SOL_MINT then wrapSol amount userSourceAta tx
                 else ret tx) ;;
          amountBN <- orThrow (bn_of amount) "Invalid character" ;;
          amountLE <- orThrow (bn_le8 amountBN) "byte array longer than desired length" ;;
          let ixData := [x09] ++ amountLE ++ le_bytes 8 0 in
          let tx := tx_add tx
            [RawInstruction RAYDIUM_AMM
               [readonly TOKEN_PROGRAM_ID; writable (address p);
                readonly AMM_AUTHORITY; writable openOrders;
                writable targetOrders; writable baseVault; writable quoteVault;
                readonly marketProgramId; writable marketId; writable bids;
                writable asks; writable eventQueue; writable serumBaseVault;
                writable serumQuoteVault; readonly vaultSigner;
                writable userSourceAta; writable userDestAta; signer wallet]
               ixData] in
          let tx := if pk_equals outMint SOL_MINT
                    then tx_add tx [CloseAccount userDestAta wallet wallet]
                    else tx in
          simulateSignSend VRaydium 3 tx
      end
  end.

Definition tokenProgramOf (info : option AccountInfo) : PublicKey :=
  match info with
  | Some i => if pk_equals (acc_owner i) TOKEN_2022 then TOKEN_2022
              else TOKEN_PROGRAM_ID
  | None => TOKEN_PROGRAM_ID
  end.

(* Raydium CPMM: raw swap instruction *)
Definition swapViaCpmm (inMint outMint : PublicKey) (amount : AmountStr)
  (p : PoolInfo) : Async (option string) :=
  let cpmmAuth :=
    findProgramAddressSync L [SeedText "vault_and_lp_mint_auth_seed"] CPMM_PROGRAM in
  let CPMM_SWAP_DISC := [x8f; xbe; x5a; xda; xc4; x1e; x33; xde] in
  poolAcct <- await (GetAccountInfo (address p)) ;;
  match poolAcct with
  | None => log (LPoolNotFound VCpmm) ;;; ret None
  | Some acct =>
      let buf := acc_data acct in
      let ammConfig := key_at buf 8 40 in
      let token0Vault := key_at buf 72 104 in
      let token1Vault := key_at buf 104 136 in
      let token0Mint := key_at buf 168 200 in
      let isInput0 := pk_equals inMint token0Mint in
      let inputVault := if isInput0 then token0Vault else token1Vault in
      let outputVault := if isInput0 then token1Vault else token0Vault in
      let observation :=
        findProgramAddressSync L [SeedText "observation"; SeedKey (address p)]
          CPMM_PROGRAM in
      userInputAta <- ata inMint wallet ;;
      userOutputAta <- ata outMint wallet ;;
      inputMintInfo <- await (GetAccountInfo inMint) ;;
      outputMintInfo <- await (GetAccountInfo outMint) ;;
      let inputTokenProg := tokenProgramOf inputMintInfo in
      let outputTokenProg := tokenProgramOf outputMintInfo in
      let tx := tx_add new_Transaction (computeBudget 300000) in
      tx <- ensureAtas [(inMint, userInputAta); (outMint, userOutputAta)] tx ;;
      tx <- (if pk_equals inMint SOL_MINT then wrapSol amount userInputAta tx
             else ret tx) ;;
      amountBN <- orThrow (bn_of amount) "Invalid character" ;;
      amountLE <- orThrow (bn_le8 amountBN) "byte array longer than desired length" ;;
      let ixData := CPMM_SWAP_DISC ++ amountLE ++ le_bytes 8 0 in
      let tx := tx_add tx
        [RawInstruction CPMM_PROGRAM
           [signer wallet; readonly cpmmAuth; readonly ammConfig;
            writable (address p); writable userInputAta; writable userOutputAta;
            writable inputVault; writable outputVault; readonly inputTokenProg;
            readonly outputTokenProg; readonly inMint; readonly outMint;
            writable observation]
           ixData] in
      let tx := if pk_equals outMint SOL_MINT
                then tx_add tx [CloseAccount userOutputAta wallet wallet]
                else tx in
      simulateSignSend VCpmm 3 tx
  end.

(* Math.floor(currentTick / arraySpacing) * arraySpacing; NaN for spacing 0 *)
Definition tickStart (currentTick arraySpacing : Z) : option Z :=
  if arraySpacing =? 0 then None
  else Some (currentTick / arraySpacing * arraySpacing).

(* Orca: raw Whirlpool swap instruction *)
Definition swapViaOrca (inMint outMint : PublicKey) (amount : AmountStr)
  (p : PoolInfo) : Async (option string) :=
  poolInfo <- await (GetAccountInfo (address p)) ;;
  match poolInfo with
  | None => log (LPoolNotFound VOrca) ;;; ret None
  | Some acct =>
      let buf := acc_data acct in
      tickSpacing <- orThrow (readUInt16LE buf 41) "RangeError" ;;
      currentTick <- orThrow (readInt32LE buf 81) "RangeError" ;;
      let tokenMintA := key_at buf 101 133 in
      let vaultA := key_at buf 133 165 in
      let tokenMintB := key_at buf 181 213 in
      let vaultB := key_at buf 213 245 in
      let aToB := pk_equals tokenMintA inMint in
      let arraySpacing := Z.of_N tickSpacing * 88 in
      let currentStart := tickStart currentTick arraySpacing in
      let offsets := if aToB then [0; -1; -2] else [0; 1; 2] in
      let tickArrays :=
        map (fun o =>
               let idx := option_map (fun s => s + o * arraySpacing) currentStart in
               findProgramAddressSync L
                 [SeedText "tick_array"; SeedKey (address p); SeedNumber idx]
                 ORCA_WHIRLPOOL)
            offsets in
      taInfos <- await (GetMultipleAccountsInfo tickArrays) ;;
      let present :=
        filter (fun i => match i with Some _ => true | None => false end) taInfos in
      if negb (List.length present =? List.length taInfos)%nat
      then log (LMissingTickArrays (List.length present)) ;;; ret None
      else
        let oraclePda :=
          findProgramAddressSync L [SeedText "oracle"; SeedKey (address p)]
            ORCA_WHIRLPOOL in
        userAtaA <- ata tokenMintA wallet ;;
        userAtaB <- ata tokenMintB wallet ;;
        let tx := tx_add new_Transaction (computeBudget 300000) in
        tx <- ensureAtas [(tokenMintA, userAtaA); (tokenMintB, userAtaB)] tx ;;
        let isInputSol := pk_equals inMint SOL_MINT in
        tx <- (if isInputSol
               then wrapSol amount (if aToB then userAtaA else userAtaB) tx
               else ret tx) ;;
        amountIn <- orThrow (bn_of amount) "Invalid character" ;;
        let sqrtPriceLimit :=
          if aToB then 4295048016%N else 79226673515401279992447579055%N in
        let SWAP_DISC := [xf8; xc6; x9e; x91; xe1; x75; x87; xc8] in
        amountLE <- orThrow (bn_le8 amountIn) "byte array longer than desired length" ;;
        let ixData :=
          SWAP_DISC ++ amountLE ++ le_bytes 8 0 ++ bn_le16 sqrtPriceLimit
          ++ [x01] ++ [if aToB then x01 else x00] in
        let key_or_none (n : nat) := nth n tickArrays 0%N in
        let tx := tx_add tx
          [RawInstruction ORCA_WHIRLPOOL
             [readonly TOKEN_PROGRAM_ID; signer wallet; writable (address p);
              writable userAtaA; writable vaultA; writable userAtaB;
              writable vaultB; writable (key_or_none 0%nat);
              writable (key_or_none 1%nat); writable (key_or_none 2%nat);
              readonly oraclePda]
             ixData] in
        let isOutputSol := pk_equals outMint SOL_MINT in
        let tx := if isOutputSol && negb isInputSol
                  then tx_add tx [CloseAccount (if aToB then userAtaB else userAtaA)
                                    wallet wallet]
                  else tx in
        simulateSignSend VOrca 2 tx
  end.

(* amountBN.muln(10000 + config.slippageBps).divn(10000) *)
(* muln asserts a factor below 0x4000000 and works on magnitudes *)
Definition withSlippage (amountBN : N) : option N :=
  let factor := Z.abs_N (10000 + slippageBps cfg) in
  if (factor <? 67108864)%N then Some (amountBN * factor / 10000)%N
  else None.

Definition U64_MAX : N := 18446744073709551615.

(* pump.fun: raw bonding-curve instruction *)
Definition swapViaPumpFun (inMint outMint : PublicKey) (amount : AmountStr)
  (p : PoolInfo) : Async (option string) :=
  let isBuy := pk_equals inMint SOL_MINT in
  let tokenMint := if isBuy then outMint else inMint in
  let bondingCurve := address p in
  let associatedBondingCurve :=
    getAssociatedTokenAddressSync L tokenMint bondingCurve in
  userAta <- ata tokenMint wallet ;;
  let tx := tx_add new_Transaction (computeBudget 200000) in
  ataInfo <- await (GetAccountInfo userAta) ;;
  let tx := match ataInfo with
            | Some _ => tx
            | None => tx_add tx [CreateAssociatedTokenAccount wallet userAta wallet tokenMint]
            end in
  amountBN <- orThrow (bn_of amount) "Invalid character" ;;
  ixData <-
    (if isBuy then
       maxSolCost <- orThrow (withSlippage amountBN) "Assertion failed" ;;
       let BUY_DISC := [x66; x06; x3d; x12; x01; xda; xeb; xea] in
       maxTokensLE <- orThrow (bn_le8 U64_MAX) "byte array longer than desired length" ;;
       costLE <- orThrow (bn_le8 maxSolCost) "byte array longer than desired length" ;;
       ret (BUY_DISC ++ maxTokensLE ++ costLE)
     else
       let SELL_DISC := [x33; xe6; x85; xa4; x01; x7f; x83; xad] in
       amountLE <- orThrow (bn_le8 amountBN) "byte array longer than desired length" ;;
       ret (SELL_DISC ++ amountLE ++ le_bytes 8 0)) ;;
  let globalPda := findProgramAddressSync L [SeedText "global"] PUMPFUN_PROGRAM in
  let eventAuthority :=
    findProgramAddressSync L [SeedText "__event_authority"] PUMPFUN_PROGRAM in
  let tx := tx_add tx
    [RawInstruction PUMPFUN_PROGRAM
       [readonly globalPda; writable PUMPFUN_FEE_RECIPIENT; readonly tokenMint;
        writable bondingCurve; writable associatedBondingCurve; writable userAta;
        signer wallet; readonly SYSTEM_PROGRAM; readonly TOKEN_PROGRAM_ID;
        readonly RENT; readonly eventAuthority; readonly PUMPFUN_PROGRAM]
       ixData] in
  simulateSignSend VPumpFun 3 tx.

(* src/pools/pumpswap.ts *)
Record PumpSwapPoolData : Type := {
  ps_address : PublicKey;
  poolCreator : PublicKey;
  baseMint : PublicKey;
  quoteMint : PublicKey;
  lpMint : PublicKey;
  baseVault : PublicKey;
  quoteVault : PublicKey;
  status : byte
}.

Definition POOL_DISCRIMINATOR : Buffer := [xf1; x9a; x6d; x04; x11; xb1; x6d; xbc].

Definition parsePumpSwapPool (addr : PublicKey) (data : Buffer)
  : option PumpSwapPoolData :=
  if negb (List.length data =? 301)%nat then None
  else if negb (forallb (fun xy => Byte.eqb (fst xy) (snd xy))
                  (combine (subarray data 0 8) POOL_DISCRIMINATOR)) then None
  else match nth_error data 8 with
       | Some st =>
           if negb (Byte.eqb st xff) then None
           else Some {| ps_address := addr;
                        poolCreator := key_at data 11 43;
                        baseMint := key_at data 43 75;
                        quoteMint := key_at data 75 107;
                        lpMint := key_at data 107 139;
                        baseVault := key_at data 139 171;
                        quoteVault := key_at data 171 203;
                        status := st |}
       | None => None
       end.

(* PumpSwap: raw AMM swap instruction *)
Definition swapViaPumpSwap (inMint outMint : PublicKey) (amount : AmountStr)
  (p : PoolInfo) : Async (option string) :=
  let isBuy := pk_equals inMint SOL_MINT in
  poolInfo <- await (GetAccountInfo (address p)) ;;
  match poolInfo with
  | None => log (LPoolNotFound VPumpSwap) ;;; ret None
  | Some acct =>
      match parsePumpSwapPool (address p) (acc_data acct) with
      | None => log LPoolParseFailed ;;; ret None
      | Some poolData =>
          let poolAuthority :=
            findProgramAddressSync L [SeedText "pool_authority"; SeedKey (address p)]
              PUMPSWAP_PROGRAM in
          let eventAuthority :=
            findProgramAddressSync L [SeedText "__event_authority"] PUMPSWAP_PROGRAM in
          let bMint := baseMint poolData in
          let qMint := quoteMint poolData in
          userBaseAta <- ata bMint wallet ;;
          userQuoteAta <- ata qMint wallet ;;
          protocolFeeBaseAta <- ata bMint PUMPSWAP_FEE_RECIPIENT ;;
          protocolFeeQuoteAta <- ata qMint PUMPSWAP_FEE_RECIPIENT ;;
          let tx := tx_add new_Transaction (computeBudget 300000) in
          tx <- ensureAtas [(bMint, userBaseAta); (qMint, userQuoteAta)] tx ;;
          let solAta := if pk_equals bMint SOL_MINT then userBaseAta else userQuoteAta in
          tx <- (if isBuy then wrapSol amount solAta tx else ret tx) ;;
          amountBN <- orThrow (bn_of amount) "Invalid character" ;;
          ixData <-
            (if isBuy then
               let BUY_DISC := [x66; x06; x3d; x12; x01; xda; xeb; xea] in
               maxQuote <- orThrow (withSlippage amountBN) "Assertion failed" ;;
               maxTokensLE <- orThrow (bn_le8 U64_MAX) "byte array longer than desired length" ;;
               quoteLE <- orThrow (bn_le8 maxQuote) "byte array longer than desired length" ;;
               ret (BUY_DISC ++ maxTokensLE ++ quoteLE ++ [x01])
             else
               let SELL_DISC := [x33; xe6; x85; xa4; x01; x7f; x83; xad] in
               amountLE <- orThrow (bn_le8 amountBN) "byte array longer than desired length" ;;
               ret (SELL_DISC ++ amountLE ++ le_bytes 8 0)) ;;
          baseMintInfo <- await (GetAccountInfo bMint) ;;
          quoteMintInfo <- await (GetAccountInfo qMint) ;;
          let baseTokenProgram := tokenProgramOf baseMintInfo in
          let quoteTokenProgram := tokenProgramOf quoteMintInfo in
          let keys :=
            [writable (address p); readonly poolAuthority;
             readonly PUMPSWAP_GLOBAL_CONFIG; readonly bMint; readonly qMint;
             signer wallet; writable (if isBuy then userQuoteAta else userBaseAta);
             writable (baseVault poolData); writable (quoteVault poolData);
             writable protocolFeeBaseAta; writable protocolFeeQuoteAta;
             readonly baseTokenProgram; readonly quoteTokenProgram;
             readonly SYSTEM_PROGRAM; readonly ASSOCIATED_TOKEN_PROGRAM;
             readonly eventAuthority; readonly PUMPSWAP_PROGRAM] in
          let tx := tx_add tx [RawInstruction PUMPSWAP_PROGRAM keys ixData] in
          let tx := if negb isBuy
                    then tx_add tx [CloseAccount solAta wallet wallet]
                    else tx in
          simulateSignSend VPumpSwap 3 tx
      end
  end.

Definition venue_of (p : PoolInfo) : option Venue :=
  match dex p with
  | orca => Some VOrca
  | pumpfun => Some VPumpFun
  | pumpswap => Some VPumpSwap
  | raydium => Some (match poolType p with cpmm => VCpmm | _ => VRaydium end)
  end.

Definition swapVia (v : Venue) : PublicKey -> PublicKey -> AmountStr -> PoolInfo
                                 -> Async (option string) :=
  match v with
  | VRaydium => swapViaRaydiumRaw
  | VCpmm => swapViaCpmm
  | VOrca => swapViaOrca
  | VPumpFun => swapViaPumpFun
  | VPumpSwap => swapViaPumpSwap
  end.

Definition executeBuyLeg (mint : PublicKey) (amount : AmountStr) (p : PoolInfo)
  : Async (option string) :=
  match dex p with
  | orca => swapViaOrca SOL_MINT mint amount p
  | pumpfun => swapViaPumpFun SOL_MINT mint amount p
  | pumpswap => swapViaPumpSwap SOL_MINT mint amount p
  | raydium =>
      match poolType p with
      | cpmm => swapViaCpmm SOL_MINT mint amount p
      | _ => swapViaRaydiumRaw SOL_MINT mint amount p
      end
  end.

Definition executeSellLeg (mint : PublicKey) (amount : AmountStr) (p : PoolInfo)
  : Async (option string) :=
  match dex p with
  | orca => swapViaOrca mint SOL_MINT amount p
  | pumpfun => swapViaPumpFun mint SOL_MINT amount p
  | pumpswap => swapViaPumpSwap mint SOL_MINT amount p
  | raydium =>
      match poolType p with
      | cpmm => swapViaCpmm mint SOL_MINT amount p
      | _ => swapViaRaydiumRaw mint SOL_MINT amount p
      end
  end.

(* this.executionCount++; this.totalProfit = this.totalProfit.add(expectedProfit) *)
Definition recordExecution (this : Executor) (opp : ArbOpportunity) : Executor :=
  {| executionCount := executionCount this + 1;
     totalProfit := dadd (totalProfit this) (expectedProfit opp);
     lastExecution := lastExecution this |}.

Definition executeArb (this : Executor) (opp : ArbOpportunity)
  : Async (bool * Executor) :=
  let mint := tokenMint opp in
  let solLamports := toFixed0 (opp_inputAmount opp) in
  (* Leg 1: buy token (SOL -> token) *)
  log (LLeg1Buy (dex (buyPool opp))) ;;;
  sig1 <- executeBuyLeg mint solLamports (buyPool opp) ;;
  match truthy sig1 with
  | None => log LLeg1Failed ;;; ret (false, this)
  | Some s1 =>
      log (LLeg1 s1) ;;;
      tokenAta <- ata mint wallet ;;
      perform (Sleep 1000) ;;;
      tokenBal <- await (GetTokenAccountBalance tokenAta) ;;
      let tokenAmount := amount tokenBal in
      log (LGotTokens (uiAmountString tokenBal)) ;;;
      if parses_to_zero tokenAmount
      then log LNoTokens ;;; ret (false, this)
      else
        (* Leg 2: sell token (token -> SOL) *)
        log (LLeg2Sell (dex (sellPool opp))) ;;;
        sig2 <- executeSellLeg mint tokenAmount (sellPool opp) ;;
        match truthy sig2 with
        | None =>
            log LLeg2Failed ;;;
            tokenBal2 <- await (GetTokenAccountBalance tokenAta) ;;
            (if parses_positive (amount tokenBal2)
             then
               if negb (same_object (sellPool opp) (buyPool opp))
               then
                 let otherPool := buyPool opp in
                 log (LFallbackVia (dex otherPool)) ;;;
                 fb <- executeSellLeg mint (amount tokenBal2) otherPool ;;
                 match truthy fb with
                 | Some s => log (LFallback s)
                 | None => ret tt
                 end
               else ret tt
             else ret tt) ;;;
            ret (false, this)
        | Some s2 =>
            log (LLeg2 s2) ;;;
            log LArbComplete ;;;
            ret (true, recordExecution this opp)
        end
  end.

Definition dedupKey (opp : ArbOpportunity) : string :=
  (toBase58 L (address (buyPool opp)) ++ "-"
   ++ toBase58 L (address (sellPool opp)) ++ "-" ++ type_name (type opp))%string.

Definition is_duplicate (this : Executor) (key : string) (now : Z) : bool :=
  match lastExecution this with
  | Some (k, ts) => String.eqb k key && (now - ts <? 30000)
  | None => false
  end.

(* catch (error) { console.log(...error.message); return false; } *)
Definition catchBlock (this : Executor) (message : string)
  : Async (bool * Executor) :=
  log (LExecutionFailed message) ;;; ret (false, this).

(* try { return await this.executeArb(opportunity); } catch ... *)
Definition liveExecution (this : Executor) (opp : ArbOpportunity)
  : Async (bool * Executor) :=
  try_catch (executeArb this opp) (catchBlock this).

(* this.lastExecution = { key: dedupKey, timestamp: now } *)
Definition stamp (this : Executor) (key : string) (now : Z) : Executor :=
  {| executionCount := executionCount this;
     totalProfit := totalProfit this;
     lastExecution := Some (key, now) |}.

Definition execute (this : Executor) (opp : ArbOpportunity)
  : Async (bool * Executor) :=
  let key := dedupKey opp in
  now <- perform Now ;;
  if is_duplicate this key now
  then log LSkipDuplicate ;;; ret (false, this)
  else
    let this := stamp this key now in
    log (LOpportunity (type opp)) ;;;
    log (LBuy (dex (buyPool opp)) (poolType (buyPool opp))
           (substring 0 8 (toBase58 L (address (buyPool opp))))) ;;;
    log (LSell (dex (sellPool opp)) (poolType (sellPool opp))
           (substring 0 8 (toBase58 L (address (sellPool opp))))) ;;;
    log (LSize (ddiv (opp_inputAmount opp) (ofZ 1000000000))) ;;;
    log (LProfit (ddiv (expectedProfit opp) (ofZ 1000000000)) (profitBps opp)) ;;;
    if dryRun cfg
    then
      log LDryRun ;;;
      ret (true, recordExecution this opp)
    else liveExecution this opp.

End WithLibraries.

(** * Observations on traces *)

Definition is_submission_event {X} (e : Event X) : bool :=
  match e with
  | SimulateTransaction _ | SignAndSerialize _
  | SendRawTransaction _ | ConfirmTransaction _ => true
  | _ => false
  end.

Definition is_arb_log (m : LogMsg) : bool :=
  match m with
  | LLeg1Buy _ | LLeg1Failed | LLeg1 _ | LGotTokens _ | LNoTokens
  | LLeg2Sell _ | LLeg2Failed | LFallbackVia _ | LFallback _ | LLeg2 _
  | LArbComplete => true
  | _ => false
  end.

(* what a builder does before it simulates: chain reads and its own log lines *)
Definition is_prep {X} (e : Event X) : bool :=
  match e with
  | Log m => negb (is_arb_log m)
  | GetAccountInfo _ | GetMultipleAccountsInfo _ | GetLatestBlockhash => true
  | _ => false
  end.

Definition is_submission (en : Entry) : bool :=
  match en with Ev e _ => is_submission_event e end.

Definition submissions (evs : Trace) : Trace := filter is_submission evs.

Definition arb_mark (en : Entry) : list LogMsg :=
  match en with
  | Ev e _ =>
      match e with
      | Log m => if is_arb_log m then [m] else []
      | _ => []
      end
  end.

Definition arb_marks (evs : Trace) : list LogMsg := flat_map arb_mark evs.

Definition is_simulation (en : Entry) : bool :=
  match en with Ev e _ => match e with SimulateTransaction _ => true | _ => false end end.
Definition is_send (en : Entry) : bool :=
  match en with Ev e _ => match e with SendRawTransaction _ => true | _ => false end end.
Definition is_rpc (en : Entry) : bool :=
  match en with
  | Ev e _ => match e with Now | Log _ | Sleep _ => false | _ => true end
  end.

Definition simulations (evs : Trace) : nat := List.length (filter is_simulation evs).
Definition sends (evs : Trace) : nat := List.length (filter is_send evs).

(** * Shapes of programs *)

Inductive PrepOnly {A} : Async A -> Prop :=
| PO_ret r : PrepOnly (Ret r)
| PO_vis X (e : Event X) k :
    is_prep e = true -> (forall x, PrepOnly (k x)) -> PrepOnly (Vis e k).

(** A leg: preparation, then at most one pass through the closing block. *)
Inductive Leg (cfg : Config) : Async (option string) -> Prop :=
| Leg_null : Leg cfg (Ret (Ok None))
| Leg_thrown e : Leg cfg (Ret (Thrown e))
| Leg_prep X (e : Event X) k :
    is_prep e = true -> (forall x, Leg cfg (k x)) -> Leg cfg (Vis e k)
| Leg_closing v tail tx : Leg cfg (simulateSignSend cfg v tail tx).

(** What a leg is seen to do with its transaction, and what it returns. *)
Inductive LegRun : Trace -> Outcome (option string) -> Prop :=
| LR_null : LegRun [] (Ok None)
| LR_thrown e : LegRun [] (Thrown e)
| LR_simulation_rejected tx e :
    LegRun [Ev (SimulateTransaction tx) (Rejected e)] (Thrown e)
| LR_simulation_error tx r err :
    sim_err r = Some err ->
    LegRun [Ev (SimulateTransaction tx) (Resolved r)] (Ok None)
| LR_sign_rejected tx r e :
    sim_err r = None ->
    LegRun [Ev (SimulateTransaction tx) (Resolved r);
            Ev (SignAndSerialize tx) (Rejected e)] (Thrown e)
| LR_send_rejected tx r raw e :
    sim_err r = None ->
    LegRun [Ev (SimulateTransaction tx) (Resolved r);
            Ev (SignAndSerialize tx) (Resolved raw);
            Ev (SendRawTransaction raw) (Rejected e)] (Thrown e)
| LR_confirm_rejected tx r raw sig e :
    sim_err r = None ->
    LegRun [Ev (SimulateTransaction tx) (Resolved r);
            Ev (SignAndSerialize tx) (Resolved raw);
            Ev (SendRawTransaction raw) (Resolved sig);
            Ev (ConfirmTransaction sig) (Rejected e)] (Thrown e)
| LR_confirm_error tx r raw sig err :
    sim_err r = None ->
    LegRun [Ev (SimulateTransaction tx) (Resolved r);
            Ev (SignAndSerialize tx) (Resolved raw);
            Ev (SendRawTransaction raw) (Resolved sig);
            Ev (ConfirmTransaction sig) (Resolved (Some err))] (Ok None)
| LR_confirmed tx r raw sig :
    sim_err r = None ->
    LegRun [Ev (SimulateTransaction tx) (Resolved r);
            Ev (SignAndSerialize tx) (Resolved raw);
            Ev (SendRawTransaction raw) (Resolved sig);
            Ev (ConfirmTransaction sig) (Resolved None)] (Ok (Some sig)).

(** * Monitors: properties of every run of a program *)

Section Monitor.

Context {S : Type} (step : S -> Entry -> S).

(* [Sat Q s p]: started in monitor state [s], every run of [p] ends in a
   monitor state and a result related by [Q] *)
Fixpoint Sat {A} (Q : S -> A -> Prop) (s : S) (p : Prog A) : Prop :=
  match p with
  | Ret a => Q s a
  | Vis e k => forall x, Sat Q (step s (Ev e x)) (k x)
  end.

End Monitor.

(** * What is observed of an arbitrage: its own log lines, and the number of
    transactions simulated and sent *)

Record ArbView : Type := {
  marks : list LogMsg;
  simulated : nat;
  sent : nat
}.

Definition observe_step (v : ArbView) (en : Entry) : ArbView :=
  {| marks := marks v ++ arb_mark en;
     simulated := if is_simulation en then S (simulated v) else simulated v;
     sent := if is_send en then S (sent v) else sent v |}.


(* a leg adds no arbitrage mark and at most one transaction *)
Definition leg_post (v : ArbView) (v' : ArbView) : Prop :=
  marks v' = marks v /\
  (simulated v <= simulated v' <= S (simulated v))%nat /\
  (sent v <= sent v' <= S (sent v))%nat.

(** The paths of the two-leg execution: the arbitrage's own log lines, a
    bound on the transactions simulated and sent, and the result. *)
Section Paths.

Context (this : Executor) (opp : ArbOpportunity).

Inductive ArbPath : list LogMsg -> nat -> Outcome (bool * Executor) -> Prop :=
| AP_leg1_failed :
    ArbPath [LLeg1Buy (dex (buyPool opp)); LLeg1Failed] 1 (Ok (false, this))
| AP_no_tokens s1 ui :
    ArbPath [LLeg1Buy (dex (buyPool opp)); LLeg1 s1; LGotTokens ui; LNoTokens] 1 (Ok (false, this))
| AP_done s1 ui s2 :
    ArbPath [LLeg1Buy (dex (buyPool opp)); LLeg1 s1; LGotTokens ui; LLeg2Sell (dex (sellPool opp)); LLeg2 s2;
             LArbComplete] 2 (Ok (true, recordExecution this opp))
| AP_leg2_failed s1 ui :
    ArbPath [LLeg1Buy (dex (buyPool opp)); LLeg1 s1; LGotTokens ui; LLeg2Sell (dex (sellPool opp)); LLeg2Failed]
            2 (Ok (false, this))
| AP_fallback_failed s1 ui :
    same_object (sellPool opp) (buyPool opp) = false ->
    ArbPath [LLeg1Buy (dex (buyPool opp)); LLeg1 s1; LGotTokens ui; LLeg2Sell (dex (sellPool opp)); LLeg2Failed;
             LFallbackVia (dex (buyPool opp))] 3 (Ok (false, this))
| AP_fallback_done s1 ui s3 :
    same_object (sellPool opp) (buyPool opp) = false ->
    ArbPath [LLeg1Buy (dex (buyPool opp)); LLeg1 s1; LGotTokens ui; LLeg2Sell (dex (sellPool opp)); LLeg2Failed;
             LFallbackVia (dex (buyPool opp)); LFallback s3] 3 (Ok (false, this))
| AP_thrown_in_leg1 e :
    ArbPath [LLeg1Buy (dex (buyPool opp))] 1 (Thrown e)
| AP_thrown_settling s1 e :
    ArbPath [LLeg1Buy (dex (buyPool opp)); LLeg1 s1] 1 (Thrown e)
| AP_thrown_in_leg2 s1 ui e :
    ArbPath [LLeg1Buy (dex (buyPool opp)); LLeg1 s1; LGotTokens ui; LLeg2Sell (dex (sellPool opp))] 2 (Thrown e)
| AP_thrown_after_leg2 s1 ui e :
    ArbPath [LLeg1Buy (dex (buyPool opp)); LLeg1 s1; LGotTokens ui; LLeg2Sell (dex (sellPool opp)); LLeg2Failed]
            2 (Thrown e)
| AP_thrown_in_fallback s1 ui e :
    same_object (sellPool opp) (buyPool opp) = false ->
    ArbPath [LLeg1Buy (dex (buyPool opp)); LLeg1 s1; LGotTokens ui; LLeg2Sell (dex (sellPool opp)); LLeg2Failed;
             LFallbackVia (dex (buyPool opp))] 3 (Thrown e).

Definition arb_post (v : ArbView) (r : Outcome (bool * Executor)) : Prop :=
  exists n, ArbPath (marks v) n r /\ (simulated v <= n)%nat /\ (sent v <= n)%nat.

End Paths.

(** * A small world for examples *)

Definition toy_web3 : Web3 :=
  {| fromBase58 := fun s => N.of_nat (String.length s);
     toBase58 := fun k => NilZero.string_of_uint (N.to_uint k);
     findProgramAddressSync := fun _ program => program;
     createProgramAddressSync := fun _ program => Some program;
     getAssociatedTokenAddress := fun mint owner => Some (mint + owner)%N;
     getAssociatedTokenAddressSync := fun mint owner => (mint + owner)%N |}.

Definition live_config : Config :=
  {| dryRun := false; slippageBps := 100; wallet_publicKey := 5%N |}.

Definition curve_pool (id : N) : PoolInfo :=
  {| oid := id; address := (1000 + id)%N; dex := pumpfun; poolType := bonding_curve;
     tokenA := 43%N; tokenB := 777%N;
     reserveA := ofZ 30000000000; reserveB := ofZ 1000000000000000;
     fee := 100; lastUpdate := 0; decimalsA := Some 9%N; decimalsB := Some 6%N;
     sqrtPriceX64 := None; orcaApiPrice := None |}.

Definition sample_opportunity (buy sell : N) : ArbOpportunity :=
  {| type := spatial; buyPool := curve_pool buy; sellPool := curve_pool sell;
     tokenMint := 777%N; opp_inputAmount := ofZ 1000000; expectedProfit := ofZ 500;
     profitBps := 5; timestamp := 0 |}.

(* a chain on which every call succeeds, except that the simulation number
   [failing] (counted from 0) reports an error; the clock starts at [clock]
   and advances by one millisecond with every effect *)
Definition scripted_world (failing : nat) (clock : Z) : World :=
  fun X history e =>
    match e in Event X0 return X0 with
    | Now => clock + Z.of_nat (List.length history)
    | Log _ => tt
    | Sleep _ => tt
    | GetAccountInfo _ => Resolved None
    | GetMultipleAccountsInfo _ => Resolved []
    | GetTokenAccountBalance _ => Resolved {| amount := AInt 5; uiAmountString := "5" |}
    | GetLatestBlockhash => Resolved "blockhash"
    | SimulateTransaction _ =>
        Resolved {| sim_err := if (simulations history =? failing)%nat
                               then Some "custom program error" else None;
                    sim_logs := None |}
    | SignAndSerialize _ => Resolved []
    | SendRawTransaction _ => Resolved "signature"
    | ConfirmTransaction _ => Resolved None
    end.

(* a chain that cannot be reached *)
Definition offline_world (clock : Z) : World :=
  fun X history e =>
    match e in Event X0 return X0 with
    | Now => clock
    | Log _ => tt
    | Sleep _ => tt
    | GetAccountInfo _ => Rejected "fetch failed"
    | GetMultipleAccountsInfo _ => Rejected "fetch failed"
    | GetTokenAccountBalance _ => Rejected "fetch failed"
    | GetLatestBlockhash => Rejected "fetch failed"
    | SimulateTransaction _ => Rejected "fetch failed"
    | SignAndSerialize _ => Rejected "fetch failed"
    | SendRawTransaction _ => Rejected "fetch failed"
    | ConfirmTransaction _ => Rejected "fetch failed"
    end.

(* an executor that recorded one execution of [sample_opportunity 1 2] at
   time 990 *)
Definition busy_executor : Executor :=
  {| executionCount := 1; totalProfit := ofZ 500;
     lastExecution := Some ("1001-1002-spatial", 990) |}.

(** * More of the program *)

(** ** PoolManager.getPoolsForPair (src/pools/poolManager.ts) *)

(* this.pools.filter(p => (A = a && B = b) || (B = a && A = b)) *)
Definition getPoolsForPair (pools : list PoolInfo) (a b : PublicKey) : list PoolInfo :=
  filter (fun p => (pk_equals (tokenA p) a && pk_equals (tokenB p) b)
                   || (pk_equals (tokenB p) a && pk_equals (tokenA p) b))
         pools.

(* a whirlpool listed with an API price of 2 tokenB per tokenA, for examples *)
Definition priced_pool (ra rb : Z) : PoolInfo :=
  {| oid := 2; address := 200%N; dex := orca; poolType := whirlpool;
     tokenA := 11%N; tokenB := 22%N;
     reserveA := ofZ ra; reserveB := ofZ rb; fee := 30; lastUpdate := 0;
     decimalsA := Some 9%N; decimalsB := Some 6%N;
     sqrtPriceX64 := None; orcaApiPrice := Some (ofZ 2) |}.

(** ** Bonding-curve accounts (src/pools/pumpfun.ts) *)

(* [data[48] !== 0]; a read of 8 bytes outside the buffer raises RangeError *)
Definition parseBondingCurve (data : Buffer) : Outcome (option BondingCurveData) :=
  if (List.length data <? 49)%nat then Ok None
  else
    match readBigUInt64LE data 8, readBigUInt64LE data 16, readBigUInt64LE data 24,
          readBigUInt64LE data 32, readBigUInt64LE data 40 with
    | Some vt, Some vs, Some rt, Some rs, Some ts =>
        Ok (Some {| virtualTokenReserves := Z.of_N vt;
                    virtualSolReserves := Z.of_N vs;
                    realTokenReserves := Z.of_N rt;
                    realSolReserves := Z.of_N rs;
                    tokenTotalSupply := Z.of_N ts;
                    complete := match nth_error data 48 with
                                | Some x => negb (Byte.eqb x x00)
                                | None => true
                                end |})
    | _, _, _, _, _ => Thrown "RangeError"
    end.

Section PumpFunAccounts.

Context (L : Web3).

Definition getBondingCurvePDA (mint : PublicKey) : PublicKey :=
  findProgramAddressSync L [SeedText "bonding-curve"; SeedKey mint] (PUMPFUN_PROGRAM L).

Definition fetchBondingCurve (mint : PublicKey) : Async (option BondingCurveData) :=
  let pda := getBondingCurvePDA mint in
  info <- await (GetAccountInfo pda) ;;
  match info with
  | None => ret None
  | Some i => Ret (parseBondingCurve (acc_data i))
  end.

End PumpFunAccounts.

(** ** bufToU128 (src/pools/registry.ts) *)

(* for (let i = 15; i >= 0; i--) result = (result << 8n) | BigInt(buf[i]);
   [bufToU128_from buf i result] runs the iterations i-1, ..., 0;
   BigInt(undefined) raises TypeError *)
Fixpoint bufToU128_from (buf : Buffer) (i : nat) (result : N) : option N :=
  match i with
  | O => Some result
  | S j =>
      match nth_error buf j with
      | Some x => bufToU128_from buf j (N.lor (N.shiftl result 8) (Byte.to_N x))
      | None => None
      end
  end.

Definition bufToU128 (buf : Buffer) : option N := bufToU128_from buf 16 0%N.

(** ** The scan for the best opportunity of a cycle (src/index.ts, runCycle) *)

(* if (!bestOpp || opp.profitBps > bestOpp.profitBps) bestOpp = opp *)
Definition keepBest (bestOpp : option ArbOpportunity) (opp : ArbOpportunity)
  : option ArbOpportunity :=
  match bestOpp with
  | None => Some opp
  | Some best => if profitBps best <? profitBps opp then Some opp else Some best
  end.

(* [opps]: the opportunities of the cycle in the order the loops visit them *)
Definition bestOpportunity (opps : list ArbOpportunity) : option ArbOpportunity :=
  fold_left keepBest opps None.

(* an opportunity between two curve pools with the given profit, for examples *)
Definition opportunity_of (profit : Z) (buy sell : N) : ArbOpportunity :=
  {| type := spatial; buyPool := curve_pool buy; sellPool := curve_pool sell;
     tokenMint := 777%N; opp_inputAmount := ofZ 1000000; expectedProfit := ofZ 500;
     profitBps := profit; timestamp := 0 |}.

(* a PumpSwap pool account: discriminator, active status, and 292 more bytes *)
Definition sample_pool_account : Buffer :=
  POOL_DISCRIMINATOR ++ [xff] ++ repeat x01 292.

(** ** More observations on traces *)

Definition simulated_tx (en : Entry) : list Transaction :=
  match en with
  | Ev e _ => match e with SimulateTransaction tx => [tx] | _ => [] end
  end.

(* the transactions handed to simulateTransaction, in order *)
Definition simulated_txs (evs : Trace) : list Transaction := flat_map simulated_tx evs.

Definition raw_instruction (ix : Instruction)
  : list (PublicKey * list AccountMeta * Buffer) :=
  match ix with
  | RawInstruction programId keys data => [(programId, keys, data)]
  | _ => []
  end.

(* the hand-built instructions of a transaction *)
Definition raw_instructions (tx : Transaction)
  : list (PublicKey * list AccountMeta * Buffer) :=
  flat_map raw_instruction (instructions tx).

(* monitor: the transactions simulated so far *)
Definition record_simulated (s : list Transaction) (en : Entry) : list Transaction :=
  s ++ simulated_tx en.

(* the answers to the account look-ups of the ATA loop, and the accounts it
   creates: those whose look-up returned null *)
Definition ata_lookups (pairs : list (PublicKey * PublicKey))
  (infos : list (option AccountInfo)) : Trace :=
  map (fun pi => Ev (GetAccountInfo (snd (fst pi))) (Resolved (snd pi)))
      (combine pairs infos).

Definition missing_atas (payer : PublicKey) (pairs : list (PublicKey * PublicKey))
  (infos : list (option AccountInfo)) : list Instruction :=
  flat_map (fun pi =>
              match snd pi with
              | Some _ => []
              | None => [CreateAssociatedTokenAccount payer (snd (fst pi)) payer
                           (fst (fst pi))]
              end)
           (combine pairs infos).

(* where a builder writes the amount of its swap instruction *)
Definition amount_offset (v : Venue) : nat :=
  match v with VRaydium => 1%nat | _ => 8%nat end.

Section SwapInstruction.

Context (L : Web3) (cfg : Config).

Definition program_of (v : Venue) : PublicKey :=
  match v with
  | VRaydium => RAYDIUM_AMM L
  | VCpmm => CPMM_PROGRAM L
  | VOrca => ORCA_WHIRLPOOL L
  | VPumpFun => PUMPFUN_PROGRAM L
  | VPumpSwap => PUMPSWAP_PROGRAM L
  end.

(* a buy on pump.fun or PumpSwap: the input mint is SOL *)
Definition is_pump_buy (v : Venue) (inMint : PublicKey) : bool :=
  match v with
  | VPumpFun | VPumpSwap => pk_equals inMint (SOL_MINT L)
  | _ => false
  end.

(* the two 64-bit fields that follow the discriminator of a swap instruction:
   for a pump buy the token amount and the maximum cost, otherwise the
   amount and the minimum output *)
Definition swap_fields (v : Venue) (inMint : PublicKey) (n : N) (data : Buffer)
  : Prop :=
  if is_pump_buy v inMint
  then readBigUInt64LE data 8 = Some U64_MAX /\
       exists maxCost, withSlippage cfg n = Some maxCost /\
                       readBigUInt64LE data 16 = Some maxCost
  else readBigUInt64LE data (amount_offset v) = Some n /\
       readBigUInt64LE data (amount_offset v + 8) = Some 0%N.

(* a transaction paid by the wallet whose only hand-built instruction is the
   venue's swap of the amount *)
Definition carries_swap (v : Venue) (inMint : PublicKey) (amount : AmountStr)
  (tx : Transaction) : Prop :=
  exists keys data n,
    raw_instructions tx = [(program_of v, keys, data)] /\
    feePayer tx = Some (wallet cfg) /\
    bn_of amount = Some n /\
    swap_fields v inMint n data.

(* the instruction data of the two pump builders *)
Definition pump_data_ok (v : Venue) (i : PublicKey) (n : N)
  (s : list Transaction) (r : Outcome Buffer) : Prop :=
  s = [] /\ forall d, r = Ok d -> swap_fields v i n d.

End SwapInstruction.

(* a step of a builder that simulates nothing and hands on a transaction with
   the same hand-built instructions *)
Definition keeps_raw (tx : Transaction) (s : list Transaction)
  (r : Outcome Transaction) : Prop :=
  s = [] /\ forall tx', r = Ok tx' -> raw_instructions tx' = raw_instructions tx.

Local Close Scope async_scope.
Local Close Scope Z_scope.
Local Close Scope list_scope.
Local Close Scope string_scope.

(** * Part II. Facts *)

Module DecFacts.
Import Dec.
Local Open Scope N_scope.

Lemma pow10_pos k : 0 < pow10 k.
Proof. unfold pow10. apply N.neq_0_lt_0, N.pow_nonzero. discriminate. Qed.

Lemma pow10_nonpos k : (k <= 0)%Z -> pow10 k = 1.
Proof.
  intros H. unfold pow10. replace (Z.to_N k) with 0 by lia. reflexivity.
Qed.

Lemma pow10_add a b :
  (0 <= a)%Z -> (0 <= b)%Z -> pow10 (a + b) = pow10 a * pow10 b.
Proof.
  intros Ha Hb. unfold pow10. rewrite Z2N.inj_add by assumption.
  apply N.pow_add_r.
Qed.

Lemma pow10_succ a : (0 <= a)%Z -> pow10 (a + 1) = 10 * pow10 a.
Proof.
  intros Ha. rewrite pow10_add by lia. change (pow10 1) with 10. lia.
Qed.

Lemma pow10_le a b : (a <= b)%Z -> pow10 a <= pow10 b.
Proof.
  intros H. unfold pow10. apply N.pow_le_mono_r; [discriminate | lia].
Qed.

Lemma pow10_lt a b : (0 <= a)%Z -> (a < b)%Z -> pow10 a < pow10 b.
Proof.
  intros Ha H. unfold pow10. apply N.pow_lt_mono_r; lia.
Qed.

Lemma digits_aux_0 fuel : digits_aux fuel 0 = 0%Z.
Proof. destruct fuel; reflexivity. Qed.

Lemma digits_aux_spec fuel : forall n,
  0 < n -> n < 2 ^ N.of_nat fuel ->
  (1 <= digits_aux fuel n)%Z /\
  pow10 (digits_aux fuel n - 1) <= n < pow10 (digits_aux fuel n).
Proof.
  induction fuel as [|f IH]; intros n Hn Hlt.
  - simpl in Hlt. lia.
  - cbn [digits_aux]. destruct (N.eqb_spec n 0) as [->|_]; [lia|].
    destruct (N.lt_ge_cases n 10) as [Hs|Hb].
    + rewrite N.div_small by assumption. rewrite digits_aux_0.
      change (pow10 (1 + 0 - 1)) with 1. change (pow10 (1 + 0)) with 10. lia.
    + assert (Hq : 0 < n / 10).
      { apply N.div_str_pos. lia. }
      assert (Hq2 : n / 10 < 2 ^ N.of_nat f).
      { rewrite Nat2N.inj_succ, N.pow_succ_r' in Hlt.
        apply N.Div0.div_lt_upper_bound.
        assert (0 < 2 ^ N.of_nat f) by (apply N.neq_0_lt_0, N.pow_nonzero; discriminate).
        lia. }
      destruct (IH _ Hq Hq2) as (Hd & Hlo & Hhi).
      set (d := digits_aux f (n / 10)) in *.
      pose proof (N.Div0.div_mod n 10) as Hdm.
      pose proof (N.mod_lt n 10 ltac:(discriminate)) as Hm.
      split; [lia|].
      replace (1 + d - 1)%Z with ((d - 1) + 1)%Z by lia.
      replace (1 + d)%Z with (d + 1)%Z by lia.
      rewrite !pow10_succ by lia.
      clearbody d. clear IH Hlt Hq2.
      set (p1 := pow10 (d - 1)) in *. set (p2 := pow10 d) in *. clearbody p1 p2.
      set (q := n / 10) in *. set (r := n mod 10) in *. clearbody q r. lia.
Qed.

Lemma digits_spec n :
  0 < n ->
  (1 <= digits n)%Z /\ pow10 (digits n - 1) <= n < pow10 (digits n).
Proof.
  intros Hn. unfold digits. apply digits_aux_spec; [assumption|].
  rewrite N2Nat.id. apply N.size_gt.
Qed.

Lemma digits_unique n d :
  pow10 (d - 1) <= n < pow10 d -> 0 < n -> digits n = d.
Proof.
  intros (Hlo & Hhi) Hn.
  destruct (digits_spec n Hn) as (H1 & Hl & Hh).
  assert (Hd : (1 <= d)%Z).
  { destruct (Z.le_gt_cases 1 d); [assumption|].
    rewrite pow10_nonpos in Hhi by lia. lia. }
  destruct (Z.lt_trichotomy (digits n) d) as [Hc|[Hc|Hc]]; [|assumption|].
  - pose proof (pow10_le (digits n) (d - 1) ltac:(lia)). lia.
  - pose proof (pow10_le d (digits n - 1) ltac:(lia)). lia.
Qed.

Lemma digits_mul_pow10 a j :
  0 < a -> (0 <= j)%Z -> digits (a * pow10 j) = (digits a + j)%Z.
Proof.
  intros Ha Hj.
  destruct (digits_spec a Ha) as (H1 & Hl & Hh).
  pose proof (pow10_pos j) as Hp.
  apply digits_unique; [|nia].
  replace (digits a + j - 1)%Z with ((digits a - 1) + j)%Z by lia.
  rewrite !pow10_add by lia. split.
  - apply N.mul_le_mono_r. assumption.
  - apply N.mul_lt_mono_pos_r; assumption.
Qed.

Lemma digits_bound n d : (0 <= d)%Z -> n < pow10 d -> (digits n <= d)%Z.
Proof.
  intros Hd Hn. destruct (N.eq_0_gt_0_cases n) as [->|Hpos].
  - unfold digits. rewrite digits_aux_0. assumption.
  - destruct (digits_spec n Hpos) as (H1 & Hl & Hh).
    destruct (Z.le_gt_cases (digits n) d); [assumption|].
    pose proof (pow10_le d (digits n - 1) ltac:(lia)). lia.
Qed.

(** [strip] removes the trailing zero digits of a coefficient. *)

Lemma strip_aux_fuel f1 : forall f2 c e,
  0 < c -> c < 2 ^ N.of_nat f1 -> c < 2 ^ N.of_nat f2 ->
  strip_aux f1 c e = strip_aux f2 c e.
Proof.
  induction f1 as [|f1 IH]; intros f2 c e Hc H1 H2.
  - simpl in H1. lia.
  - destruct f2 as [|f2]; [simpl in H2; lia|].
    cbn [strip_aux]. destruct (N.eqb_spec (c mod 10) 0) as [Hm|Hm]; [|reflexivity].
    rewrite Nat2N.inj_succ, N.pow_succ_r' in H1, H2.
    pose proof (N.Div0.div_mod c 10) as Hdm.
    set (q := c / 10) in *. set (r := c mod 10) in *. clearbody q r.
    apply IH; lia.
Qed.

Lemma strip_mul10 a x : 0 < a -> strip (a * 10) x = strip a (x + 1).
Proof.
  intros Ha. unfold strip.
  destruct (N.eqb_spec (a * 10) 0) as [H0|_]; [lia|].
  destruct (N.eqb_spec a 0) as [H0|_]; [lia|].
  pose proof (N.size_gt (a * 10)) as Hs.
  destruct (N.to_nat (N.size (a * 10))) as [|f] eqn:Ef.
  - assert (N.size (a * 10) = 0) as E0 by lia. rewrite E0 in Hs. simpl in Hs. lia.
  - cbn [strip_aux]. rewrite N.Div0.mod_mul, N.div_mul by discriminate.
    cbn [N.eqb]. apply strip_aux_fuel; [assumption| |].
    + assert (E : N.size (a * 10) = N.succ (N.of_nat f)) by lia.
      rewrite E, N.pow_succ_r' in Hs. lia.
    + rewrite N2Nat.id. apply N.size_gt.
Qed.

Lemma strip_0 x : strip 0 x = (0, 0%Z).
Proof. reflexivity. Qed.

Lemma strip_scale a j x :
  (0 <= j)%Z -> strip (a * pow10 j) x = strip a (x + j).
Proof.
  intros Hj. destruct (N.eq_0_gt_0_cases a) as [->|Ha]; [reflexivity|].
  revert x. pattern j. apply natlike_ind; [| |assumption].
  - intros x. change (pow10 0) with 1. rewrite N.mul_1_r, Z.add_0_r. reflexivity.
  - intros k Hk IH x. unfold Z.succ. rewrite pow10_succ by assumption.
    replace (a * (10 * pow10 k)) with (a * pow10 k * 10) by lia.
    rewrite strip_mul10.
    + rewrite IH. f_equal. lia.
    + pose proof (pow10_pos k). nia.
Qed.

Lemma strip_aux_value fuel : forall c e,
  (e <= snd (strip_aux fuel c e))%Z /\
  c = fst (strip_aux fuel c e) * pow10 (snd (strip_aux fuel c e) - e).
Proof.
  induction fuel as [|f IH]; intros c e.
  - cbn. rewrite Z.sub_diag. change (pow10 0) with 1. lia.
  - cbn [strip_aux]. destruct (N.eqb_spec (c mod 10) 0) as [Hm|Hm].
    + destruct (IH (c / 10) (e + 1)%Z) as (Hle & Hv).
      set (r := strip_aux f (c / 10) (e + 1)) in *. clearbody r.
      split; [lia|].
      replace (snd r - e)%Z with ((snd r - (e + 1)) + 1)%Z by lia.
      rewrite pow10_succ by lia.
      pose proof (N.Div0.div_mod c 10) as Hdm. rewrite Hm in Hdm.
      set (p := pow10 (snd r - (e + 1))) in *. clearbody p.
      set (q := c / 10) in *. clearbody q. subst q. lia.
    + cbn. rewrite Z.sub_diag. change (pow10 0) with 1. lia.
Qed.

Lemma strip_value c e :
  0 < c ->
  (e <= snd (strip c e))%Z /\ 0 < fst (strip c e) /\
  c = fst (strip c e) * pow10 (snd (strip c e) - e).
Proof.
  intros Hc. unfold strip. destruct (N.eqb_spec c 0) as [H0|_]; [lia|].
  destruct (strip_aux_value (N.to_nat (N.size c)) c e) as (Hle & Hv).
  split; [assumption|]. split; [|assumption].
  destruct (N.eq_0_gt_0_cases (fst (strip_aux (N.to_nat (N.size c)) c e))) as [E|E];
    [|assumption].
  rewrite E in Hv. lia.
Qed.

Lemma strip_lead c e :
  0 < c -> (snd (strip c e) + digits (fst (strip c e)) = e + digits c)%Z.
Proof.
  intros Hc. destruct (strip_value c e Hc) as (Hle & Hpos & Hv).
  assert (E : digits c = digits (fst (strip c e) * pow10 (snd (strip c e) - e)))
    by (f_equal; exact Hv).
  rewrite digits_mul_pow10 in E by (assumption || lia). lia.
Qed.

Lemma strip_fst_pos c e : 0 < c -> 0 < fst (strip c e).
Proof. intros Hc. apply (strip_value c e Hc). Qed.

Lemma strip_idem c e : strip (fst (strip c e)) (snd (strip c e)) = strip c e.
Proof.
  destruct (N.eq_0_gt_0_cases c) as [->|Hc]; [reflexivity|].
  destruct (strip_value c e Hc) as (Hle & Hpos & Hv).
  rewrite Hv at 3. rewrite strip_scale by lia. f_equal. lia.
Qed.

Lemma strip_shift c x y :
  0 < c ->
  fst (strip c x) = fst (strip c y) /\
  (snd (strip c x) - x = snd (strip c y) - y)%Z.
Proof.
  intros Hc. unfold strip. destruct (N.eqb_spec c 0) as [H0|_]; [lia|].
  generalize (N.to_nat (N.size c)). intros f. clear Hc. revert c x y.
  induction f as [|f IH]; intros c x y; cbn [strip_aux].
  - cbn. lia.
  - destruct (N.eqb_spec (c mod 10) 0).
    + destruct (IH (c / 10) (x + 1)%Z (y + 1)%Z) as (E1 & E2). split; [assumption|lia].
    + cbn. lia.
Qed.

Lemma strip_fst_le c e : fst (strip c e) <= c.
Proof.
  destruct (N.eq_0_gt_0_cases c) as [->|Hc]; [cbn; lia|].
  destruct (strip_value c e Hc) as (Hle & Hpos & Hv).
  pose proof (pow10_pos (snd (strip c e) - e)). nia.
Qed.

Lemma fits_scale a j : (0 <= j)%Z -> fits (a * pow10 j) = fits a.
Proof.
  intros Hj. unfold fits. rewrite strip_scale by assumption.
  destruct (N.eq_0_gt_0_cases a) as [->|Ha]; [reflexivity|].
  destruct (strip_shift a (0 + j) 0 Ha) as (E & _). rewrite E. reflexivity.
Qed.

Lemma fits_small a : a < pow10 precision -> fits a = true.
Proof.
  intros H. unfold fits. apply N.ltb_lt.
  pose proof (strip_fst_le a 0). lia.
Qed.

Lemma half_up_exact m d : 0 < d -> (2 * (m * d) + d) / (2 * d) = m.
Proof.
  intros Hd. symmetry. apply N.div_unique with d; lia.
Qed.

(** A value with at most 20 significant digits is not changed by rounding. *)
Lemma round_sig_exact a j x :
  0 < a -> fits a = true -> (0 <= j)%Z ->
  round_sig a (pow10 j) x = strip a (x - j).
Proof.
  intros Ha Hf Hj. unfold round_sig.
  destruct (N.eqb_spec a 0) as [H0|_]; [lia|].
  assert (Hdj : digits (pow10 j) = (1 + j)%Z).
  { rewrite <- (N.mul_1_l (pow10 j)). rewrite digits_mul_pow10 by lia. reflexivity. }
  rewrite Hdj.
  destruct (digits_spec a Ha) as (Hd & Hlo & Hhi).
  set (d := digits a) in *.
  assert (Hk : (a * pow10 (- (d - (1 + j))) <? pow10 j * pow10 (d - (1 + j))) = false).
  { apply N.ltb_ge. destruct (Z.le_gt_cases 0 (d - (1 + j))) as [Hc|Hc].
    - rewrite (pow10_nonpos (- (d - (1 + j)))) by lia.
      rewrite <- pow10_add by lia.
      replace (j + (d - (1 + j)))%Z with (d - 1)%Z by lia. lia.
    - rewrite (pow10_nonpos (d - (1 + j))) by lia. rewrite N.mul_1_r.
      replace j with ((d - 1) + - (d - (1 + j)))%Z at 1 by lia.
      rewrite pow10_add by lia.
      apply N.mul_le_mono_r. assumption. }
  rewrite Hk. clear Hk.
  set (t := (d - (1 + j) + 1 - precision)%Z).
  (* the value a / 10^j scaled to 20 digits is the integer M *)
  unfold fits in Hf. apply N.ltb_lt in Hf.
  destruct (strip_value a 0 Ha) as (Hle & Hpos & Hv).
  pose proof (strip_lead a 0 Ha) as Hl. fold d in Hl.
  set (c := fst (strip a 0)) in *. set (e := snd (strip a 0)) in *.
  assert (Hdc : (digits c <= precision)%Z).
  { apply digits_bound; [unfold precision; lia | exact Hf]. }
  rewrite Z.sub_0_r in Hv.
  assert (HM : exists M, 0 < M /\ a * pow10 (- t) = M * (pow10 j * pow10 t)
                         /\ strip M (t + x) = strip a (x - j)).
  { unfold precision in *.
    destruct (Z.le_gt_cases d 20) as [Hs|Hs].
    - (* no digit is dropped *)
      exists (a * pow10 (20 - d)). split; [pose proof (pow10_pos (20 - d)); nia|]. split.
      + rewrite (pow10_nonpos t) by (unfold t; lia). rewrite N.mul_1_r.
        rewrite <- N.mul_assoc, <- pow10_add by lia. f_equal. f_equal. unfold t. lia.
      + rewrite strip_scale by lia. f_equal. unfold t. lia.
    - (* the dropped digits are zeros *)
      exists (c * pow10 (e - (d - 20))). split; [pose proof (pow10_pos (e - (d - 20))); nia|].
      assert (Ea : a = c * pow10 (e - (d - 20)) * pow10 (d - 20)).
      { rewrite <- N.mul_assoc, <- pow10_add by lia.
        replace (e - (d - 20) + (d - 20))%Z with e by lia. exact Hv. }
      split.
      + destruct (Z.le_gt_cases t 0) as [Ht|Ht].
        * rewrite (pow10_nonpos t) by assumption. rewrite N.mul_1_r.
          rewrite Ea at 1.
          rewrite <- (N.mul_assoc _ (pow10 (d - 20)) (pow10 (- t))).
          rewrite <- pow10_add by (unfold t in *; lia).
          replace (d - 20 + - t)%Z with j by (unfold t; lia). reflexivity.
        * rewrite (pow10_nonpos (- t)) by lia. rewrite N.mul_1_r.
          rewrite <- pow10_add by lia.
          replace (j + t)%Z with (d - 20)%Z by (unfold t; lia). exact Ea.
      + rewrite Ea at 1. rewrite (strip_scale _ (d - 20)) by lia. f_equal. unfold t. lia. }
  destruct HM as (M & HMpos & HMv & HMs).
  rewrite HMv, half_up_exact.
  - exact HMs.
  - pose proof (pow10_pos j). pose proof (pow10_pos t). nia.
Qed.

Lemma floor_mag_strip c e : floor_mag (strip c e) = floor_mag (c, e).
Proof.
  destruct (N.eq_0_gt_0_cases c) as [->|Hc].
  - rewrite strip_0. unfold floor_mag. change (0 <=? 0)%Z with true. cbv iota.
    destruct (0 <=? e)%Z; [reflexivity|]. rewrite N.Div0.div_0_l. reflexivity.
  - destruct (strip_value c e Hc) as (Hle & Hpos & Hv).
    destruct (strip c e) as [c' e'] eqn:Es. cbn [fst snd] in *.
    unfold floor_mag.
    destruct (Z.leb_spec 0 e) as [He|He]; destruct (Z.leb_spec 0 e') as [He'|He'];
      try lia.
    + rewrite Hv. rewrite <- N.mul_assoc, <- pow10_add by lia.
      f_equal; f_equal; lia.
    + rewrite Hv.
      replace (pow10 (e' - e)) with (pow10 e' * pow10 (- e)).
      * rewrite N.mul_assoc. rewrite N.div_mul; [reflexivity|].
        pose proof (pow10_pos (- e)). lia.
      * rewrite <- pow10_add by lia. f_equal; lia.
    + rewrite Hv.
      replace (pow10 (- e)) with (pow10 (- e') * pow10 (e' - e)).
      * rewrite N.Div0.div_mul_cancel_r; [reflexivity|].
        pose proof (pow10_pos (e' - e)). lia.
      * rewrite <- pow10_add by lia. f_equal; lia.
Qed.

(** Position of the leading digit of a quotient, as [round_sig] finds it. *)
Lemma quotient_digits a b :
  0 < a -> 0 < b ->
  let k0 := (digits a - digits b)%Z in
  let k := if a * pow10 (- k0) <? b * pow10 k0 then k0 else (k0 + 1)%Z in
  a * pow10 (- k) < b * pow10 k /\ b * pow10 (k - 1) <= a * pow10 (1 - k).
Proof.
  intros Ha Hb k0 k.
  destruct (digits_spec a Ha) as (Hda & Hla & Hha).
  destruct (digits_spec b Hb) as (Hdb & Hlb & Hhb).
  set (da := digits a) in *. set (db := digits b) in *.
  subst k. destruct (N.ltb_spec (a * pow10 (- k0)) (b * pow10 k0)) as [Hc|Hc].
  - split; [assumption|].
    destruct (Z.le_gt_cases 1 k0) as [Hk|Hk].
    + rewrite (pow10_nonpos (1 - k0)) by lia. rewrite N.mul_1_r.
      apply N.le_trans with (pow10 (da - 1)); [|assumption].
      replace (da - 1)%Z with (db + (k0 - 1))%Z by (unfold k0; lia).
      rewrite pow10_add by lia.
      apply N.mul_le_mono_r. lia.
    + rewrite (pow10_nonpos (k0 - 1)) by lia. rewrite N.mul_1_r.
      apply N.le_trans with (pow10 (da - 1) * pow10 (1 - k0)).
      * rewrite <- pow10_add by lia.
        replace (da - 1 + (1 - k0))%Z with db by (unfold k0; lia). lia.
      * apply N.mul_le_mono_r. assumption.
  - split; [|replace (k0 + 1 - 1)%Z with k0 by lia;
             replace (1 - (k0 + 1))%Z with (- k0)%Z by lia; assumption].
    destruct (Z.le_gt_cases 0 (k0 + 1)) as [Hk|Hk].
    + rewrite (pow10_nonpos (- (k0 + 1))) by lia. rewrite N.mul_1_r.
      apply N.lt_le_trans with (pow10 da); [assumption|].
      replace da with ((db - 1) + (k0 + 1))%Z by (unfold k0; lia).
      rewrite pow10_add by lia.
      apply N.mul_le_mono_r. assumption.
    + rewrite (pow10_nonpos (k0 + 1)) by lia. rewrite N.mul_1_r.
      apply N.lt_le_trans with (pow10 da * pow10 (- (k0 + 1))).
      * apply N.mul_lt_mono_pos_r; [apply pow10_pos | assumption].
      * rewrite <- pow10_add by lia.
        replace (da + - (k0 + 1))%Z with (db - 1)%Z by (unfold k0; lia). assumption.
Qed.

(** Rounding a quotient to 20 digits does not reach the next integer as long
    as the quotient, written with a small numerator and denominator, cannot
    come within half a unit of the 20th digit of that integer. *)
Lemma round_sig_floor a b a' b' :
  0 < a -> 0 < b -> 0 < b' -> a * b' = a' * b ->
  a' < 2 * pow10 19 -> b' < 2 * pow10 20 ->
  floor_mag (round_sig a b 0) = a' / b'.
Proof.
  intros Ha Hb Hb' Hx Ha' Hbb.
  unfold round_sig. destruct (N.eqb_spec a 0) as [H0|_]; [lia|].
  destruct (quotient_digits a b Ha Hb) as (Hup & Hlo). cbv zeta in Hup, Hlo.
  set (k := if a * pow10 (- (digits a - digits b)) <? b * pow10 (digits a - digits b)
            then (digits a - digits b)%Z else (digits a - digits b + 1)%Z) in *.
  clearbody k. rewrite floor_mag_strip, Z.add_0_r.
  unfold precision.
  (* the integer part f of the quotient *)
  pose proof (N.Div0.div_mod a' b') as Hdm.
  pose proof (N.mod_lt a' b' ltac:(lia)) as Hm.
  set (f := a' / b') in *. set (r := a' mod b') in *. clearbody f r.
  assert (Hfb : f * b <= a).
  { assert (f * b * b' <= a * b') by nia. nia. }
  assert (Hub : b <= ((f + 1) * b - a) * b' /\ a < (f + 1) * b) by nia.
  destruct Hub as (Hub & Hlt).
  destruct (Z.le_gt_cases (k - 20) 0) as [Ht|Ht].
  - rewrite (pow10_nonpos (k - 20)) by assumption. rewrite N.mul_1_r.
    pose proof (pow10_pos (- (k - 20))) as HP.
    assert (HbP : b' < 2 * pow10 (- (k - 20))).
    { destruct (Z.le_gt_cases k 0) as [Hk|Hk].
      - pose proof (pow10_le 20 (- (k - 20)) ltac:(lia)). lia.
      - rewrite (pow10_nonpos (1 - k)) in Hlo by lia. rewrite N.mul_1_r in Hlo.
        assert (E19 : pow10 19 = pow10 (k - 1) * pow10 (- (k - 20))).
        { rewrite <- pow10_add by lia. f_equal; lia. }
        pose proof (pow10_pos (k - 1)) as Hq.
        set (q := pow10 (k - 1)) in *. set (P := pow10 (- (k - 20))) in *.
        clearbody q P.
        assert (q * b' * b <= a' * b) by nia.
        assert (q * b' <= a') by nia.
        nia. }
    set (P := pow10 (- (k - 20))) in *.
    set (m := (2 * (a * P) + b) / (2 * b)).
    assert (Hm1 : 2 * b * m <= 2 * (a * P) + b < 2 * b * (m + 1)).
    { pose proof (N.Div0.div_mod (2 * (a * P) + b) (2 * b)) as E.
      pose proof (N.mod_lt (2 * (a * P) + b) (2 * b) ltac:(lia)) as E2.
      fold m in E. set (rr := (2 * (a * P) + b) mod (2 * b)) in *. clearbody rr m.
      lia. }
    assert (HP1 : (k - 20 = 0)%Z -> P = 1).
    { intros E0. subst P. rewrite E0. reflexivity. }
    assert (HPdef : pow10 (- (k - 20)) = P) by reflexivity.
    clearbody m P.
    assert (Hfm : f * P <= m < (f + 1) * P).
    { split.
      - destruct (N.le_gt_cases (f * P) m) as [|Hc]; [assumption|]. exfalso.
        assert (2 * b * (m + 1) <= 2 * b * (f * P)) by (apply N.mul_le_mono_l; lia).
        nia.
      - destruct (N.le_gt_cases ((f + 1) * P) m) as [Hc|]; [|assumption]. exfalso.
        assert (2 * b * ((f + 1) * P) <= 2 * b * m) by (apply N.mul_le_mono_l; lia).
        set (u := (f + 1) * b - a) in *.
        assert (Eu : (f + 1) * b = a + u) by lia.
        assert (2 * P * u <= b) by nia.
        assert (2 * P * u * b' <= b * b') by (apply N.mul_le_mono_r; assumption).
        assert (2 * P * b <= 2 * P * (u * b')) by (apply N.mul_le_mono_l; assumption).
        nia. }
    unfold floor_mag.
    destruct (Z.leb_spec 0 (k - 20)) as [Hz|Hz].
    + assert (k - 20 = 0)%Z as E0 by lia.
      specialize (HP1 E0). rewrite E0. change (pow10 0) with 1. lia.
    + rewrite HPdef. symmetry. apply N.div_unique with (m - f * P); lia.
  - exfalso.
    rewrite (pow10_nonpos (1 - k)) in Hlo by lia. rewrite N.mul_1_r in Hlo.
    pose proof (pow10_le 20 (k - 1) ltac:(lia)) as H20.
    change (pow10 19) with 10000000000000000000 in Ha'.
    change (pow10 20) with 100000000000000000000 in H20.
    set (q := pow10 (k - 1)) in *. clearbody q.
    assert (q * b' * b <= a' * b) by nia.
    assert (q * b' <= a') by nia.
    nia.
Qed.

(** Canonical decimals [canon n x] stand for the value [n * 10^x]. *)

Lemma finalise_fin s c e :
  0 < c -> (- EXP_LIMIT <= e + digits c - 1 <= EXP_LIMIT)%Z ->
  finalise s (c, e) = Fin s c e.
Proof.
  intros Hc Hr. unfold finalise.
  destruct (N.eqb_spec c 0) as [H0|_]; [lia|].
  destruct (Z.ltb_spec EXP_LIMIT (e + digits c - 1)); [lia|].
  destruct (Z.ltb_spec (e + digits c - 1) (- EXP_LIMIT)); [lia|].
  reflexivity.
Qed.

Lemma canon_0 x : canon 0 x = Fin false 0 0.
Proof. reflexivity. Qed.

Lemma canon_fin n x :
  0 < n -> (- EXP_LIMIT <= x + digits n - 1 <= EXP_LIMIT)%Z ->
  canon n x = Fin false (fst (strip n x)) (snd (strip n x)).
Proof.
  intros Hn Hr. unfold canon.
  rewrite (surjective_pairing (strip n x)) at 1.
  apply finalise_fin; [apply strip_fst_pos; assumption|].
  pose proof (strip_lead n x Hn). lia.
Qed.

Lemma canon_scale n j x : (0 <= j)%Z -> canon (n * pow10 j) x = canon n (x + j).
Proof. intros Hj. unfold canon. rewrite strip_scale by assumption. reflexivity. Qed.

Lemma digits_small n K : (0 <= K)%Z -> n < pow10 K -> (0 <= digits n <= K)%Z.
Proof.
  intros HK Hn. split; [|apply digits_bound; assumption].
  destruct (N.eq_0_gt_0_cases n) as [->|Hp].
  - unfold digits. rewrite digits_aux_0. lia.
  - destruct (digits_spec n Hp). lia.
Qed.

Lemma dmul_canon n1 x1 n2 x2 :
  n1 < pow10 1000 -> n2 < pow10 1000 ->
  (-1000 <= x1 <= 1000)%Z -> (-1000 <= x2 <= 1000)%Z ->
  fits (n1 * n2) = true ->
  dmul (canon n1 x1) (canon n2 x2) = canon (n1 * n2) (x1 + x2).
Proof.
  intros B1 B2 X1 X2 Hf.
  pose proof (digits_small n1 1000 ltac:(lia) B1) as D1.
  pose proof (digits_small n2 1000 ltac:(lia) B2) as D2.
  destruct (N.eq_0_gt_0_cases n2) as [->|H2].
  { rewrite N.mul_0_r, !canon_0.
    destruct (N.eq_0_gt_0_cases n1) as [->|H1]; [reflexivity|].
    rewrite (canon_fin n1 x1) by (assumption || unfold EXP_LIMIT; lia).
    cbn. rewrite orb_true_r. reflexivity. }
  rewrite (canon_fin n2 x2) by (assumption || unfold EXP_LIMIT; lia).
  destruct (N.eq_0_gt_0_cases n1) as [->|H1].
  { rewrite N.mul_0_l, !canon_0. reflexivity. }
  rewrite (canon_fin n1 x1) by (assumption || unfold EXP_LIMIT; lia).
  destruct (strip_value n1 x1 H1) as (L1 & P1 & V1).
  destruct (strip_value n2 x2 H2) as (L2 & P2 & V2).
  set (c1 := fst (strip n1 x1)) in *. set (e1 := snd (strip n1 x1)) in *.
  set (c2 := fst (strip n2 x2)) in *. set (e2 := snd (strip n2 x2)) in *.
  clearbody c1 e1 c2 e2.
  assert (E : n1 * n2 = c1 * c2 * pow10 ((e1 - x1) + (e2 - x2))).
  { rewrite pow10_add by lia. rewrite V1 at 1. rewrite V2 at 1. lia. }
  unfold dmul.
  destruct (N.eqb_spec c1 0) as [Z1|_]; [lia|].
  destruct (N.eqb_spec c2 0) as [Z2|_]; [lia|].
  cbn [orb xorb].
  change 1 with (pow10 0).
  rewrite round_sig_exact; [| nia | | lia].
  - unfold canon. rewrite E, strip_scale by lia. do 2 f_equal. lia.
  - rewrite E, fits_scale in Hf by lia. exact Hf.
Qed.

Lemma dadd_canon n1 n2 x :
  0 < n1 -> n1 < pow10 1000 -> n2 < pow10 1000 -> (-1000 <= x <= 0)%Z ->
  fits (n1 + n2) = true ->
  dadd (canon n1 x) (canon n2 x) = canon (n1 + n2) x.
Proof.
  intros H1 B1 B2 X Hf.
  pose proof (digits_small n1 1000 ltac:(lia) B1) as D1.
  pose proof (digits_small n2 1000 ltac:(lia) B2) as D2.
  rewrite (canon_fin n1 x) by (assumption || unfold EXP_LIMIT; lia).
  destruct (strip_value n1 x H1) as (L1 & P1 & V1).
  set (c1 := fst (strip n1 x)) in *. set (e1 := snd (strip n1 x)) in *.
  clearbody c1 e1.
  assert (Hrep : exists c2 e2, canon n2 x = Fin false c2 e2 /\ (x <= e2)%Z /\
                               n2 = c2 * pow10 (e2 - x)).
  { destruct (N.eq_0_gt_0_cases n2) as [->|H2].
    - exists 0, 0%Z. rewrite canon_0. repeat split; lia.
    - exists (fst (strip n2 x)), (snd (strip n2 x)).
      rewrite (canon_fin n2 x) by (assumption || unfold EXP_LIMIT; lia).
      destruct (strip_value n2 x H2) as (L2 & P2 & V2). repeat split; assumption. }
  destruct Hrep as (c2 & e2 & -> & L2 & V2).
  unfold dadd, align. cbn [Bool.eqb].
  set (e := Z.min e1 e2).
  assert (E1 : n1 = c1 * pow10 (e1 - e) * pow10 (e - x)).
  { rewrite <- N.mul_assoc, <- pow10_add by lia.
    replace (e1 - e + (e - x))%Z with (e1 - x)%Z by lia. exact V1. }
  assert (E2 : n2 = c2 * pow10 (e2 - e) * pow10 (e - x)).
  { rewrite <- N.mul_assoc, <- pow10_add by lia.
    replace (e2 - e + (e - x))%Z with (e2 - x)%Z by lia. exact V2. }
  set (a1 := c1 * pow10 (e1 - e)) in *. set (a2 := c2 * pow10 (e2 - e)) in *.
  assert (E : n1 + n2 = (a1 + a2) * pow10 (e - x)) by lia.
  assert (0 < a1) by (pose proof (pow10_pos (e1 - e)); nia).
  change 1 with (pow10 0).
  rewrite round_sig_exact; [| lia | | lia].
  - unfold canon. rewrite E, strip_scale by lia. do 2 f_equal; lia.
  - rewrite E, fits_scale in Hf by lia. exact Hf.
Qed.

Lemma round_sig_pos a b :
  0 < a -> 0 < b ->
  0 < fst (round_sig a b 0) /\
  (- digits b - 21 <= snd (round_sig a b 0) + digits (fst (round_sig a b 0)) - 1
   <= digits a + 1)%Z.
Proof.
  intros Ha Hb. unfold round_sig. destruct (N.eqb_spec a 0) as [H0|_]; [lia|].
  destruct (quotient_digits a b Ha Hb) as (Hup & Hlo). cbv zeta in Hup, Hlo.
  destruct (digits_spec a Ha) as (Hda & _). destruct (digits_spec b Hb) as (Hdb & _).
  set (k := if a * pow10 (- (digits a - digits b)) <? b * pow10 (digits a - digits b)
            then (digits a - digits b)%Z else (digits a - digits b + 1)%Z) in *.
  assert (Hk : (digits a - digits b <= k <= digits a - digits b + 1)%Z).
  { subst k. destruct (_ <? _); lia. }
  clearbody k. unfold precision. rewrite Z.add_0_r.
  set (num := a * pow10 (- (k - 20))). set (den := b * pow10 (k - 20)).
  assert (Hden : 0 < den) by (subst den; pose proof (pow10_pos (k - 20)); nia).
  assert (Hlo' : pow10 19 * den <= num).
  { subst num den. destruct (Z.le_gt_cases k 1) as [Hc|Hc].
    - rewrite (pow10_nonpos (k - 20)), (pow10_nonpos (k - 1)) in * by lia.
      replace (- (k - 20))%Z with (19 + (1 - k))%Z by lia.
      rewrite pow10_add by lia.
      set (P := pow10 (1 - k)) in *. clearbody P. change (pow10 19) with 10000000000000000000.
      pose proof (pow10_pos 19). nia.
    - rewrite (pow10_nonpos (1 - k)) in Hlo by lia. rewrite N.mul_1_r in Hlo.
      destruct (Z.le_gt_cases k 20) as [Hc2|Hc2].
      + rewrite (pow10_nonpos (k - 20)) by lia. rewrite N.mul_1_r.
        assert (E19 : pow10 19 = pow10 (k - 1) * pow10 (- (k - 20))).
        { rewrite <- pow10_add by lia. f_equal; lia. }
        rewrite E19.
        set (q := pow10 (k - 1)) in *. set (P := pow10 (- (k - 20))) in *.
        clearbody q P. nia.
      + rewrite (pow10_nonpos (- (k - 20))) by lia. rewrite N.mul_1_r.
        assert (Ek : pow10 (k - 1) = pow10 19 * pow10 (k - 20)).
        { rewrite <- pow10_add by lia. f_equal; lia. }
        rewrite Ek in Hlo. lia. }
  assert (Hup' : num < pow10 20 * den).
  { subst num den. destruct (Z.le_gt_cases k 0) as [Hc|Hc].
    - rewrite (pow10_nonpos k) in Hup by lia. rewrite N.mul_1_r in Hup.
      rewrite (pow10_nonpos (k - 20)) by lia. rewrite N.mul_1_r.
      replace (- (k - 20))%Z with (- k + 20)%Z by lia.
      rewrite pow10_add by lia.
      set (P := pow10 (- k)) in *. clearbody P.
      pose proof (pow10_pos 20). set (T := pow10 20) in *. clearbody T. nia.
    - rewrite (pow10_nonpos (- k)) in Hup by lia. rewrite N.mul_1_r in Hup.
      destruct (Z.le_gt_cases k 20) as [Hc2|Hc2].
      + rewrite (pow10_nonpos (k - 20)) by lia. rewrite N.mul_1_r.
        assert (E20 : pow10 20 = pow10 k * pow10 (- (k - 20))).
        { rewrite <- pow10_add by lia. f_equal; lia. }
        rewrite E20. pose proof (pow10_pos (- (k - 20))).
        set (q := pow10 k) in *. set (P := pow10 (- (k - 20))) in *.
        clearbody q P. nia.
      + rewrite (pow10_nonpos (- (k - 20))) by lia. rewrite N.mul_1_r.
        assert (Ek : pow10 k = pow10 20 * pow10 (k - 20)).
        { rewrite <- pow10_add by lia. f_equal; lia. }
        rewrite Ek in Hup. lia. }
  set (m := (2 * num + den) / (2 * den)).
  assert (Hm : pow10 19 <= m < pow10 21).
  { pose proof (N.Div0.div_mod (2 * num + den) (2 * den)) as E.
    pose proof (N.mod_lt (2 * num + den) (2 * den) ltac:(lia)) as E2.
    fold m in E. set (rr := (2 * num + den) mod (2 * den)) in *.
    clearbody rr m num den.
    change (pow10 19) with 10000000000000000000 in *.
    change (pow10 20) with 100000000000000000000 in *.
    change (pow10 21) with 1000000000000000000000. nia. }
  clearbody m.
  assert (Hmp : 0 < m) by (change (pow10 19) with 10000000000000000000 in Hm; lia).
  split; [apply strip_fst_pos; assumption|].
  rewrite strip_lead by assumption.
  assert (digits m = 20 \/ digits m = 21)%Z as Hdm.
  { destruct Hm as (Hm1 & Hm2).
    destruct (N.lt_ge_cases m (pow10 20)).
    - left. apply digits_unique; [split; assumption | assumption].
    - right. apply digits_unique; [split; assumption | assumption]. }
  lia.
Qed.

Lemma digits_le a b : 0 < a -> a <= b -> (digits a <= digits b)%Z.
Proof.
  intros Ha Hab.
  destruct (digits_spec a Ha) as (H1 & Hl & Hh).
  destruct (digits_spec b ltac:(lia)) as (H2 & Hl2 & Hh2).
  destruct (Z.le_gt_cases (digits a) (digits b)); [assumption|].
  pose proof (pow10_le (digits b) (digits a - 1) ltac:(lia)). lia.
Qed.

Lemma floor_ddiv_canon n1 n2 x a' b' :
  0 < n2 -> n1 < pow10 1000 -> n2 < pow10 1000 -> (-1000 <= x <= 1000)%Z ->
  0 < b' -> n1 * b' = a' * n2 ->
  a' < 2 * pow10 19 -> b' < 2 * pow10 20 ->
  floor (ddiv (canon n1 x) (canon n2 x)) = ofN (a' / b').
Proof.
  intros H2 B1 B2 X Hb' Hx Ha' Hbb.
  pose proof (digits_small n1 1000 ltac:(lia) B1) as D1.
  pose proof (digits_small n2 1000 ltac:(lia) B2) as D2.
  rewrite (canon_fin n2 x) by (assumption || unfold EXP_LIMIT; lia).
  destruct (strip_value n2 x H2) as (L2 & P2 & V2).
  set (c2 := fst (strip n2 x)) in *. set (e2 := snd (strip n2 x)) in *.
  clearbody c2 e2.
  destruct (N.eq_0_gt_0_cases n1) as [->|H1].
  { rewrite canon_0. unfold ddiv.
    destruct (N.eqb_spec c2 0) as [Z2|_]; [lia|].
    assert (a' = 0) as -> by nia.
    rewrite N.Div0.div_0_l. reflexivity. }
  rewrite (canon_fin n1 x) by (assumption || unfold EXP_LIMIT; lia).
  destruct (strip_value n1 x H1) as (L1 & P1 & V1).
  set (c1 := fst (strip n1 x)) in *. set (e1 := snd (strip n1 x)) in *.
  clearbody c1 e1.
  unfold ddiv.
  destruct (N.eqb_spec c2 0) as [Z2|_]; [lia|].
  destruct (N.eqb_spec c1 0) as [Z1|_]; [lia|].
  cbn [xorb].
  set (A := c1 * pow10 (e1 - e2)). set (B := c2 * pow10 (e2 - e1)).
  assert (HA : 0 < A) by (subst A; pose proof (pow10_pos (e1 - e2)); nia).
  assert (HB : 0 < B) by (subst B; pose proof (pow10_pos (e2 - e1)); nia).
  assert (HAn : A <= n1).
  { subst A. rewrite V1. apply N.mul_le_mono_l. apply pow10_le. lia. }
  assert (HBn : B <= n2).
  { subst B. rewrite V2. apply N.mul_le_mono_l. apply pow10_le. lia. }
  assert (HAB : A * n2 = B * n1).
  { subst A B. rewrite V1, V2.
    destruct (Z.le_gt_cases e2 e1) as [Hc|Hc].
    - rewrite (pow10_nonpos (e2 - e1)) by lia.
      replace (e1 - x)%Z with ((e1 - e2) + (e2 - x))%Z by lia.
      rewrite pow10_add by lia. lia.
    - rewrite (pow10_nonpos (e1 - e2)) by lia.
      replace (e2 - x)%Z with ((e2 - e1) + (e1 - x))%Z by lia.
      rewrite pow10_add by lia. lia. }
  assert (Hcross : A * b' = a' * B).
  { assert (A * b' * n2 = a' * B * n2) by nia. nia. }
  pose proof (round_sig_floor A B a' b' HA HB Hb' Hcross Ha' Hbb) as Hfl.
  destruct (round_sig_pos A B HA HB) as (Hpos & Hlead).
  pose proof (digits_le A n1 HA HAn). pose proof (digits_le B n2 HB HBn).
  assert (Hidem : strip (fst (round_sig A B 0)) (snd (round_sig A B 0))
                  = round_sig A B 0).
  { unfold round_sig. destruct (A =? 0); [reflexivity|]. apply strip_idem. }
  destruct (round_sig A B 0) as [c e] eqn:Er. cbn [fst snd] in *.
  assert (Hfin : finalise false (c, e) = Fin false c e).
  { apply finalise_fin; [assumption | unfold EXP_LIMIT; lia]. }
  rewrite Hfin. unfold floor. cbn [andb].
  unfold floor_mag in Hfl. revert Hfl.
  destruct (Z.leb_spec 0 e) as [He|He]; intros Hfl.
  - unfold ofN, canon. rewrite <- Hfl.
    rewrite strip_scale by assumption.
    rewrite Z.add_0_l, Hidem. symmetry. exact Hfin.
  - rewrite Hfl. reflexivity.
Qed.

Lemma ofZ_ofN n : ofZ (Z.of_N n) = ofN n.
Proof.
  unfold ofZ, ofN, canon. rewrite Zabs2N.id.
  destruct (Z.ltb_spec (Z.of_N n) 0); [lia|reflexivity].
Qed.

Lemma regime_facts ain rin rout fee :
  exact_regime ain rin rout fee = true ->
  (0 <= fee < 10000)%Z /\ 0 < rin /\ rin < pow10 100 /\ ain < pow10 100 /\
  rout < pow10 100 /\ fits (scaled_in ain fee) = true /\
  fits (scaled_num ain rout fee) = true /\ fits (scaled_den ain rin fee) = true /\
  exists a' b', 0 < b' /\ a' < 2 * pow10 19 /\ b' < 2 * pow10 20 /\
    scaled_num ain rout fee * b' = a' * scaled_den ain rin fee /\
    a' / b' = exact_out ain rin rout fee.
Proof.
  unfold exact_regime. intros H.
  rewrite !andb_true_iff in H.
  destruct H as ((((((((((F1 & F2) & R1) & R2) & A1) & O1) & Fe) & Fn) & Fd) & G1) & G2).
  apply Z.leb_le in F1. apply Z.ltb_lt in F2.
  apply N.ltb_lt in R1, R2, A1, O1, G1, G2.
  repeat (split; [first [assumption | lia]|]).
  set (num := scaled_num ain rout fee) in *.
  set (den := scaled_den ain rin fee) in *.
  assert (Hden : 0 < den) by (unfold den, scaled_den; lia).
  destruct (N.gcd_divide_l num den) as (qn & En).
  destruct (N.gcd_divide_r num den) as (qd & Ed).
  set (g := N.gcd num den) in *.
  assert (Hg : 0 < g).
  { destruct (N.eq_0_gt_0_cases g) as [E|]; [|assumption]. rewrite E in Ed. lia. }
  assert (Eqn : num / g = qn) by (rewrite En; apply N.div_mul; lia).
  assert (Eqd : den / g = qd) by (rewrite Ed; apply N.div_mul; lia).
  rewrite Eqn in G1. rewrite Eqd in G2.
  assert (Hqd : 0 < qd).
  { destruct (N.eq_0_gt_0_cases qd) as [E|]; [|assumption]. rewrite E in Ed. lia. }
  exists qn, qd.
  split; [assumption|]. split; [assumption|]. split; [assumption|]. split.
  - rewrite En, Ed. lia.
  - unfold exact_out. fold num den. rewrite En, Ed.
    rewrite N.Div0.div_mul_cancel_r; [reflexivity | lia].
Qed.

(** In the exact regime the quote is the floor of the exact quotient. *)
Lemma getAmountOut_exact ain rin rout fee :
  exact_regime ain rin rout fee = true ->
  getAmountOut (ofN ain) (ofN rin) (ofN rout) fee
  = ofN (exact_out ain rin rout fee).
Proof.
  intros Hreg.
  destruct (regime_facts _ _ _ _ Hreg)
    as (Hfee & Hrin & Brin & Bain & Brout & Fe & Fn & Fd & a' & b' & Hb' & Ha' & Hbb & Hx & Hq).
  unfold getAmountOut.
  set (p := Z.to_N (10000 - fee)).
  assert (Hp : 0 < p <= 10000) by (unfold p; lia).
  assert (P100 : pow10 100 < pow10 1000) by (apply pow10_lt; lia).
  assert (P5 : 10000 < pow10 1000).
  { apply N.lt_trans with (pow10 100); [|assumption]. apply N.ltb_lt. reflexivity. }
  (* feeMultiplier = p / 10^4 *)
  assert (Efm : ddiv (ofZ (10000 - fee)) (ofZ 10000) = canon p (-4)).
  { replace (10000 - fee)%Z with (Z.of_N p) by (unfold p; lia).
    rewrite ofZ_ofN. change (ofZ 10000) with (Fin false 1 4).
    unfold ofN. pose proof (digits_small p 1000 ltac:(lia) ltac:(lia)) as Dp.
    rewrite (canon_fin p 0) by (unfold EXP_LIMIT; lia).
    destruct (strip_value p 0 ltac:(lia)) as (Lp & Pp & Vp).
    pose proof (strip_lead p 0 ltac:(lia)) as Hl.
    assert (digits p <= 5)%Z.
    { apply digits_bound; [lia|]. change (pow10 5) with 100000. lia. }
    destruct (digits_spec _ Pp) as (Hdc & _).
    pose proof (strip_fst_le p 0) as Hcle.
    set (c := fst (strip p 0)) in *. set (e := snd (strip p 0)) in *.
    clearbody c e.
    unfold ddiv. change (1 =? 0) with false. cbv iota.
    destruct (N.eqb_spec c 0) as [Zc|_]; [lia|]. cbn [xorb].
    rewrite (pow10_nonpos (e - 4)) by lia. rewrite N.mul_1_r, N.mul_1_l.
    rewrite round_sig_exact; [| assumption | | lia].
    - unfold canon. rewrite Vp. rewrite (strip_scale c) by lia.
      do 2 f_equal; lia.
    - apply fits_small.
      apply N.le_lt_trans with 10000; [lia|]. apply N.ltb_lt. reflexivity. }
  rewrite Efm.
  (* effectiveIn = ain * p / 10^4 *)
  assert (Eeff : dmul (ofN ain) (canon p (-4)) = canon (scaled_in ain fee) (-4)).
  { unfold ofN. rewrite dmul_canon; try lia; [reflexivity | exact Fe]. }
  rewrite Eeff.
  assert (Bsi : scaled_in ain fee < pow10 1000).
  { unfold scaled_in. fold p.
    apply N.lt_le_trans with (pow10 100 * pow10 100).
    - apply N.mul_lt_mono; [assumption|].
      apply N.le_lt_trans with 10000; [lia| apply N.ltb_lt; reflexivity].
    - rewrite <- pow10_add by lia. apply pow10_le. lia. }
  (* numerator *)
  assert (Enum : dmul (canon (scaled_in ain fee) (-4)) (ofN rout)
                 = canon (scaled_num ain rout fee) (-4)).
  { unfold ofN. rewrite dmul_canon; try lia; [reflexivity | exact Fn]. }
  rewrite Enum.
  (* denominator *)
  assert (Eden : dadd (ofN rin) (canon (scaled_in ain fee) (-4))
                 = canon (scaled_den ain rin fee) (-4)).
  { unfold ofN. replace (canon rin 0) with (canon (rin * pow10 4) (-4))
      by (rewrite canon_scale by lia; reflexivity).
    rewrite dadd_canon; try lia.
    - unfold scaled_den. change (pow10 4) with 10000. f_equal. lia.
    - pose proof (pow10_pos 4). nia.
    - apply N.lt_le_trans with (pow10 100 * pow10 4).
      + apply N.mul_lt_mono_pos_r; [apply pow10_pos | assumption].
      + rewrite <- pow10_add by lia. apply pow10_le. lia.
    - unfold scaled_den in Fd. change (pow10 4) with 10000.
      replace (rin * 10000 + scaled_in ain fee)
        with (10000 * rin + scaled_in ain fee) by lia. exact Fd. }
  rewrite Eden.
  rewrite <- Hq.
  apply floor_ddiv_canon; try assumption; try lia.
  - unfold scaled_den. lia.
  - unfold scaled_num.
    apply N.lt_le_trans with (pow10 400 * pow10 100).
    + apply N.mul_lt_mono; [|assumption].
      unfold scaled_in. fold p.
      apply N.lt_le_trans with (pow10 100 * pow10 100).
      * apply N.mul_lt_mono; [assumption|].
        apply N.le_lt_trans with 10000; [lia| apply N.ltb_lt; reflexivity].
      * rewrite <- pow10_add by lia. apply pow10_le. lia.
    + rewrite <- pow10_add by lia. apply pow10_le. lia.
  - unfold scaled_den.
    apply N.lt_le_trans with (pow10 104 + pow10 200).
    + apply N.add_lt_mono.
      * change 10000 with (pow10 4). replace 104%Z with (4 + 100)%Z by lia.
        rewrite pow10_add by lia.
        apply N.mul_lt_mono_pos_l; [apply pow10_pos | assumption].
      * unfold scaled_in. fold p.
        apply N.lt_le_trans with (pow10 100 * pow10 100).
        -- apply N.mul_lt_mono; [assumption|].
           apply N.le_lt_trans with 10000; [lia| apply N.ltb_lt; reflexivity].
        -- rewrite <- pow10_add by lia. apply pow10_le. lia.
    + pose proof (pow10_le 104 200 ltac:(lia)).
      assert (pow10 200 + pow10 200 <= pow10 1000).
      { replace 1000%Z with (200 + 800)%Z by lia. rewrite pow10_add by lia.
        pose proof (pow10_le 1 800 ltac:(lia)). change (pow10 1) with 10 in H0.
        pose proof (pow10_pos 200). nia. }
      lia.
Qed.

Lemma canon_rep n x :
  n < pow10 1000 -> (-1000 <= x <= 0)%Z ->
  exists c e, canon n x = Fin false c e /\ (x <= e)%Z /\ n = c * pow10 (e - x).
Proof.
  intros B X. pose proof (digits_small n 1000 ltac:(lia) B) as D.
  destruct (N.eq_0_gt_0_cases n) as [->|Hn].
  - exists 0, 0%Z. rewrite canon_0. repeat split; lia.
  - exists (fst (strip n x)), (snd (strip n x)).
    rewrite (canon_fin n x) by (assumption || unfold EXP_LIMIT; lia).
    destruct (strip_value n x Hn) as (L & P & V). repeat split; assumption.
Qed.

Lemma dcompare_ofN a b :
  a < pow10 1000 -> b < pow10 1000 ->
  dcompare (ofN a) (ofN b) = Some (a ?= b).
Proof.
  intros Ba Bb. unfold ofN.
  destruct (canon_rep a 0 Ba ltac:(lia)) as (c1 & e1 & -> & L1 & V1).
  destruct (canon_rep b 0 Bb ltac:(lia)) as (c2 & e2 & -> & L2 & V2).
  unfold dcompare, align. f_equal.
  rewrite <- N2Z.inj_compare.
  set (e := Z.min e1 e2).
  assert (E1 : a = c1 * pow10 (e1 - e) * pow10 e).
  { rewrite <- N.mul_assoc, <- pow10_add by lia.
    replace (e1 - e + e)%Z with (e1 - 0)%Z by lia. exact V1. }
  assert (E2 : b = c2 * pow10 (e2 - e) * pow10 e).
  { rewrite <- N.mul_assoc, <- pow10_add by lia.
    replace (e2 - e + e)%Z with (e2 - 0)%Z by lia. exact V2. }
  pose proof (pow10_pos e) as HP.
  set (a1 := c1 * pow10 (e1 - e)) in *. set (a2 := c2 * pow10 (e2 - e)) in *.
  set (P := pow10 e) in *. clearbody a1 a2 P.
  assert (M1 : a1 < a2 -> a < b).
  { intros Hc. rewrite E1, E2. apply N.mul_lt_mono_pos_r; assumption. }
  assert (M2 : a2 < a1 -> b < a).
  { intros Hc. rewrite E1, E2. apply N.mul_lt_mono_pos_r; assumption. }
  assert (M3 : a1 = a2 -> a = b) by (intros ->; lia).
  destruct (Z.compare_spec (Z.of_N a1) (Z.of_N a2)) as [Hc|Hc|Hc];
    destruct (Z.compare_spec (Z.of_N a) (Z.of_N b)) as [Hd|Hd|Hd];
    try reflexivity; exfalso; lia.
Qed.


Lemma lte_ofN a b :
  a < pow10 1000 -> b < pow10 1000 -> lte (ofN a) (ofN b) = (a <=? b).
Proof.
  intros Ba Bb. unfold lte. rewrite dcompare_ofN by assumption.
  unfold N.leb. destruct (a ?= b); reflexivity.
Qed.

End DecFacts.

(** * The specification's formula and its integer form *)

Lemma spec_amount_out_exact ain rin rout fee :
  (fee <= 10000)%Z -> (0 < scaled_den ain rin fee)%N ->
  spec_amount_out ain rin rout fee = Z.of_N (exact_out ain rin rout fee).
Proof.
  intros Hfee Hden. unfold spec_amount_out, exact_out.
  rewrite N2Z.inj_div, Zdiv_Qdiv.
  apply Qfloor_comp.
  unfold scaled_num, scaled_den, scaled_in in *.
  rewrite !N2Z.inj_add, !N2Z.inj_mul, Z2N.id by lia.
  assert (Hd : (0 < Z.of_N (10000 * rin + ain * Z.to_N (10000 - fee)))%Z) by lia.
  rewrite N2Z.inj_add, !N2Z.inj_mul, Z2N.id in Hd by lia.
  change (Z.of_N 10000) with 10000%Z in *.
  set (a := Z.of_N ain) in *. set (ri := Z.of_N rin) in *.
  set (ro := Z.of_N rout) in *. set (p := (10000 - fee)%Z) in *.
  rewrite !inject_Z_plus, !inject_Z_mult.
  assert (Hq : ~ inject_Z 10000 * inject_Z ri + inject_Z a * inject_Z p == 0).
  { rewrite <- !inject_Z_mult, <- inject_Z_plus.
    change 0%Q with (inject_Z 0). rewrite inject_Z_injective. lia. }
  assert (H4 : ~ inject_Z 10000 == 0) by discriminate.
  field. exact Hq.
Qed.

Import DecFacts.
Local Open Scope Z_scope.

Lemma regime_bounds ain rin rout fee :
  exact_regime ain rin rout fee = true ->
  (0 <= fee < 10000)%Z /\ (0 < rin)%N /\
  (ain < pow10 1000)%N /\ (rout < pow10 1000)%N /\
  (exact_out ain rin rout fee < pow10 1000)%N /\
  (0 < scaled_den ain rin fee)%N.
Proof.
  intros H.
  destruct (regime_facts _ _ _ _ H)
    as (Hfee & Hrin & Brin & Bain & Brout & _ & _ & _ & a' & b' & Hb' & Ha' & Hbb & _ & Hq).
  assert (P100 : (pow10 100 < pow10 1000)%N) by (apply pow10_lt; lia).
  assert (P19 : (2 * pow10 19 < pow10 1000)%N).
  { apply N.lt_le_trans with (pow10 20); [apply N.ltb_lt; reflexivity|].
    apply pow10_le. lia. }
  repeat split; try lia.
  - rewrite <- Hq. apply N.le_lt_trans with a'; [|lia].
    apply N.Div0.div_le_upper_bound. nia.
  - unfold scaled_den. lia.
Qed.

(** C1 (amended): in the exact regime of the 20-significant-digit decimal
    arithmetic, both copies of the constant-product quote return
    floor(effIn*reserveOut/(reserveIn+effIn)) with
    effIn = in*(10000-feeBps)/10000, computed exactly and floored once. *)
Theorem C1_constant_product_exact_floor (ain rin rout : N) (fee : Z) :
  exact_regime ain rin rout fee = true ->
  getAmountOut (ofN ain) (ofN rin) (ofN rout) fee
    = ofZ (spec_amount_out ain rin rout fee) /\
  RaydiumFetcher.getAmountOut (ofN ain) (ofN rin) (ofN rout) fee
    = ofZ (spec_amount_out ain rin rout fee).
Proof.
  intros H. destruct (regime_bounds _ _ _ _ H) as (Hfee & _ & _ & _ & _ & Hden).
  rewrite spec_amount_out_exact by (assumption || lia).
  rewrite ofZ_ofN. split; apply getAmountOut_exact; assumption.
Qed.

(** The golden vector of the specification lies in the exact regime. *)
Lemma C1_golden_vector :
  exact_regime 100000000 1000000000 50000000000 25 = true /\
  getAmountOut (ofN 100000000) (ofN 1000000000) (ofN 50000000000) 25
    = ofZ 4535121618.
Proof.
  split; [vm_compute; reflexivity|].
  rewrite (proj1 (C1_constant_product_exact_floor
                    100000000 1000000000 50000000000 25 eq_refl)).
  vm_compute. reflexivity.
Defined.

(** A 10 SOL quote on which the rounded quotient reaches the next integer. *)
Lemma C1_rounding_counterexample :
  getAmountOut (ofN 10000000000) (ofN 10242886303) (ofN 3323670454) 25
    = ofZ 1639815967 /\
  spec_amount_out 10000000000 10242886303 3323670454 25 = 1639815966 /\
  getAmountOut (ofN 10000000000) (ofN 10242886303) (ofN 3323670454) 25
    <> ofZ (spec_amount_out 10000000000 10242886303 3323670454 25).
Proof.
  split; [vm_compute; reflexivity|]. split; [vm_compute; reflexivity|].
  vm_compute. discriminate.
Qed.






Lemma getQuote_by_reserves p m a :
  quotes_by_reserves p = true ->
  outputAmount (getQuote p m a)
  = getAmountOut a (reserveIn_of p m) (reserveOut_of p m) (fee p).
Proof.
  unfold quotes_by_reserves, getQuote, reserveIn_of, reserveOut_of. cbn [outputAmount].
  destruct (usable_price (orcaApiPrice p)); [discriminate|].
  destruct (if is_concentrated (poolType p) then sqrtPriceX64 p else None);
    [discriminate|]. reflexivity.
Qed.





Lemma price_impact_unfold (p : PoolInfo) (m : PublicKey) (a : Decimal) :
  priceImpact (getQuote p m a) =
    if isZero (reserveIn_of p m) then ofZ 0
    else if isZero (ddiv (reserveOut_of p m) (reserveIn_of p m)) then ofZ 0
    else dsub (ofZ 1) (ddiv (effectivePrice (getQuote p m a))
                            (ddiv (reserveOut_of p m) (reserveIn_of p m))).
Proof.
  unfold getQuote, reserveIn_of, reserveOut_of. cbn [priceImpact effectivePrice].
  destruct (pk_equals (tokenA p) m).
  - destruct (isZero (reserveA p)); reflexivity.
  - destruct (isZero (reserveB p)); reflexivity.
Qed.

(** C6 (amended): the price impact is 1 - realizedRate/idealRate with
    idealRate = reserveOut/reserveIn, and it is 0 whenever that ideal rate is
    undefined (reserveIn = 0) or zero (reserveOut = 0). *)
Theorem C6_price_impact (p : PoolInfo) (m : PublicKey) (a : Decimal) :
  let q := getQuote p m a in
  let idealRate := ddiv (reserveOut_of p m) (reserveIn_of p m) in
  priceImpact q =
    if isZero (reserveIn_of p m) then ofZ 0
    else if isZero idealRate then ofZ 0
    else dsub (ofZ 1) (ddiv (effectivePrice q) idealRate).
Proof. cbv zeta. apply price_impact_unfold. Qed.

(** With reserveIn = 1 and reserveOut = 0 the formula of the claim is
    1 - 0/0, not a number, while the quote reports 0. *)
Lemma C6_counterexample :
  let p := sample_pool 1 0 25 in
  let q := getQuote p (tokenA p) (ofZ 1) in
  isZero (reserveIn_of p (tokenA p)) = false /\
  priceImpact q = ofZ 0 /\
  dsub (ofZ 1)
       (ddiv (effectivePrice q) (ddiv (reserveOut_of p (tokenA p)) (reserveIn_of p (tokenA p))))
    = NaN.
Proof. repeat split; vm_compute; reflexivity. Qed.

(** C2 (amended): quoting never yields a typed error.  Every pool, also one
    with zero reserves or without a dedicated price source, gets an ordinary
    quote: without a usable API or square-root price the constant-product
    formula on the reserves is the price source, and with reserveIn = 0 the
    price impact is reported as 0. *)
Theorem C2_quote_is_total (p : PoolInfo) (m : PublicKey) (a : Decimal) :
  exists q, getQuote_outcome p m a = Quoted q /\
    (quotes_by_reserves p = true ->
     outputAmount q = getAmountOut a (reserveIn_of p m) (reserveOut_of p m) (fee p)) /\
    (isZero (reserveIn_of p m) = true -> priceImpact q = ofZ 0).
Proof.
  exists (getQuote p m a). split; [reflexivity|]. split.
  - apply getQuote_by_reserves.
  - intros Hz. rewrite (price_impact_unfold p m a), Hz. reflexivity.
Qed.

Lemma C2_quote_is_total_witness :
  exists q, getQuote_outcome (sample_pool 0 0 25) 11%N (ofZ 1) = Quoted q /\
    outputAmount q = ofZ 0 /\ priceImpact q = ofZ 0.
Proof.
  destruct (C2_quote_is_total (sample_pool 0 0 25) 11%N (ofZ 1)) as (q & Hq & Ho & Hi).
  exists q. split; [exact Hq|]. split.
  - rewrite Ho by (vm_compute; reflexivity). vm_compute. reflexivity.
  - apply Hi. vm_compute. reflexivity.
Defined.

(** A pool whose reserves are both zero is quoted like any other. *)
Lemma C2_counterexample :
  getQuote_outcome (sample_pool 0 0 25) 11%N (ofZ 1) <> QuoteFailed InvalidPool /\
  outputAmount (getQuote (sample_pool 0 0 25) 11%N (ofZ 1)) = ofZ 0.
Proof. split; [discriminate | vm_compute; reflexivity]. Qed.

(** C5 (amended): a buy applies the 1% fee to the SOL input and then the
    virtual-reserve formula; a sell applies the formula to the raw token
    input and takes the 1% fee from the SOL output. *)
Theorem C5_bonding_curve_quotes (curve : BondingCurveData) (amountIn : Z) :
  getBuyQuote curve amountIn
    = curve_formula (virtualSolReserves curve) (virtualTokenReserves curve)
                    (after_fee amountIn) /\
  getSellQuote curve amountIn
    = option_map after_fee
        (curve_formula (virtualTokenReserves curve) (virtualSolReserves curve)
                       amountIn).
Proof.
  unfold getBuyQuote, getSellQuote, curve_formula, after_fee. split.
  - rewrite (Z.mul_comm (virtualSolReserves curve)). reflexivity.
  - destruct (bigint_div _ _); reflexivity.
Qed.

(** A sell of 1000 tokens on virtual reserves 1000/1000 pays 495; with the
    fee applied to the input first it would pay 498. *)
Lemma C5_counterexample :
  let curve := {| virtualTokenReserves := 1000; virtualSolReserves := 1000;
                  realTokenReserves := 1000; realSolReserves := 1000;
                  tokenTotalSupply := 1000; complete := false |} in
  getSellQuote curve 1000 = Some 495 /\
  curve_formula (virtualTokenReserves curve) (virtualSolReserves curve)
                (after_fee 1000) = Some 498.
Proof. split; reflexivity. Qed.

(** * The executor *)

Local Open Scope string_scope.
Local Open Scope list_scope.
Local Open Scope Z_scope.
Local Open Scope async_scope.

Lemma PrepOnly_bind {A B} (m : Async A) (f : A -> Async B) :
  PrepOnly m -> (forall a, PrepOnly (f a)) -> PrepOnly (bind m f).
Proof.
  intros Hm Hf. induction Hm as [r | X e k He Hk IH].
  - destruct r; cbn; [apply Hf | constructor].
  - cbn. constructor; assumption.
Qed.

Lemma PrepOnly_await {X} (e : Event (Rpc X)) : is_prep e = true -> PrepOnly (await e).
Proof. intros H. constructor; [assumption|]. intros [x|r]; constructor. Qed.

Lemma PrepOnly_log m : is_arb_log m = false -> PrepOnly (log m).
Proof.
  intros H. constructor; [cbn; rewrite H; reflexivity|]. intros x. constructor.
Qed.

Lemma PrepOnly_orThrow {A} (o : option A) msg : PrepOnly (orThrow o msg).
Proof. destruct o; constructor. Qed.

Lemma PrepOnly_ret {A} (a : A) : PrepOnly (ret a).
Proof. constructor. Qed.

Lemma PrepOnly_throw {A} msg : PrepOnly (@throw A msg).
Proof. constructor. Qed.

Create HintDb prep.
#[export] Hint Resolve PrepOnly_ret PrepOnly_throw PrepOnly_orThrow : prep.
#[export] Hint Extern 1 (PrepOnly (await _)) =>
  apply PrepOnly_await; reflexivity : prep.
#[export] Hint Extern 1 (PrepOnly (log _)) =>
  apply PrepOnly_log; reflexivity : prep.
#[export] Hint Extern 2 (PrepOnly (bind _ _)) =>
  apply PrepOnly_bind; [|intros ?] : prep.
#[export] Hint Extern 3 (PrepOnly (if ?b then _ else _)) => destruct b : prep.
#[export] Hint Extern 3 (PrepOnly (match ?x with Some _ => _ | None => _ end)) =>
  destruct x : prep.

Section WithLibraries.

Context (L : Web3) (cfg : Config).

Lemma PrepOnly_ata mint owner : PrepOnly (ata L mint owner).
Proof. unfold ata. auto with prep. Qed.

Lemma PrepOnly_ensureAtas pairs : forall tx, PrepOnly (ensureAtas cfg pairs tx).
Proof.
  induction pairs as [|[mint a] rest IH]; intros tx; cbn [ensureAtas].
  - auto with prep.
  - apply PrepOnly_bind; [auto with prep|]. intros info. apply IH.
Qed.

Lemma PrepOnly_wrapSol amount account tx : PrepOnly (wrapSol cfg amount account tx).
Proof. unfold wrapSol. auto with prep. Qed.

Lemma Leg_bind {A} (m : Async A) (f : A -> Async (option string)) :
  PrepOnly m -> (forall a, Leg cfg (f a)) -> Leg cfg (bind m f).
Proof.
  intros Hm Hf. induction Hm as [r | X e k He Hk IH].
  - destruct r; cbn; [apply Hf | constructor].
  - cbn. apply Leg_prep; assumption.
Qed.

Ltac leg :=
  repeat first
    [ apply Leg_closing
    | apply Leg_null
    | apply Leg_bind;
      [ first [ apply PrepOnly_ata | apply PrepOnly_ensureAtas
              | apply PrepOnly_wrapSol | solve [auto 8 with prep] ]
      | intros ? ]
    | match goal with
      | |- Leg _ (match ?x with Some _ => _ | None => _ end) => destruct x
      | |- Leg _ (if ?b then _ else _) => destruct b
      end ].

Hint Resolve PrepOnly_ata PrepOnly_ensureAtas PrepOnly_wrapSol : prep.

Lemma Leg_swapViaRaydiumRaw i o a p : Leg cfg (swapViaRaydiumRaw L cfg i o a p).
Proof. unfold swapViaRaydiumRaw. cbv zeta. leg. Qed.

Lemma Leg_swapViaCpmm i o a p : Leg cfg (swapViaCpmm L cfg i o a p).
Proof. unfold swapViaCpmm. cbv zeta. leg. Qed.

Lemma Leg_swapViaOrca i o a p : Leg cfg (swapViaOrca L cfg i o a p).
Proof. unfold swapViaOrca. cbv zeta. leg. Qed.

Lemma Leg_swapViaPumpFun i o a p : Leg cfg (swapViaPumpFun L cfg i o a p).
Proof. unfold swapViaPumpFun. cbv zeta. leg. Qed.

Lemma Leg_swapViaPumpSwap i o a p : Leg cfg (swapViaPumpSwap L cfg i o a p).
Proof. unfold swapViaPumpSwap. cbv zeta. leg. Qed.

Lemma run_closing w v tail tx h :
  LegRun (submissions (snd (run w (simulateSignSend cfg v tail tx) h)))
         (fst (run w (simulateSignSend cfg v tail tx) h)) /\
  arb_marks (snd (run w (simulateSignSend cfg v tail tx) h)) = [].
Proof.
  unfold simulateSignSend, sendAndConfirm, logSimLogs, await, log, perform.
  cbn -[submissions arb_marks].
  destruct (w _ h GetLatestBlockhash) as [bh|e]; cbn; [|split; [constructor|reflexivity]].
  match goal with |- context [w _ ?hh (SimulateTransaction ?t)] =>
    destruct (w _ hh (SimulateTransaction t)) as [r|e] eqn:Es end;
    cbn; [|split; [constructor|reflexivity]].
  destruct (sim_err r) as [err|] eqn:Eerr; cbn.
  - destruct (sim_logs r) as [lines|]; cbn;
      (split; [eapply LR_simulation_error; eassumption | reflexivity]).
  - match goal with |- context [w _ ?hh (SignAndSerialize ?t)] =>
      destruct (w _ hh (SignAndSerialize t)) as [raw|e] end;
      cbn; [|split; [constructor; assumption|reflexivity]].
    match goal with |- context [w _ ?hh (SendRawTransaction ?t)] =>
      destruct (w _ hh (SendRawTransaction t)) as [sig|e] end;
      cbn; [|split; [constructor; assumption|reflexivity]].
    match goal with |- context [w _ ?hh (ConfirmTransaction ?t)] =>
      destruct (w _ hh (ConfirmTransaction t)) as [[err|]|e] end;
      cbn; (split; [constructor; assumption|reflexivity]).
Qed.

Lemma run_vis {A X} w (e : Event X) (k : X -> Prog A) h :
  run w (Vis e k) h
  = (fst (run w (k (w _ h e)) (h ++ [Ev e (w _ h e)])),
     Ev e (w _ h e) :: snd (run w (k (w _ h e)) (h ++ [Ev e (w _ h e)]))).
Proof. cbn. destruct (run w (k (w X h e)) (h ++ [Ev e (w X h e)])). reflexivity. Qed.

Lemma is_prep_not_submission {X} (e : Event X) :
  is_prep e = true -> is_submission_event e = false.
Proof. destruct e; cbn; congruence. Qed.

Lemma is_prep_no_mark {X} (e : Event X) x : is_prep e = true -> arb_mark (Ev e x) = [].
Proof.
  destruct e; cbn; try reflexivity; try discriminate.
  destruct (is_arb_log m); [discriminate|reflexivity].
Qed.

Lemma Leg_run w p : Leg cfg p -> forall h,
  LegRun (submissions (snd (run w p h))) (fst (run w p h)) /\
  arb_marks (snd (run w p h)) = [].
Proof.
  induction 1 as [ | e | X e k He Hk IH | v tail tx ]; intros h.
  - split; [constructor | reflexivity].
  - split; [constructor | reflexivity].
  - rewrite run_vis. cbn [fst snd]. unfold submissions, arb_marks.
    cbn [filter flat_map is_submission]. rewrite (is_prep_not_submission e He).
    rewrite (is_prep_no_mark e _ He). apply IH.
  - apply run_closing.
Qed.

End WithLibraries.

Section MonitorFacts.

Context {S : Type} (step : S -> Entry -> S).

Lemma Sat_run {A} (Q : S -> A -> Prop) w p : forall s h,
  Sat step Q s p -> Q (fold_left step (snd (run w p h)) s) (fst (run w p h)).
Proof.
  induction p as [a | X e k IH]; intros s h H.
  - exact H.
  - rewrite run_vis. cbn [fst snd fold_left]. apply IH. apply H.
Qed.

Lemma Sat_weaken {A} (Q Q' : S -> A -> Prop) p : forall s,
  Sat step Q s p -> (forall s' a, Q s' a -> Q' s' a) -> Sat step Q' s p.
Proof.
  induction p as [a | X e k IH]; intros s H HQ; cbn in *.
  - apply HQ. exact H.
  - intros x. apply IH; [apply H | exact HQ].
Qed.

Lemma Sat_bind {A B} (Q1 : S -> Outcome A -> Prop) (Q2 : S -> Outcome B -> Prop)
  (m : Async A) (f : A -> Async B) : forall s,
  Sat step Q1 s m ->
  (forall s' a, Q1 s' (Ok a) -> Sat step Q2 s' (f a)) ->
  (forall s' e, Q1 s' (Thrown e) -> Q2 s' (Thrown e)) ->
  Sat step Q2 s (bind m f).
Proof.
  induction m as [r | X e k IH]; intros s H Hok Hth.
  - destruct r as [a|msg]; cbn in *; [apply Hok | apply Hth]; exact H.
  - cbn. intros x. apply IH; [apply H | exact Hok | exact Hth].
Qed.

Lemma Sat_try_catch {A} (Q1 Q2 : S -> Outcome A -> Prop)
  (m : Async A) (handler : string -> Async A) : forall s,
  Sat step Q1 s m ->
  (forall s' a, Q1 s' (Ok a) -> Q2 s' (Ok a)) ->
  (forall s' e, Q1 s' (Thrown e) -> Sat step Q2 s' (handler e)) ->
  Sat step Q2 s (try_catch m handler).
Proof.
  induction m as [r | X e k IH]; intros s H Hok Hth.
  - destruct r as [a|msg]; cbn in *; [apply Hok | apply Hth]; exact H.
  - cbn. intros x. apply IH; [apply H | exact Hok | exact Hth].
Qed.

Lemma Sat_any {A} (p : Prog A) : forall s, Sat step (fun _ _ => True) s p.
Proof. induction p as [a | X e k IH]; intros s; cbn; auto. Qed.

(* effects that cannot fail *)
Lemma Sat_bind_perform {X B} (Q : S -> Outcome B -> Prop) (e : Event X)
  (f : X -> Async B) s :
  (forall x, Sat step Q (step s (Ev e x)) (f x)) -> Sat step Q s (bind (perform e) f).
Proof. intros H. cbn. exact H. Qed.

Lemma Sat_bind_log {B} (Q : S -> Outcome B -> Prop) m (f : unit -> Async B) s :
  Sat step Q (step s (Ev (Log m) tt)) (f tt) -> Sat step Q s (bind (log m) f).
Proof. intros H. cbn. intros []. exact H. Qed.

Lemma Sat_bind_await {X B} (Q : S -> Outcome B -> Prop) (e : Event (Rpc X))
  (f : X -> Async B) s :
  (forall x, Sat step Q (step s (Ev e (Resolved x))) (f x)) ->
  (forall r, Q (step s (Ev e (Rejected r))) (Thrown r)) ->
  Sat step Q s (bind (await e) f).
Proof. intros H1 H2. cbn. intros [x|r]; cbn; [apply H1 | apply H2]. Qed.

Lemma Sat_bind_orThrow {A B} (Q : S -> Outcome B -> Prop) (o : option A) msg
  (f : A -> Async B) s :
  (forall a, o = Some a -> Sat step Q s (f a)) ->
  (o = None -> Q s (Thrown msg)) ->
  Sat step Q s (bind (orThrow o msg) f).
Proof. intros H1 H2. destruct o; cbn; [apply H1 | apply H2]; reflexivity. Qed.

End MonitorFacts.

Lemma leg_post_refl v : leg_post v v.
Proof. unfold leg_post. repeat split; lia. Qed.

Lemma observe_prep {X} (e : Event X) x v :
  is_prep e = true -> observe_step v (Ev e x) = v.
Proof.
  intros H. unfold observe_step. rewrite (is_prep_no_mark e x H), app_nil_r.
  destruct v as [m s t]. destruct e; cbn in *; try discriminate; reflexivity.
Qed.

Ltac leg_post_tac :=
  unfold leg_post; cbn; rewrite ?app_nil_r; repeat split; first [lia | reflexivity].

Section WithLibraries.

Context (L : Web3) (cfg : Config).

Lemma closing_post v0 venue tail tx :
  Sat observe_step (fun v' (_ : Outcome (option string)) => leg_post v0 v') v0
      (simulateSignSend cfg venue tail tx).
Proof.
  unfold simulateSignSend, sendAndConfirm, logSimLogs, await, log, perform.
  cbn. intros [bh|e]; cbn; [|leg_post_tac].
  intros [r|e]; cbn; [|leg_post_tac].
  destruct (sim_err r) as [err|]; cbn.
  - intros []. destruct (sim_logs r); cbn.
    + intros []. leg_post_tac.
    + leg_post_tac.
  - intros [raw|e]; cbn; [|leg_post_tac].
    intros [sig|e]; cbn; [|leg_post_tac].
    intros []. cbn.
    intros [[err|]|e]; cbn; try intros []; leg_post_tac.
Qed.

Lemma Leg_post p : Leg cfg p -> forall v,
  Sat observe_step (fun v' _ => leg_post v v') v p.
Proof.
  induction 1 as [ | e | X e k He Hk IH | venue tail tx ]; intros v.
  - cbn. apply leg_post_refl.
  - cbn. apply leg_post_refl.
  - cbn. intros x. rewrite (observe_prep e x v He). apply IH.
  - apply closing_post.
Qed.

Lemma Leg_executeBuyLeg mint a p : Leg cfg (executeBuyLeg L cfg mint a p).
Proof.
  unfold executeBuyLeg. destruct (dex p); [destruct (poolType p)| | |];
    first [ apply Leg_swapViaRaydiumRaw | apply Leg_swapViaCpmm
          | apply Leg_swapViaOrca | apply Leg_swapViaPumpFun
          | apply Leg_swapViaPumpSwap ].
Qed.

Lemma Leg_executeSellLeg mint a p : Leg cfg (executeSellLeg L cfg mint a p).
Proof.
  unfold executeSellLeg. destruct (dex p); [destruct (poolType p)| | |];
    first [ apply Leg_swapViaRaydiumRaw | apply Leg_swapViaCpmm
          | apply Leg_swapViaOrca | apply Leg_swapViaPumpFun
          | apply Leg_swapViaPumpSwap ].
Qed.

Ltac view_simpl :=
  cbn [observe_step marks simulated sent arb_mark is_simulation is_send
       is_arb_log app] in *;
  rewrite ?app_nil_r in *.

Ltac arb_leaf :=
  unfold ret, throw; cbn [Sat]; unfold arb_post; view_simpl;
  repeat match goal with
         | H : leg_post _ _ |- _ =>
             let Hm := fresh "Hm" in destruct H as (Hm & ? & ?);
             view_simpl; rewrite ?Hm in *; view_simpl
         end;
  eexists; split; [ solve [ econstructor; eassumption | econstructor ] | split; lia ].

Lemma executeArb_paths this opp :
  Sat observe_step (arb_post this opp)
      {| marks := []; simulated := 0; sent := 0 |} (executeArb L cfg this opp).
Proof.
  unfold executeArb. cbv zeta.
  apply Sat_bind_log.
  eapply Sat_bind; [apply Leg_post, Leg_executeBuyLeg | | ].
  2: { intros v1 e H1. arb_leaf. }
  intros v1 sig1 H1.
  destruct (truthy sig1) as [s1|].
  2: { apply Sat_bind_log. arb_leaf. }
  apply Sat_bind_log.
  apply Sat_bind_orThrow; [intros tokenAta _ | intros _; arb_leaf].
  apply Sat_bind_perform. intros [].
  apply Sat_bind_await; [intros tokenBal | intros r; arb_leaf].
  apply Sat_bind_log.
  destruct (parses_to_zero (amount tokenBal)).
  { apply Sat_bind_log. arb_leaf. }
  apply Sat_bind_log.
  eapply Sat_bind; [apply Leg_post, Leg_executeSellLeg | | ].
  2: { intros v2 e H2. arb_leaf. }
  intros v2 sig2 H2.
  destruct (truthy sig2) as [s2|].
  { apply Sat_bind_log. apply Sat_bind_log. arb_leaf. }
  apply Sat_bind_log.
  apply Sat_bind_await; [intros tokenBal2 | intros r; arb_leaf].
  destruct (parses_positive (amount tokenBal2)).
  2: { cbn [bind ret]. arb_leaf. }
  destruct (same_object (sellPool opp) (buyPool opp)) eqn:Esame; cbn [negb].
  { cbn [bind ret]. arb_leaf. }
  eapply Sat_bind with
    (Q1 := fun v (r : Outcome unit) =>
             exists v3, leg_post (observe_step (observe_step
                          (observe_step v2 (Ev (Log LLeg2Failed) tt))
                          (Ev (GetTokenAccountBalance tokenAta) (Resolved tokenBal2)))
                          (Ev (Log (LFallbackVia (dex (buyPool opp)))) tt)) v3 /\
               (v = v3 \/ exists s3, v = observe_step v3 (Ev (Log (LFallback s3)) tt)
                                     /\ r = Ok tt)).
  - apply Sat_bind_log.
    eapply Sat_bind; [apply Leg_post, Leg_executeSellLeg | | ].
    + intros v3 fb H3. destruct (truthy fb) as [s3|].
      * cbn. intros []. exists v3. split; [exact H3|]. right. exists s3.
        split; reflexivity.
      * cbn. exists v3. split; [exact H3 | left; reflexivity].
    + intros v3 e H3. cbn. exists v3. split; [exact H3 | left; reflexivity].
  - intros v [] (v3 & H3 & [-> | (s3 & -> & _)]); arb_leaf.
  - intros v e (v3 & H3 & [-> | (s3 & _ & [=])]). arb_leaf.
Qed.

End WithLibraries.

Section WithLibraries.

Context (L : Web3) (cfg : Config).

(** C9: whatever the chain answers, each of the five builders handles its
    transaction in one of these ways only: it is never simulated; the
    simulation fails and nothing is signed, sent or simulated again, the leg
    returning null; or it is signed after the successful simulation, sent,
    and confirmed, the leg returning the signature only when the
    confirmation carries no error. *)
Theorem C9_simulate_before_sign (v : Venue) (inMint outMint : PublicKey)
  (amount : AmountStr) (p : PoolInfo) (w : World) (h : Trace) :
  LegRun (submissions (snd (run w (swapVia L cfg v inMint outMint amount p) h)))
         (fst (run w (swapVia L cfg v inMint outMint amount p) h)).
Proof.
  apply (Leg_run cfg).
  destruct v; cbn [swapVia];
    first [ apply Leg_swapViaRaydiumRaw | apply Leg_swapViaCpmm
          | apply Leg_swapViaOrca | apply Leg_swapViaPumpFun
          | apply Leg_swapViaPumpSwap ].
Qed.


Lemma arb_result_state this opp path n b t :
  ArbPath this opp path n (Ok (b, t)) ->
  lastExecution t = lastExecution this.
Proof. intros H. inversion H; subst; reflexivity. Qed.


Lemma liveExecution_post this opp v :
  v = {| marks := []; simulated := 0; sent := 0 |} ->
  Sat observe_step
      (fun _ r => exists b t, r = Ok (b, t) /\ lastExecution t = lastExecution this)
      v (liveExecution L cfg this opp).
Proof.
  intros ->. unfold liveExecution.
  eapply Sat_try_catch; [apply executeArb_paths | |].
  - intros v' [b t] (n & Hp & _). exists b, t. split; [reflexivity|].
    eapply arb_result_state. exact Hp.
  - intros v' e _. unfold catchBlock. apply Sat_bind_log. cbn.
    exists false, this. split; reflexivity.
Qed.

Lemma execute_body_post this opp v :
  v = {| marks := []; simulated := 0; sent := 0 |} ->
  Sat observe_step
      (fun _ r => exists b t, r = Ok (b, t) /\ lastExecution t = lastExecution this)
      v
      (log (LOpportunity (type opp)) ;;;
       log (LBuy (dex (buyPool opp)) (poolType (buyPool opp))
              (substring 0 8 (toBase58 L (address (buyPool opp))))) ;;;
       log (LSell (dex (sellPool opp)) (poolType (sellPool opp))
              (substring 0 8 (toBase58 L (address (sellPool opp))))) ;;;
       log (LSize (ddiv (opp_inputAmount opp) (ofZ 1000000000))) ;;;
       log (LProfit (ddiv (expectedProfit opp) (ofZ 1000000000)) (profitBps opp)) ;;;
       if dryRun cfg
       then log LDryRun ;;; ret (true, recordExecution this opp)
       else liveExecution L cfg this opp).
Proof.
  intros ->.
  do 5 (apply Sat_bind_log; cbn [observe_step arb_mark is_simulation is_send app]).
  destruct (dryRun cfg).
  - apply Sat_bind_log. cbn. eexists _, _. split; reflexivity.
  - apply liveExecution_post. reflexivity.
Qed.

Lemma execute_fresh (w : World) this opp h :
  is_duplicate this (dedupKey L opp) (w Z h Now) = false ->
  exists b t,
    fst (run w (execute L cfg this opp) h) = Ok (b, t) /\
    lastExecution t = Some (dedupKey L opp, w Z h Now) /\
    In (Ev (Log (LOpportunity (type opp))) tt) (snd (run w (execute L cfg this opp) h)).
Proof.
  intros Hd. unfold execute.
  change (bind (perform Now) ?f) with (Vis Now f).
  rewrite run_vis. cbn [fst snd]. rewrite Hd.
  set (this1 := stamp this (dedupKey L opp) (w Z h Now)).
  match goal with |- context [run w ?p ?h'] =>
    pose proof (Sat_run observe_step _ w p _ h'
                  (execute_body_post this1 opp _ eq_refl)) as (b & t & Hr & Ht);
    assert (Hin : In (Ev (Log (LOpportunity (type opp))) tt) (snd (run w p h')))
  end.
  { change (bind (log ?m) ?f) with (Vis (Log m) f).
    cbv beta. rewrite run_vis. cbn [snd].
    destruct (w unit _ (Log (LOpportunity (type opp)))). left. reflexivity. }
  exists b, t. split; [exact Hr|]. split; [exact Ht|]. right. exact Hin.
Qed.

Lemma execute_duplicate (w : World) this opp h :
  is_duplicate this (dedupKey L opp) (w Z h Now) = true ->
  run w (execute L cfg this opp) h
  = (Ok (false, this),
     [Ev Now (w Z h Now);
      Ev (Log LSkipDuplicate) (w unit (h ++ [Ev Now (w Z h Now)]) (Log LSkipDuplicate))]).
Proof.
  intros Hd. unfold execute.
  change (bind (perform Now) ?f) with (Vis Now f).
  rewrite run_vis. cbn [fst snd]. rewrite Hd. reflexivity.
Qed.





End WithLibraries.

(** * Examples *)




(** * More facts *)

(** ** The constant-product quote *)

Lemma exact_out_spec ain rin rout fee :
  (0 < rin)%N ->
  let eff := scaled_in ain fee in
  let out := exact_out ain rin rout fee in
  (out * (10000 * rin + eff) <= eff * rout)%N /\
  (eff * rout < (out + 1) * (10000 * rin + eff))%N.
Proof.
  intros Hrin eff out. subst out. unfold exact_out, scaled_num, scaled_den.
  fold eff. set (d := (10000 * rin + eff)%N).
  assert (Hd : (0 < d)%N) by (unfold d; lia).
  pose proof (N.Div0.mul_div_le (eff * rout) d) as H1.
  pose proof (N.mul_succ_div_gt (eff * rout) d ltac:(lia)) as H2.
  split; lia.
Qed.

(** X1: in the exact regime the quoted output never makes the product of
    the reserves shrink, counting the input net of fee (and so also counting
    the whole input), and it is the largest output with that property; the
    realized rate never beats the reserve ratio. *)
Theorem getAmountOut_keeps_product (ain rin rout : N) (fee : Z) :
  exact_regime ain rin rout fee = true ->
  exists out : N,
    getAmountOut (ofN ain) (ofN rin) (ofN rout) fee = ofN out /\
    (out <= rout)%N /\
    (10000 * rin * rout <= (10000 * rin + scaled_in ain fee) * (rout - out))%N /\
    (rin * rout <= (rin + ain) * (rout - out))%N /\
    (out * rin <= ain * rout)%N /\
    (forall out' : N,
        (out' <= rout)%N ->
        (10000 * rin * rout <= (10000 * rin + scaled_in ain fee) * (rout - out'))%N ->
        (out' <= out)%N).
Proof.
  intros H. exists (exact_out ain rin rout fee).
  destruct (regime_bounds _ _ _ _ H) as (Hfee & Hrin & _).
  destruct (exact_out_spec ain rin rout fee Hrin) as (Hlo & Hhi).
  assert (Heff : (scaled_in ain fee <= 10000 * ain)%N).
  { unfold scaled_in. rewrite (N.mul_comm 10000). apply N.mul_le_mono_l. lia. }
  split; [apply getAmountOut_exact; assumption|].
  set (eff := scaled_in ain fee) in *. set (out := exact_out ain rin rout fee) in *.
  clearbody eff out.
  assert (Hout : (out <= rout)%N).
  { destruct (N.le_gt_cases out rout); [assumption|]. exfalso. nia. }
  split; [exact Hout|].
  assert (Hs : exists s, (rout = out + s)%N) by (exists (rout - out)%N; lia).
  destruct Hs as (s & ->). replace (out + s - out)%N with s by lia.
  split; [nia|]. split; [nia|]. split; [nia|].
  intros out' Hle Hk.
  destruct (N.le_gt_cases out' out); [assumption|]. exfalso.
  assert (Hs' : exists s', (out + s = out' + s')%N) by (exists (out + s - out')%N; lia).
  destruct Hs' as (s' & Hs'). replace (out + s - out')%N with s' in Hk by lia.
  nia.
Qed.

Lemma getAmountOut_keeps_product_witness :
  exact_regime 100000000 1000000000 50000000000 25 = true /\
  exists out : N,
    getAmountOut (ofN 100000000) (ofN 1000000000) (ofN 50000000000) 25 = ofN out /\
    (out <= 50000000000)%N /\
    (1000000000 * 50000000000 <= (1000000000 + 100000000) * (50000000000 - out))%N.
Proof.
  split; [vm_compute; reflexivity|].
  destruct (getAmountOut_keeps_product 100000000 1000000000 50000000000 25 eq_refl)
    as (out & Hout & Hle & _ & Hk & _).
  exists out. split; [exact Hout|]. split; [exact Hle | exact Hk].
Defined.

Lemma quotient_mono (e1 e2 r ro : N) :
  (0 < r)%N -> (e1 <= e2)%N -> (e1 * ro / (r + e1) <= e2 * ro / (r + e2))%N.
Proof.
  intros Hr Hle.
  apply N.div_le_lower_bound; [lia|].
  pose proof (N.Div0.mul_div_le (e1 * ro) (r + e1)) as Hf.
  set (f := (e1 * ro / (r + e1))%N) in *. clearbody f.
  assert (Hfr : (f <= ro)%N).
  { destruct (N.le_gt_cases f ro); [assumption|]. exfalso. nia. }
  nia.
Qed.

(** X2: in the exact regime a higher fee never gives a larger output. *)
Theorem getAmountOut_fee_monotone (ain rin rout : N) (fee1 fee2 : Z) :
  exact_regime ain rin rout fee1 = true ->
  exact_regime ain rin rout fee2 = true ->
  fee1 <= fee2 ->
  lte (getAmountOut (ofN ain) (ofN rin) (ofN rout) fee2)
      (getAmountOut (ofN ain) (ofN rin) (ofN rout) fee1) = true.
Proof.
  intros H1 H2 Hle.
  destruct (regime_bounds _ _ _ _ H1) as (Hf1 & Hrin & _ & _ & B1 & _).
  destruct (regime_bounds _ _ _ _ H2) as (Hf2 & _ & _ & _ & B2 & _).
  rewrite !getAmountOut_exact by assumption.
  rewrite lte_ofN by assumption. apply N.leb_le.
  unfold exact_out, scaled_num, scaled_den.
  apply quotient_mono; [lia|].
  unfold scaled_in. apply N.mul_le_mono_l. lia.
Qed.

Lemma getAmountOut_fee_monotone_witness :
  lte (getAmountOut (ofN 100000000) (ofN 1000000000) (ofN 50000000000) 100)
      (getAmountOut (ofN 100000000) (ofN 1000000000) (ofN 50000000000) 25) = true.
Proof.
  apply getAmountOut_fee_monotone;
    first [vm_compute; reflexivity | vm_compute; discriminate].
Defined.

(** ** getQuote *)

Lemma ofN_fin n :
  (0 < n)%N -> (n < pow10 100)%N ->
  exists c e, ofN n = Fin false c e /\ (0 < c)%N /\ (c <= n)%N /\ 0 <= e <= 100.
Proof.
  intros Hpos Hlt. unfold ofN.
  destruct (digits_small n 100 ltac:(lia) Hlt) as (Hd0 & Hd1).
  rewrite canon_fin by (unfold EXP_LIMIT; lia || assumption).
  destruct (strip_value n 0 Hpos) as (He & Hc & Hv).
  pose proof (strip_lead n 0 Hpos) as Hl.
  pose proof (strip_fst_le n 0) as Hle.
  destruct (digits_spec _ Hc) as (Hdc & _).
  exists (fst (strip n 0)), (snd (strip n 0)).
  repeat split; try assumption; lia.
Qed.

Lemma ddiv_ofN_fin a b :
  (0 < a)%N -> (a < pow10 100)%N -> (0 < b)%N -> (b < pow10 100)%N ->
  exists c e, ddiv (ofN a) (ofN b) = Fin false c e /\ (0 < c)%N.
Proof.
  intros Ha Ba Hb Bb.
  destruct (ofN_fin a Ha Ba) as (c1 & e1 & -> & Hc1 & Lc1 & He1).
  destruct (ofN_fin b Hb Bb) as (c2 & e2 & -> & Hc2 & Lc2 & He2).
  cbn [ddiv].
  destruct (N.eqb_spec c2 0) as [E|_]; [lia|].
  destruct (N.eqb_spec c1 0) as [E|_]; [lia|].
  cbn [xorb].
  set (x := (c1 * pow10 (e1 - e2))%N). set (y := (c2 * pow10 (e2 - e1))%N).
  assert (Hx : (0 < x)%N) by (unfold x; pose proof (pow10_pos (e1 - e2)); nia).
  assert (Hy : (0 < y)%N) by (unfold y; pose proof (pow10_pos (e2 - e1)); nia).
  assert (P100 : forall k, k <= 100 -> (pow10 k <= pow10 100)%N)
    by (intros; apply pow10_le; assumption).
  assert (Bx : (x < pow10 200)%N).
  { unfold x. change 200 with (100 + 100). rewrite pow10_add by lia.
    pose proof (P100 (e1 - e2) ltac:(lia)). pose proof (pow10_pos (e1 - e2)). nia. }
  assert (By : (y < pow10 200)%N).
  { unfold y. change 200 with (100 + 100). rewrite pow10_add by lia.
    pose proof (P100 (e2 - e1) ltac:(lia)). pose proof (pow10_pos (e2 - e1)). nia. }
  destruct (round_sig_pos x y Hx Hy) as (Hr & Hlead).
  destruct (digits_small x 200 ltac:(lia) Bx) as (_ & Dx).
  destruct (digits_small y 200 ltac:(lia) By) as (_ & Dy).
  destruct (round_sig x y 0) as [c e] eqn:Er. cbn [fst snd] in *.
  rewrite finalise_fin by (unfold EXP_LIMIT; lia || assumption).
  exists c, e. split; [reflexivity | assumption].
Qed.

(** X3: a quote of a zero amount on a pool with positive reserves, taken
    from the reserves: its output and effective price are 0 and its price
    impact is 1. *)
Theorem getQuote_zero_amount (p : PoolInfo) (m : PublicKey) (rin rout : N) :
  quotes_by_reserves p = true ->
  reserveIn_of p m = ofN rin -> reserveOut_of p m = ofN rout ->
  exact_regime 0 rin rout (fee p) = true -> (0 < rout)%N ->
  let q := getQuote p m (ofZ 0) in
  outputAmount q = ofZ 0 /\ effectivePrice q = ofZ 0 /\ priceImpact q = ofZ 1.
Proof.
  intros Hq Hin Hout Hreg Hrout q.
  destruct (regime_facts _ _ _ _ Hreg) as (_ & Hrin & Brin & _ & Brout & _).
  assert (Ho : outputAmount q = ofZ 0).
  { unfold q. rewrite getQuote_by_reserves by assumption.
    rewrite Hin, Hout. change (ofZ 0) with (ofN 0).
    rewrite getAmountOut_exact by assumption.
    unfold exact_out, scaled_num, scaled_in. reflexivity. }
  assert (He : effectivePrice q = ofZ 0) by reflexivity.
  split; [exact Ho|]. split; [exact He|].
  unfold q. rewrite price_impact_unfold. fold q. rewrite He, Hin, Hout.
  destruct (ofN_fin rin Hrin Brin) as (c & e & Ec & Hc & _).
  destruct (ddiv_ofN_fin rout rin Hrout Brout Hrin Brin) as (c' & e' & Ed & Hc').
  rewrite Ed. rewrite Ec. cbn [isZero].
  destruct (N.eqb_spec c 0) as [E|_]; [lia|].
  destruct (N.eqb_spec c' 0) as [E|_]; [lia|].
  change (ofZ 0) with (Fin false 0%N 0). cbn [ddiv].
  destruct (N.eqb_spec c' 0) as [E|_]; [lia|].
  vm_compute. reflexivity.
Qed.

Lemma getQuote_zero_amount_witness :
  let q := getQuote (sample_pool 1000000000 50000000000 25) 11%N (ofZ 0) in
  outputAmount q = ofZ 0 /\ effectivePrice q = ofZ 0 /\ priceImpact q = ofZ 1.
Proof.
  apply (getQuote_zero_amount (sample_pool 1000000000 50000000000 25) 11%N
           1000000000 50000000000);
    first [vm_compute; reflexivity | vm_compute; discriminate].
Defined.

(** X4: an input mint that is not tokenA, also one that is no token of the
    pool at all, is quoted as tokenB: the quote names tokenA as output mint
    and, when it is taken from the reserves, sells into reserveB. *)
Theorem getQuote_other_mint (p : PoolInfo) (m : PublicKey) (a : Decimal) :
  m <> tokenA p ->
  let q := getQuote p m a in
  inputMint q = m /\ outputMint q = tokenA p /\
  (quotes_by_reserves p = true ->
   outputAmount q = getAmountOut a (reserveB p) (reserveA p) (fee p)).
Proof.
  intros Hm q.
  assert (E : pk_equals (tokenA p) m = false).
  { unfold pk_equals. apply N.eqb_neq. congruence. }
  split; [reflexivity|]. split.
  - unfold q, getQuote. cbn [outputMint]. rewrite E. reflexivity.
  - intros Hq. unfold q. rewrite getQuote_by_reserves by assumption.
    unfold reserveIn_of, reserveOut_of. rewrite E. reflexivity.
Qed.

Lemma getQuote_other_mint_witness :
  let q := getQuote (sample_pool 1000 2000 25) 33%N (ofZ 10) in
  inputMint q = 33%N /\ outputMint q = 11%N /\ outputAmount q = ofZ 4.
Proof.
  destruct (getQuote_other_mint (sample_pool 1000 2000 25) 33%N (ofZ 10))
    as (Hi & Ho & Ha); [vm_compute; discriminate|].
  split; [exact Hi|]. split; [exact Ho|].
  rewrite Ha by (vm_compute; reflexivity). vm_compute. reflexivity.
Defined.

(** X5: when a pool is not quoted from its reserves (it has a positive API
    price, or it is a concentrated-liquidity pool with a stored square-root
    price), the quoted output and effective price do not depend on the
    reserves: pools that agree on the price fields, the type, the tokens, the
    decimals and the fee get the same quote. *)
Theorem getQuote_priced_ignores_reserves (p p' : PoolInfo) (m : PublicKey)
  (a : Decimal) :
  quotes_by_reserves p = false ->
  orcaApiPrice p' = orcaApiPrice p -> sqrtPriceX64 p' = sqrtPriceX64 p ->
  poolType p' = poolType p ->
  tokenA p' = tokenA p -> tokenB p' = tokenB p ->
  decimalsA p' = decimalsA p -> decimalsB p' = decimalsB p -> fee p' = fee p ->
  outputAmount (getQuote p' m a) = outputAmount (getQuote p m a) /\
  effectivePrice (getQuote p' m a) = effectivePrice (getQuote p m a) /\
  outputMint (getQuote p' m a) = outputMint (getQuote p m a).
Proof.
  intros Hq Ho Hs Ht HA HB HdA HdB Hf.
  unfold quotes_by_reserves in Hq.
  unfold getQuote. cbn [outputAmount effectivePrice outputMint].
  rewrite Ho, Hs, Ht, HA, HB, HdA, HdB, Hf.
  destruct (usable_price (orcaApiPrice p)) as [price|]; [repeat split|].
  destruct (if is_concentrated (poolType p) then sqrtPriceX64 p else None)
    as [sqrtX64|]; [repeat split | discriminate].
Qed.

Lemma getQuote_priced_witness :
  outputAmount (getQuote (priced_pool 1000 5) 11%N (ofZ 1000000))
  = outputAmount (getQuote (priced_pool 1 1) 11%N (ofZ 1000000)) /\
  outputAmount (getQuote (priced_pool 1 1) 11%N (ofZ 1000000)) = ofZ 1994.
Proof.
  split.
  - apply (getQuote_priced_ignores_reserves (priced_pool 1 1) (priced_pool 1000 5)
             11%N (ofZ 1000000)); reflexivity.
  - vm_compute. reflexivity.
Defined.

(** ** getPoolsForPair *)

(** X6: the pools returned for a pair are exactly the known pools whose two
    tokens are that pair, in either order; they come in the order of the
    pool list, and the order of the two arguments does not matter. *)
Theorem getPoolsForPair_spec (pools : list PoolInfo) (a b : PublicKey) :
  (forall p, In p (getPoolsForPair pools a b) <->
             In p pools /\ ((tokenA p = a /\ tokenB p = b) \/
                            (tokenB p = a /\ tokenA p = b))) /\
  getPoolsForPair pools b a = getPoolsForPair pools a b /\
  (forall l1 l2, getPoolsForPair (l1 ++ l2) a b
                 = getPoolsForPair l1 a b ++ getPoolsForPair l2 a b).
Proof.
  unfold getPoolsForPair, pk_equals. split; [|split].
  - intros p. rewrite filter_In, orb_true_iff, !andb_true_iff, !N.eqb_eq.
    reflexivity.
  - apply filter_ext. intros p.
    rewrite orb_comm.
    rewrite (andb_comm (N.eqb (tokenB p) b)), (andb_comm (N.eqb (tokenA p) b)).
    reflexivity.
  - intros l1 l2. apply filter_app.
Qed.

(** ** Bonding-curve quotes *)

Lemma quot_nonneg a b : 0 <= a -> 0 < b -> Z.quot a b = a / b.
Proof. intros. apply Z.quot_div_nonneg; assumption. Qed.

Lemma after_fee_bounds x :
  0 <= x -> 0 <= after_fee x <= x /\ 99 * x - 99 <= 100 * after_fee x <= 99 * x.
Proof.
  intros Hx. unfold after_fee. rewrite quot_nonneg by lia.
  pose proof (Z.mul_div_le (x * 99) 100 ltac:(lia)).
  pose proof (Z.mul_succ_div_gt (x * 99) 100 ltac:(lia)).
  pose proof (Z.div_pos (x * 99) 100 ltac:(lia) ltac:(lia)).
  lia.
Qed.

Lemma getBuyQuote_value (curve : BondingCurveData) (solIn : Z) :
  0 <= virtualTokenReserves curve -> 0 < virtualSolReserves curve -> 0 <= solIn ->
  getBuyQuote curve solIn
  = Some (virtualTokenReserves curve
          - virtualTokenReserves curve * virtualSolReserves curve
            / (virtualSolReserves curve + after_fee solIn)).
Proof.
  intros Ht Hs Hin. unfold getBuyQuote, bigint_div. fold (after_fee solIn).
  destruct (after_fee_bounds solIn Hin) as ((Ha & _) & _).
  destruct (Z.eqb_spec (virtualSolReserves curve + after_fee solIn) 0) as [E|_]; [lia|].
  rewrite quot_nonneg by nia. reflexivity.
Qed.

(** X7: on a curve with positive virtual SOL reserves a buy of a
    non-negative amount never raises; its output lies between 0 and the
    virtual token reserves (which it can reach), and the remaining token
    reserve is the product of the virtual reserves divided by the new SOL
    reserve, rounded down: the product after the trade is at most the
    product before it and misses it by less than the new SOL reserve. *)
Theorem getBuyQuote_bounds (curve : BondingCurveData) (solIn : Z) :
  0 <= virtualTokenReserves curve -> 0 < virtualSolReserves curve -> 0 <= solIn ->
  exists out,
    getBuyQuote curve solIn = Some out /\
    0 <= out <= virtualTokenReserves curve /\
    let newSol := virtualSolReserves curve + after_fee solIn in
    let k := virtualTokenReserves curve * virtualSolReserves curve in
    newSol * (virtualTokenReserves curve - out) <= k
    /\ k < newSol * (virtualTokenReserves curve - out + 1).
Proof.
  intros Ht Hs Hin. rewrite getBuyQuote_value by assumption.
  destruct (after_fee_bounds solIn Hin) as ((Ha & _) & _).
  set (a := after_fee solIn) in *. clearbody a.
  set (vt := virtualTokenReserves curve) in *.
  set (vs := virtualSolReserves curve) in *. clearbody vt vs.
  eexists. split; [reflexivity|].
  pose proof (Z.mul_div_le (vt * vs) (vs + a) ltac:(lia)) as H1.
  pose proof (Z.mul_succ_div_gt (vt * vs) (vs + a) ltac:(lia)) as H2.
  pose proof (Z.div_pos (vt * vs) (vs + a) ltac:(nia) ltac:(lia)) as H3.
  set (q := vt * vs / (vs + a)) in *. clearbody q.
  assert (q <= vt) by nia.
  cbv zeta. replace (vt - (vt - q)) with q by lia. lia.
Qed.

Lemma getBuyQuote_bounds_witness :
  let curve := {| virtualTokenReserves := 1000000; virtualSolReserves := 30000;
                  realTokenReserves := 800000; realSolReserves := 1;
                  tokenTotalSupply := 1000000; complete := false |} in
  exists out, getBuyQuote curve 1000 = Some out /\ 0 <= out <= 1000000.
Proof.
  cbv zeta.
  destruct (getBuyQuote_bounds
              {| virtualTokenReserves := 1000000; virtualSolReserves := 30000;
                 realTokenReserves := 800000; realSolReserves := 1;
                 tokenTotalSupply := 1000000; complete := false |} 1000)
    as (out & Hq & Hb & _); [cbn; lia | cbn; lia | lia |].
  exists out. split; [exact Hq | exact Hb].
Defined.

(** X8: on a curve with positive virtual token reserves a sale of a
    non-negative amount never raises; it pays the 1% fee on the SOL taken
    from the curve, that SOL lies between 0 and the virtual SOL reserves and
    leaves the product of the virtual reserves divided by the new token
    reserve, rounded down; the payout is at most 99% of that SOL. *)
Theorem getSellQuote_bounds (curve : BondingCurveData) (tokensIn : Z) :
  0 < virtualTokenReserves curve -> 0 <= virtualSolReserves curve -> 0 <= tokensIn ->
  exists solOut,
    getSellQuote curve tokensIn = Some (after_fee solOut) /\
    0 <= solOut <= virtualSolReserves curve /\
    0 <= after_fee solOut /\ 100 * after_fee solOut <= 99 * solOut /\
    let newTok := virtualTokenReserves curve + tokensIn in
    let k := virtualTokenReserves curve * virtualSolReserves curve in
    newTok * (virtualSolReserves curve - solOut) <= k
    /\ k < newTok * (virtualSolReserves curve - solOut + 1).
Proof.
  intros Ht Hs Hin. unfold getSellQuote, bigint_div.
  set (vt := virtualTokenReserves curve) in *.
  set (vs := virtualSolReserves curve) in *. clearbody vt vs.
  destruct (Z.eqb_spec (vt + tokensIn) 0) as [E|_]; [lia|].
  rewrite (quot_nonneg (vt * vs) (vt + tokensIn)) by nia.
  pose proof (Z.mul_div_le (vt * vs) (vt + tokensIn) ltac:(lia)) as H1.
  pose proof (Z.mul_succ_div_gt (vt * vs) (vt + tokensIn) ltac:(lia)) as H2.
  pose proof (Z.div_pos (vt * vs) (vt + tokensIn) ltac:(nia) ltac:(lia)) as H3.
  set (q := vt * vs / (vt + tokensIn)) in *. clearbody q.
  assert (q <= vs) by nia.
  exists (vs - q). split; [reflexivity|].
  destruct (after_fee_bounds (vs - q) ltac:(lia)) as ((Ha0 & _) & (_ & Ha1)).
  cbv zeta. replace (vs - (vs - q)) with q by lia. lia.
Qed.

Lemma getSellQuote_bounds_witness :
  let curve := {| virtualTokenReserves := 1000; virtualSolReserves := 1000;
                  realTokenReserves := 1000; realSolReserves := 1000;
                  tokenTotalSupply := 1000; complete := false |} in
  exists solOut, getSellQuote curve 1000 = Some (after_fee solOut) /\
                 0 <= solOut <= 1000.
Proof.
  cbv zeta.
  destruct (getSellQuote_bounds
              {| virtualTokenReserves := 1000; virtualSolReserves := 1000;
                 realTokenReserves := 1000; realSolReserves := 1000;
                 tokenTotalSupply := 1000; complete := false |} 1000)
    as (s & Hq & Hb & _); [cbn; lia | cbn; lia | lia |].
  exists s. split; [exact Hq | exact Hb].
Defined.

Lemma after_fee_mono x y : 0 <= x <= y -> after_fee x <= after_fee y.
Proof.
  intros H. unfold after_fee. rewrite !quot_nonneg by lia.
  apply Z.div_le_mono; lia.
Qed.

(** X9: both bonding-curve quotes are non-decreasing in the amount traded,
    for non-negative amounts on a curve with positive virtual reserves. *)
Theorem bonding_quotes_monotone (curve : BondingCurveData) (x y : Z) :
  0 < virtualTokenReserves curve -> 0 < virtualSolReserves curve -> 0 <= x <= y ->
  exists bx by_ sx sy,
    getBuyQuote curve x = Some bx /\ getBuyQuote curve y = Some by_ /\ bx <= by_ /\
    getSellQuote curve x = Some sx /\ getSellQuote curve y = Some sy /\ sx <= sy.
Proof.
  intros Ht Hs Hxy. unfold getBuyQuote, getSellQuote, bigint_div.
  fold (after_fee x). fold (after_fee y).
  pose proof (after_fee_mono x y Hxy) as Hm.
  destruct (after_fee_bounds x ltac:(lia)) as ((Hax & _) & _).
  set (ax := after_fee x) in *. set (ay := after_fee y) in *. clearbody ax ay.
  set (vt := virtualTokenReserves curve) in *.
  set (vs := virtualSolReserves curve) in *. clearbody vt vs.
  destruct (Z.eqb_spec (vs + ax) 0) as [E|_]; [lia|].
  destruct (Z.eqb_spec (vs + ay) 0) as [E|_]; [lia|].
  destruct (Z.eqb_spec (vt + x) 0) as [E|_]; [lia|].
  destruct (Z.eqb_spec (vt + y) 0) as [E|_]; [lia|].
  do 4 eexists.
  split; [reflexivity|]. split; [reflexivity|].
  rewrite (quot_nonneg (vt * vs) (vs + ax)), (quot_nonneg (vt * vs) (vs + ay)),
    (quot_nonneg (vt * vs) (vt + x)), (quot_nonneg (vt * vs) (vt + y)) by nia.
  assert (B : vt * vs / (vs + ay) <= vt * vs / (vs + ax))
    by (apply Z.div_le_compat_l; nia).
  split; [lia|].
  split; [reflexivity|]. split; [reflexivity|].
  assert (S : vt * vs / (vt + y) <= vt * vs / (vt + x))
    by (apply Z.div_le_compat_l; nia).
  pose proof (Z.mul_div_le (vt * vs) (vt + x) ltac:(lia)).
  assert (vt * vs / (vt + x) <= vs) by (apply Z.div_le_upper_bound; nia).
  fold (after_fee (vs - vt * vs / (vt + x))).
  fold (after_fee (vs - vt * vs / (vt + y))).
  apply after_fee_mono. lia.
Qed.

Lemma bonding_quotes_monotone_witness :
  let curve := {| virtualTokenReserves := 1000000; virtualSolReserves := 30000;
                  realTokenReserves := 800000; realSolReserves := 1;
                  tokenTotalSupply := 1000000; complete := false |} in
  exists bx by_ sx sy,
    getBuyQuote curve 1000 = Some bx /\ getBuyQuote curve 2000 = Some by_ /\ bx <= by_ /\
    getSellQuote curve 1000 = Some sx /\ getSellQuote curve 2000 = Some sy /\ sx <= sy.
Proof.
  cbv zeta. apply bonding_quotes_monotone; cbn; lia.
Defined.

Lemma after_fee_zero x : 0 <= x -> (after_fee x = 0 <-> x <= 1).
Proof.
  intros Hx. unfold after_fee. rewrite quot_nonneg by lia.
  pose proof (Z.mul_div_le (x * 99) 100 ltac:(lia)).
  pose proof (Z.mul_succ_div_gt (x * 99) 100 ltac:(lia)).
  lia.
Qed.

(** X10: for a curve with non-negative virtual reserves and a non-negative
    amount, a buy raises (BigInt division by zero) exactly when the virtual
    SOL reserves are 0 and the amount is at most 1 lamport (its net of fee
    is then 0), and a sale raises exactly when the virtual token reserves
    and the amount are both 0. *)
Theorem bonding_quotes_raise (curve : BondingCurveData) (amountIn : Z) :
  0 <= virtualTokenReserves curve -> 0 <= virtualSolReserves curve ->
  0 <= amountIn ->
  (getBuyQuote curve amountIn = None <->
   virtualSolReserves curve = 0 /\ amountIn <= 1) /\
  (getSellQuote curve amountIn = None <->
   virtualTokenReserves curve = 0 /\ amountIn = 0).
Proof.
  intros Ht Hs Hin.
  unfold getBuyQuote, getSellQuote, bigint_div. fold (after_fee amountIn).
  destruct (after_fee_bounds amountIn Hin) as ((Ha & _) & _).
  pose proof (after_fee_zero amountIn Hin) as Hz.
  split.
  - destruct (Z.eqb_spec (virtualSolReserves curve + after_fee amountIn) 0);
      split; intros H; try discriminate; try reflexivity; lia.
  - destruct (Z.eqb_spec (virtualTokenReserves curve + amountIn) 0);
      split; intros H; try discriminate; try reflexivity; lia.
Qed.

Lemma bonding_quotes_raise_witness :
  let curve := {| virtualTokenReserves := 0; virtualSolReserves := 0;
                  realTokenReserves := 0; realSolReserves := 0;
                  tokenTotalSupply := 0; complete := false |} in
  getBuyQuote curve 1 = None /\ getSellQuote curve 0 = None.
Proof.
  cbv zeta.
  destruct (bonding_quotes_raise
              {| virtualTokenReserves := 0; virtualSolReserves := 0;
                 realTokenReserves := 0; realSolReserves := 0;
                 tokenTotalSupply := 0; complete := false |} 1)
    as (Hb & _); [cbn; lia | cbn; lia | lia |].
  destruct (bonding_quotes_raise
              {| virtualTokenReserves := 0; virtualSolReserves := 0;
                 realTokenReserves := 0; realSolReserves := 0;
                 tokenTotalSupply := 0; complete := false |} 0)
    as (_ & Hs); [cbn; lia | cbn; lia | lia |].
  split; [apply Hb | apply Hs]; cbn; lia.
Defined.

(** ** Byte buffers *)

Lemma be_value_acc l : forall acc,
  fold_left (fun a x => (a * 256 + Byte.to_N x)%N) l acc
  = (acc * 256 ^ N.of_nat (List.length l) + be_value l)%N.
Proof.
  unfold be_value.
  induction l as [|x l IH]; intros acc.
  - cbn. lia.
  - cbn [fold_left List.length]. rewrite IH, (IH (0 * 256 + Byte.to_N x)%N).
    rewrite Nat2N.inj_succ, N.pow_succ_r'. lia.
Qed.

Lemma be_value_cons x l :
  be_value (x :: l) = (Byte.to_N x * 256 ^ N.of_nat (List.length l) + be_value l)%N.
Proof. unfold be_value at 1. cbn [fold_left]. rewrite be_value_acc. lia. Qed.

Lemma be_value_snoc l x : be_value (l ++ [x]) = (be_value l * 256 + Byte.to_N x)%N.
Proof. unfold be_value. rewrite fold_left_app. reflexivity. Qed.

Lemma be_value_bound l : (be_value l < 256 ^ N.of_nat (List.length l))%N.
Proof.
  induction l as [|x l IH].
  - cbn. lia.
  - rewrite be_value_cons. cbn [List.length]. rewrite Nat2N.inj_succ, N.pow_succ_r'.
    pose proof (Byte.to_N_bounded x). nia.
Qed.

Lemma le_value_cons x l : le_value (x :: l) = (Byte.to_N x + 256 * le_value l)%N.
Proof. unfold le_value. cbn [rev]. rewrite be_value_snoc. lia. Qed.

Lemma le_value_snoc l x :
  le_value (l ++ [x]) = (le_value l + 256 ^ N.of_nat (List.length l) * Byte.to_N x)%N.
Proof.
  unfold le_value. rewrite rev_app_distr. cbn [rev app].
  rewrite be_value_cons, length_rev. lia.
Qed.

Lemma le_value_bound l : (le_value l < 256 ^ N.of_nat (List.length l))%N.
Proof. unfold le_value. rewrite <- (length_rev l). apply be_value_bound. Qed.

Lemma byte_of_mod n :
  exists x, Byte.of_N (n mod 256) = Some x /\ Byte.to_N x = (n mod 256)%N.
Proof.
  destruct (Byte.of_N (n mod 256)) as [x|] eqn:E.
  - exists x. split; [reflexivity|]. apply Byte.to_of_N. exact E.
  - apply Byte.of_N_None_iff in E. pose proof (N.mod_lt n 256 ltac:(lia)). lia.
Qed.

Lemma le_bytes_length len : forall n, List.length (le_bytes len n) = len.
Proof.
  induction len as [|len IH]; intros n; cbn [le_bytes]; [reflexivity|].
  destruct (byte_of_mod n) as (x & -> & _). cbn [List.length]. rewrite IH. reflexivity.
Qed.

Lemma le_value_le_bytes len : forall n,
  (n < 256 ^ N.of_nat len)%N -> le_value (le_bytes len n) = n.
Proof.
  induction len as [|len IH]; intros n Hn.
  - cbn in *. lia.
  - cbn [le_bytes]. destruct (byte_of_mod n) as (x & -> & Hx).
    rewrite le_value_cons, Hx, IH.
    + pose proof (N.div_mod n 256 ltac:(lia)). lia.
    + rewrite Nat2N.inj_succ, N.pow_succ_r' in Hn.
      apply N.Div0.div_lt_upper_bound. lia.
Qed.

Lemma le_bytes_le_value l : le_bytes (List.length l) (le_value l) = l.
Proof.
  induction l as [|x l IH]; [reflexivity|].
  cbn [List.length le_bytes]. rewrite le_value_cons.
  pose proof (Byte.to_N_bounded x) as Hx.
  assert (Hm : ((Byte.to_N x + 256 * le_value l) mod 256 = Byte.to_N x)%N).
  { replace (Byte.to_N x + 256 * le_value l)%N
      with (Byte.to_N x + le_value l * 256)%N by lia.
    rewrite N.Div0.mod_add. apply N.mod_small. lia. }
  assert (Hd : ((Byte.to_N x + 256 * le_value l) / 256 = le_value l)%N).
  { replace (Byte.to_N x + 256 * le_value l)%N
      with (le_value l * 256 + Byte.to_N x)%N by lia.
    rewrite N.div_add_l by lia.
    rewrite (N.div_small (Byte.to_N x)) by lia. lia. }
  rewrite Hm, Hd, Byte.of_to_N, IH. reflexivity.
Qed.

Lemma subarray_length buf a b :
  (a <= b)%nat -> (b <= List.length buf)%nat -> List.length (subarray buf a b) = (b - a)%nat.
Proof.
  intros Hab Hb. unfold subarray. rewrite length_firstn, length_skipn. lia.
Qed.

Lemma subarray_app buf extra a b :
  (b <= List.length buf)%nat -> subarray (buf ++ extra) a b = subarray buf a b.
Proof.
  intros Hb. unfold subarray. rewrite skipn_app, firstn_app, length_skipn.
  replace (b - a - (List.length buf - a))%nat with 0%nat by lia.
  cbn [firstn]. apply app_nil_r.
Qed.

Lemma subarray_middle pre b post :
  subarray (pre ++ b ++ post) (List.length pre) (List.length pre + List.length b) = b.
Proof.
  unfold subarray. rewrite skipn_app, skipn_all, Nat.sub_diag. cbn [skipn app].
  replace (List.length pre + List.length b - List.length pre)%nat
    with (List.length b) by lia.
  rewrite firstn_app, Nat.sub_diag, firstn_all. cbn [firstn]. apply app_nil_r.
Qed.

Lemma read_le_some buf off len n :
  read_le buf off len = Some n ->
  (off + len <= List.length buf)%nat /\ n = le_value (subarray buf off (off + len)).
Proof.
  unfold read_le. destruct (Nat.leb_spec (off + len) (List.length buf)); [|discriminate].
  intros [= <-]. split; [assumption | reflexivity].
Qed.

Lemma read_le_in_range buf off len :
  (off + len <= List.length buf)%nat ->
  read_le buf off len = Some (le_value (subarray buf off (off + len))).
Proof.
  intros H. unfold read_le.
  destruct (Nat.leb_spec (off + len) (List.length buf)); [reflexivity | lia].
Qed.

(** X11: the 8-byte little-endian encoding of amounts and the 64-bit read
    are inverse to each other: a value read at an offset is below 2^64 and
    encodes to the very bytes it was read from (so the nonce buffer of the
    Raydium builder is bytes 45..52 of the market account); a value below
    2^64 encodes to 8 bytes that read back as the value wherever they are
    placed; and encoding raises from 2^64 on. *)
Theorem u64_le_round_trip (buf pre post : Buffer) (off : nat) (n : N) :
  (readBigUInt64LE buf off = Some n ->
   (n < 2 ^ 64)%N /\ le_bytes 8 n = subarray buf off (off + 8) /\
   bn_le8 n = Some (subarray buf off (off + 8))) /\
  ((n < 2 ^ 64)%N ->
   exists b, bn_le8 n = Some b /\ List.length b = 8%nat /\
             readBigUInt64LE (pre ++ b ++ post) (List.length pre) = Some n) /\
  ((2 ^ 64 <= n)%N -> bn_le8 n = None).
Proof.
  split; [|split].
  - intros H. apply read_le_some in H. destruct H as (Hr & ->).
    pose proof (subarray_length buf off (off + 8) ltac:(lia) Hr) as Hl.
    replace (off + 8 - off)%nat with 8%nat in Hl by lia.
    pose proof (le_value_bound (subarray buf off (off + 8))) as Hb.
    rewrite Hl in Hb. change (256 ^ N.of_nat 8)%N with (2 ^ 64)%N in Hb.
    pose proof (le_bytes_le_value (subarray buf off (off + 8))) as Hrt.
    rewrite Hl in Hrt.
    split; [exact Hb|]. split; [exact Hrt|].
    unfold bn_le8. destruct (N.ltb_spec (le_value (subarray buf off (off + 8))) (2 ^ 64));
      [rewrite Hrt; reflexivity | lia].
  - intros Hn. exists (le_bytes 8 n). unfold bn_le8.
    destruct (N.ltb_spec n (2 ^ 64)); [|lia].
    split; [reflexivity|]. split; [apply le_bytes_length|].
    unfold readBigUInt64LE.
    rewrite read_le_in_range
      by (rewrite !length_app, le_bytes_length; lia).
    pose proof (subarray_middle pre (le_bytes 8 n) post) as Hm.
    rewrite le_bytes_length in Hm. rewrite Hm.
    rewrite le_value_le_bytes; [reflexivity|].
    change (256 ^ N.of_nat 8)%N with (2 ^ 64)%N. assumption.
  - intros Hn. unfold bn_le8. destruct (N.ltb_spec n (2 ^ 64)); [lia | reflexivity].
Qed.

Lemma u64_le_round_trip_witness :
  readBigUInt64LE ([x00; x01] ++ [xe8; x03; x00; x00; x00; x00; x00; x00] ++ [xff]) 2
  = Some 1000%N /\
  bn_le8 1000 = Some [xe8; x03; x00; x00; x00; x00; x00; x00] /\
  bn_le8 (2 ^ 64) = None.
Proof.
  destruct (u64_le_round_trip
              ([x00; x01] ++ [xe8; x03; x00; x00; x00; x00; x00; x00] ++ [xff])
              [x00; x01] [xff] 2 1000) as (Hread & _ & _).
  destruct (u64_le_round_trip [] [] [] 0 (2 ^ 64)) as (_ & _ & Hbig).
  split; [reflexivity|]. split.
  - apply Hread. reflexivity.
  - apply Hbig. reflexivity.
Defined.

Lemma key_at_bound buf a b : (key_at buf a b < 256 ^ N.of_nat (b - a))%N.
Proof.
  unfold key_at. eapply N.lt_le_trans; [apply be_value_bound|].
  apply N.pow_le_mono_r; [lia|].
  unfold subarray. rewrite length_firstn. lia.
Qed.

Lemma bytes_equal_spec (l d : Buffer) :
  List.length l = List.length d ->
  forallb (fun xy => Byte.eqb (fst xy) (snd xy)) (combine l d) = true <-> l = d.
Proof.
  revert d. induction l as [|x l IH]; intros [|y d] Hlen; try discriminate.
  - split; reflexivity.
  - cbn [combine forallb fst snd]. rewrite andb_true_iff, IH by (cbn in Hlen; lia).
    split.
    + intros (E & ->). apply Byte.byte_dec_bl in E. subst. reflexivity.
    + intros [= -> ->]. split; [apply Byte.byte_dec_lb|]; reflexivity.
Qed.

(** X12: parsePumpSwapPool accepts exactly the buffers of 301 bytes that
    start with the pool discriminator and carry the active status 0xff at
    byte 8; for those it returns the given address, that status, and the six
    keys cut from bytes 11..202, each a 32-byte value. *)
Theorem parsePumpSwapPool_spec (addr : PublicKey) (data : Buffer) :
  match parsePumpSwapPool addr data with
  | Some r =>
      List.length data = 301%nat /\ firstn 8 data = POOL_DISCRIMINATOR /\
      nth_error data 8 = Some xff /\
      ps_address r = addr /\ status r = xff /\
      poolCreator r = key_at data 11 43 /\ baseMint r = key_at data 43 75 /\
      quoteMint r = key_at data 75 107 /\ lpMint r = key_at data 107 139 /\
      baseVault r = key_at data 139 171 /\ quoteVault r = key_at data 171 203 /\
      (poolCreator r < 2 ^ 256 /\ baseMint r < 2 ^ 256 /\ quoteMint r < 2 ^ 256 /\
       lpMint r < 2 ^ 256 /\ baseVault r < 2 ^ 256 /\ quoteVault r < 2 ^ 256)%N
  | None =>
      List.length data <> 301%nat \/ firstn 8 data <> POOL_DISCRIMINATOR \/
      nth_error data 8 <> Some xff
  end.
Proof.
  unfold parsePumpSwapPool.
  destruct (Nat.eqb_spec (List.length data) 301) as [Hlen|Hlen]; cbn [negb];
    [|left; assumption].
  assert (Hsub : subarray data 0 8 = firstn 8 data) by reflexivity.
  assert (Hl8 : List.length (firstn 8 data) = List.length POOL_DISCRIMINATOR).
  { rewrite length_firstn, Hlen. reflexivity. }
  rewrite Hsub.
  destruct (forallb _ (combine (firstn 8 data) POOL_DISCRIMINATOR)) eqn:Ed; cbn [negb].
  2:{ right. left. intros E. apply (bytes_equal_spec _ _ Hl8) in E. congruence. }
  apply (bytes_equal_spec _ _ Hl8) in Ed.
  destruct (nth_error data 8) as [st|] eqn:Est.
  2:{ right. right. discriminate. }
  destruct (Byte.eqb st xff) eqn:Es; cbn [negb].
  2:{ right. right. intros [= ->]. cbn in Es. discriminate. }
  apply Byte.byte_dec_bl in Es. subst st.
  cbn [ps_address status poolCreator baseMint quoteMint lpMint baseVault quoteVault].
  repeat (split; [reflexivity || assumption|]).
  change (2 ^ 256)%N with (256 ^ N.of_nat 32)%N.
  repeat split; apply key_at_bound.
Qed.

Lemma subarray_subarray buf a b c d :
  (c <= d)%nat -> (a + d <= b)%nat ->
  subarray (subarray buf a b) c d = subarray buf (a + c) (a + d).
Proof.
  intros Hcd Hdb. unfold subarray.
  rewrite skipn_firstn_comm, firstn_firstn, skipn_skipn.
  replace (Nat.min (d - c) (b - a - c)) with (d - c)%nat by lia.
  replace (a + d - (a + c))%nat with (d - c)%nat by lia.
  rewrite (Nat.add_comm c a). reflexivity.
Qed.

Lemma nth_error_subarray buf a b i :
  (a + i < b)%nat -> nth_error (subarray buf a b) i = nth_error buf (a + i).
Proof.
  intros H. unfold subarray. rewrite nth_error_firstn.
  destruct (Nat.ltb_spec i (b - a)); [|lia].
  rewrite nth_error_skipn. reflexivity.
Qed.

Lemma read_u64_window buf off :
  (8 <= off)%nat -> (off + 8 <= 49)%nat -> (49 <= List.length buf)%nat ->
  readBigUInt64LE buf off
  = Some (le_value (subarray (subarray buf 8 49) (off - 8) (off - 8 + 8))).
Proof.
  intros H1 H2 H3. unfold readBigUInt64LE. rewrite read_le_in_range by lia.
  rewrite subarray_subarray by lia.
  replace (8 + (off - 8))%nat with off by lia.
  replace (8 + (off - 8 + 8))%nat with (off + 8)%nat by lia. reflexivity.
Qed.

Lemma parseBondingCurve_window buf :
  (49 <= List.length buf)%nat ->
  let win := subarray buf 8 49 in
  let field (i : nat) := Z.of_N (le_value (subarray win i (i + 8))) in
  parseBondingCurve buf
  = Ok (Some {| virtualTokenReserves := field 0%nat;
                virtualSolReserves := field 8%nat;
                realTokenReserves := field 16%nat;
                realSolReserves := field 24%nat;
                tokenTotalSupply := field 32%nat;
                complete := match nth_error win 40 with
                            | Some x => negb (Byte.eqb x x00)
                            | None => true
                            end |}).
Proof.
  intros Hlen win field. unfold parseBondingCurve.
  destruct (Nat.ltb_spec (List.length buf) 49); [lia|].
  rewrite (read_u64_window buf 8), (read_u64_window buf 16), (read_u64_window buf 24),
    (read_u64_window buf 32), (read_u64_window buf 40) by lia.
  unfold win. rewrite (nth_error_subarray buf 8 49 40) by lia.
  reflexivity.
Qed.

(** X13: parseBondingCurve never raises.  It returns null exactly for
    buffers shorter than 49 bytes; otherwise it returns a curve whose five
    reserves are below 2^64, and the result depends on bytes 8..48 only:
    the 8-byte discriminator is not checked and trailing bytes are ignored. *)
Theorem parseBondingCurve_spec (data data' : Buffer) :
  ((List.length data < 49)%nat -> parseBondingCurve data = Ok None) /\
  ((49 <= List.length data)%nat ->
   exists c, parseBondingCurve data = Ok (Some c) /\
     0 <= virtualTokenReserves c < 2 ^ 64 /\ 0 <= virtualSolReserves c < 2 ^ 64 /\
     0 <= realTokenReserves c < 2 ^ 64 /\ 0 <= realSolReserves c < 2 ^ 64 /\
     0 <= tokenTotalSupply c < 2 ^ 64) /\
  ((49 <= List.length data)%nat -> (49 <= List.length data')%nat ->
   subarray data' 8 49 = subarray data 8 49 ->
   parseBondingCurve data' = parseBondingCurve data).
Proof.
  split; [|split].
  - intros H. unfold parseBondingCurve.
    destruct (Nat.ltb_spec (List.length data) 49); [reflexivity | lia].
  - intros H. rewrite (parseBondingCurve_window data H). eexists. split; [reflexivity|].
    cbn [virtualTokenReserves virtualSolReserves realTokenReserves realSolReserves
         tokenTotalSupply].
    assert (B : forall i, (i + 8 <= 41)%nat ->
                 0 <= Z.of_N (le_value (subarray (subarray data 8 49) i (i + 8))) < 2 ^ 64).
    { intros i Hi.
      pose proof (le_value_bound (subarray (subarray data 8 49) i (i + 8))) as Hb.
      rewrite subarray_length in Hb by (try rewrite subarray_length; lia).
      replace (i + 8 - i)%nat with 8%nat in Hb by lia.
      change (256 ^ N.of_nat 8)%N with (2 ^ 64)%N in Hb. lia. }
    repeat split; apply B; lia.
  - intros H H' Hw.
    rewrite (parseBondingCurve_window data H), (parseBondingCurve_window data' H'), Hw.
    reflexivity.
Qed.

Lemma parseBondingCurve_spec_witness :
  parseBondingCurve (repeat x01 48) = Ok None /\
  (exists c, parseBondingCurve (repeat x01 49) = Ok (Some c) /\
             0 <= virtualSolReserves c < 2 ^ 64) /\
  parseBondingCurve (repeat x00 8 ++ repeat x01 41 ++ [x07])
  = parseBondingCurve (repeat x01 49).
Proof.
  destruct (parseBondingCurve_spec (repeat x01 48) []) as (Hshort & _ & _).
  destruct (parseBondingCurve_spec (repeat x01 49)
              (repeat x00 8 ++ repeat x01 41 ++ [x07])) as (_ & Hlong & Hwin).
  split; [apply Hshort; cbn; lia|]. split.
  - destruct Hlong as (c & Hc & _ & Hs & _); [cbn; lia|].
    exists c. split; [exact Hc | exact Hs].
  - apply Hwin; [cbn; lia | cbn; lia | reflexivity].
Defined.

(** X14: fetchBondingCurve makes one RPC call, the look-up of the curve's
    derived address.  It rejects only when that call rejects, with the same
    reason; it returns null when the account does not exist or holds fewer
    than 49 bytes, and the parsed curve otherwise. *)
Theorem fetchBondingCurve_spec (L : Web3) (w : World) (mint : PublicKey) (h : Trace) :
  let pda := getBondingCurvePDA L mint in
  let answer := w _ h (GetAccountInfo pda) in
  snd (run w (fetchBondingCurve L mint) h) = [Ev (GetAccountInfo pda) answer] /\
  match answer with
  | Rejected reason => fst (run w (fetchBondingCurve L mint) h) = Thrown reason
  | Resolved None => fst (run w (fetchBondingCurve L mint) h) = Ok None
  | Resolved (Some info) =>
      if (List.length (acc_data info) <? 49)%nat
      then fst (run w (fetchBondingCurve L mint) h) = Ok None
      else exists c, fst (run w (fetchBondingCurve L mint) h) = Ok (Some c)
  end.
Proof.
  cbv zeta. unfold fetchBondingCurve, await. cbv zeta. cbn [bind].
  rewrite run_vis. cbn [fst snd].
  destruct (w _ h (GetAccountInfo (getBondingCurvePDA L mint))) as [[info|]|reason];
    cbn [bind run fst snd ret]; (split; [reflexivity|]); try reflexivity.
  destruct (Nat.ltb_spec (List.length (acc_data info)) 49) as [Hl|Hl].
  - unfold parseBondingCurve.
    destruct (Nat.ltb_spec (List.length (acc_data info)) 49); [reflexivity | lia].
  - rewrite (parseBondingCurve_window (acc_data info) Hl). eexists. reflexivity.
Qed.

(** ** bufToU128 *)

Lemma lor_shiftl_byte r x :
  N.lor (N.shiftl r 8) (Byte.to_N x) = (r * 256 + Byte.to_N x)%N.
Proof.
  pose proof (Byte.to_N_bounded x) as Hx.
  assert (Hland : N.land (N.shiftl r 8) (Byte.to_N x) = 0%N).
  { apply N.bits_inj. intros i. rewrite N.land_spec, N.bits_0.
    destruct (N.lt_ge_cases i 8) as [Hi|Hi].
    - rewrite N.shiftl_spec_low by assumption. reflexivity.
    - rewrite <- (N.mod_small (Byte.to_N x) (2 ^ 8)) by (cbn; lia).
      rewrite N.mod_pow2_bits_high by assumption. apply andb_false_r. }
  rewrite <- N.lxor_lor by assumption.
  rewrite <- N.add_nocarry_lxor by assumption.
  rewrite N.shiftl_mul_pow2. reflexivity.
Qed.

Lemma firstn_succ_snoc {A} (l : list A) i x :
  nth_error l i = Some x -> firstn (S i) l = firstn i l ++ [x].
Proof.
  revert i. induction l as [|y l IH]; intros [|i] H; try discriminate.
  - cbn in H. injection H as ->. reflexivity.
  - cbn [nth_error] in H. rewrite !firstn_cons, (IH i H). reflexivity.
Qed.

Lemma bufToU128_from_spec buf : forall i result,
  (i <= List.length buf)%nat ->
  bufToU128_from buf i result
  = Some (result * 256 ^ N.of_nat i + le_value (firstn i buf))%N.
Proof.
  induction i as [|j IH]; intros result Hi.
  - cbn. f_equal. lia.
  - cbn [bufToU128_from].
    destruct (nth_error buf j) as [x|] eqn:Ex.
    2:{ apply nth_error_None in Ex. lia. }
    rewrite IH by lia. rewrite lor_shiftl_byte.
    rewrite (firstn_succ_snoc buf j x Ex), le_value_snoc, length_firstn.
    replace (Nat.min j (List.length buf)) with j by lia.
    rewrite Nat2N.inj_succ, N.pow_succ_r'. f_equal. lia.
Qed.

(** X15: bufToU128 reads the first 16 bytes of a buffer as a little-endian
    number below 2^128, raises on a buffer shorter than 16 bytes, and is the
    inverse of the 16-byte little-endian encoding the executor uses for the
    square-root price limit. *)
Theorem bufToU128_spec (buf : Buffer) (n : N) :
  ((16 <= List.length buf)%nat ->
   bufToU128 buf = Some (le_value (firstn 16 buf)) /\
   (le_value (firstn 16 buf) < 2 ^ 128)%N) /\
  ((List.length buf < 16)%nat -> bufToU128 buf = None) /\
  ((n < 2 ^ 128)%N -> bufToU128 (bn_le16 n) = Some n).
Proof.
  unfold bufToU128. split; [|split].
  - intros H. rewrite bufToU128_from_spec by assumption. split; [f_equal; lia|].
    pose proof (le_value_bound (firstn 16 buf)) as Hb.
    rewrite length_firstn in Hb.
    replace (Nat.min 16 (List.length buf)) with 16%nat in Hb by lia.
    exact Hb.
  - intros H. cbn [bufToU128_from].
    destruct (nth_error buf 15) eqn:E; [|reflexivity].
    assert (nth_error buf 15 <> None) by congruence.
    apply nth_error_Some in H0. lia.
  - intros H. unfold bn_le16.
    rewrite bufToU128_from_spec by (rewrite le_bytes_length; lia).
    rewrite <- (le_bytes_length 16 n) at 2. rewrite firstn_all.
    rewrite le_value_le_bytes by exact H. f_equal.
Qed.

Lemma bufToU128_spec_witness :
  bufToU128 (bn_le16 79226673515401279992447579055) = Some 79226673515401279992447579055%N /\
  bufToU128 (repeat xff 15) = None /\
  bufToU128 (repeat xff 20) = Some (le_value (repeat xff 16)).
Proof.
  destruct (bufToU128_spec (repeat xff 15) 79226673515401279992447579055)
    as (_ & Hshort & Hrt).
  destruct (bufToU128_spec (repeat xff 20) 0) as (Hlong & _ & _).
  split; [apply Hrt; reflexivity|]. split; [apply Hshort; cbn; lia|].
  apply Hlong. cbn. lia.
Defined.

(** ** Amount strings *)



(** ** Slippage and tick arrays *)

(** X17: for a slippage setting between 0 and 67098863 bps the maximum cost
    of a buy is the amount times (10000 + slippage) / 10000, rounded down: it
    is never below the amount.  From 67098864 bps on, computing it raises. *)
Theorem withSlippage_bounds (cfg : Config) (amountBN : N) :
  (0 <= slippageBps cfg < 67098864 ->
   exists maxCost, withSlippage cfg amountBN = Some maxCost /\
     (amountBN <= maxCost)%N /\
     Z.of_N maxCost * 10000 <= Z.of_N amountBN * (10000 + slippageBps cfg)
       < (Z.of_N maxCost + 1) * 10000) /\
  (67098864 <= slippageBps cfg -> withSlippage cfg amountBN = None).
Proof.
  unfold withSlippage. split.
  - intros Hs.
    destruct (N.ltb_spec (Z.abs_N (10000 + slippageBps cfg)) 67108864); [|lia].
    eexists. split; [reflexivity|].
    set (f := Z.abs_N (10000 + slippageBps cfg)) in *.
    assert (Hf : Z.of_N f = 10000 + slippageBps cfg) by (unfold f; lia).
    rewrite <- Hf.
    pose proof (N.Div0.mul_div_le (amountBN * f) 10000) as H1.
    pose proof (N.mul_succ_div_gt (amountBN * f) 10000 ltac:(lia)) as H2.
    assert (Hge : (amountBN <= amountBN * f / 10000)%N).
    { apply N.div_le_lower_bound; [lia|]. nia. }
    split; [exact Hge|]. lia.
  - intros Hs.
    destruct (N.ltb_spec (Z.abs_N (10000 + slippageBps cfg)) 67108864); [lia|].
    reflexivity.
Qed.

Lemma withSlippage_bounds_witness :
  exists maxCost, withSlippage live_config 1000000 = Some maxCost /\
                  (1000000 <= maxCost)%N.
Proof.
  destruct (withSlippage_bounds live_config 1000000) as (H & _).
  destruct H as (m & Hm & Hle & _); [cbn; lia|].
  exists m. split; [exact Hm | exact Hle].
Defined.

(** X18: for a positive tick-array spacing the start index is the largest
    multiple of the spacing that is not above the current tick, also for
    negative ticks; for spacing 0 it is not a number. *)
Theorem tickStart_spec (currentTick arraySpacing : Z) :
  (0 < arraySpacing ->
   exists start, tickStart currentTick arraySpacing = Some start /\
     start <= currentTick < start + arraySpacing /\
     start mod arraySpacing = 0) /\
  (arraySpacing = 0 -> tickStart currentTick arraySpacing = None).
Proof.
  unfold tickStart. split.
  - intros Hs. destruct (Z.eqb_spec arraySpacing 0); [lia|].
    eexists. split; [reflexivity|].
    pose proof (Z.mul_div_le currentTick arraySpacing Hs).
    pose proof (Z.mul_succ_div_gt currentTick arraySpacing Hs).
    split; [lia|]. apply Z.mod_mul. lia.
  - intros ->. reflexivity.
Qed.

Lemma tickStart_spec_witness :
  tickStart (-100) 5632 = Some (-5632) /\ tickStart 7 0 = None.
Proof.
  destruct (tickStart_spec (-100) 5632) as (H & _).
  destruct (tickStart_spec 7 0) as (_ & H0).
  split; [|apply H0; reflexivity].
  destruct H as (s & Hs & _); [lia|]. reflexivity.
Defined.

(** ** The best opportunity of a cycle *)

Lemma keepBest_fold l : forall best b,
  fold_left keepBest l (Some best) = Some b ->
  (b = best /\ forall o, In o l -> profitBps o <= profitBps best) \/
  (exists l1 l2, l = l1 ++ b :: l2 /\ profitBps best < profitBps b /\
     (forall o, In o l1 -> profitBps o < profitBps b) /\
     (forall o, In o l2 -> profitBps o <= profitBps b)).
Proof.
  induction l as [|o l IH]; intros best b H.
  - cbn in H. injection H as <-. left. split; [reflexivity|]. intros o [].
  - cbn [fold_left keepBest] in H.
    destruct (Z.ltb_spec (profitBps best) (profitBps o)) as [Hlt|Hge].
    + destruct (IH _ _ H) as [(-> & Hall) | (l1 & l2 & -> & Hb & H1 & H2)].
      * right. exists [], l. repeat split; try assumption. intros ? [].
      * right. exists (o :: l1), l2. repeat split; try assumption; [lia|].
        intros o' [<- | Hin]; [assumption | apply H1; assumption].
    + destruct (IH _ _ H) as [(-> & Hall) | (l1 & l2 & -> & Hb & H1 & H2)].
      * left. split; [reflexivity|]. intros o' [<- | Hin]; [assumption | auto].
      * right. exists (o :: l1), l2. repeat split; try assumption.
        intros o' [<- | Hin]; [lia | apply H1; assumption].
Qed.

Lemma keepBest_fold_some l : forall best, exists b, fold_left keepBest l (Some best) = Some b.
Proof.
  induction l as [|o l IH]; intros best; cbn [fold_left keepBest]; [eauto|].
  destruct (profitBps best <? profitBps o); apply IH.
Qed.

(** X19: the scan of a cycle finds nothing exactly when there is no
    opportunity; otherwise it keeps an opportunity of the list whose profit
    in bps is the largest, the first one among equals. *)
Theorem bestOpportunity_spec (opps : list ArbOpportunity) :
  match bestOpportunity opps with
  | None => opps = []
  | Some best =>
      exists l1 l2, opps = l1 ++ best :: l2 /\
        (forall o, In o l1 -> profitBps o < profitBps best) /\
        (forall o, In o l2 -> profitBps o <= profitBps best)
  end.
Proof.
  unfold bestOpportunity. destruct opps as [|o l]; [reflexivity|].
  cbn [fold_left keepBest].
  destruct (keepBest_fold_some l o) as (b & Hb). rewrite Hb.
  destruct (keepBest_fold l o b Hb) as [(-> & Hall) | (l1 & l2 & -> & Hlt & H1 & H2)].
  - exists [], l. repeat split; [intros ? [] | assumption].
  - exists (o :: l1), l2. repeat split; try assumption.
    intros o' [<- | Hin]; [assumption | apply H1; assumption].
Qed.

(** ** The executor *)

Section WithLibraries.

Context (L : Web3) (cfg : Config).

(** X20: in dry-run mode an opportunity that is not suppressed is answered
    with true without any RPC call: nothing is simulated or sent, the
    execution is counted and its expected profit is added to the total. *)
Theorem execute_dry_run (w : World) (this : Executor) (opp : ArbOpportunity)
  (h : Trace) :
  dryRun cfg = true ->
  is_duplicate this (dedupKey L opp) (w Z h Now) = false ->
  let this1 := stamp this (dedupKey L opp) (w Z h Now) in
  fst (run w (execute L cfg this opp) h) = Ok (true, recordExecution this1 opp) /\
  filter is_rpc (snd (run w (execute L cfg this opp) h)) = [] /\
  executionCount (recordExecution this1 opp) = (executionCount this + 1)%N /\
  totalProfit (recordExecution this1 opp)
  = dadd (totalProfit this) (expectedProfit opp).
Proof.
  intros Hdry Hd this1. unfold execute.
  change (bind (perform Now) ?f) with (Vis Now f).
  rewrite run_vis. cbn [fst snd]. rewrite Hd, Hdry. fold this1.
  repeat (change (bind (log ?m) ?f) with (Vis (Log m) f); cbv beta;
          rewrite run_vis; cbn [fst snd]).
  cbn [run ret fst snd filter is_rpc].
  repeat split.
Qed.

Lemma arb_result_determines_state this opp path n b t :
  ArbPath this opp path n (Ok (b, t)) ->
  t = if b then recordExecution this opp else this.
Proof. intros H. inversion H; subst; reflexivity. Qed.

Lemma liveExecution_state this opp v :
  v = {| marks := []; simulated := 0; sent := 0 |} ->
  Sat observe_step
      (fun _ r => exists b : bool,
           r = Ok (b, if b then recordExecution this opp else this))
      v (liveExecution L cfg this opp).
Proof.
  intros ->. unfold liveExecution.
  eapply Sat_try_catch; [apply executeArb_paths | |].
  - intros v' [b t] (n & Hp & _). exists b.
    rewrite (arb_result_determines_state _ _ _ _ _ _ Hp). reflexivity.
  - intros v' e _. unfold catchBlock. apply Sat_bind_log. cbn.
    exists false. reflexivity.
Qed.

Lemma execute_body_state this opp v :
  v = {| marks := []; simulated := 0; sent := 0 |} ->
  Sat observe_step
      (fun _ r => exists b : bool,
           r = Ok (b, if b then recordExecution this opp else this))
      v
      (log (LOpportunity (type opp)) ;;;
       log (LBuy (dex (buyPool opp)) (poolType (buyPool opp))
              (substring 0 8 (toBase58 L (address (buyPool opp))))) ;;;
       log (LSell (dex (sellPool opp)) (poolType (sellPool opp))
              (substring 0 8 (toBase58 L (address (sellPool opp))))) ;;;
       log (LSize (ddiv (opp_inputAmount opp) (ofZ 1000000000))) ;;;
       log (LProfit (ddiv (expectedProfit opp) (ofZ 1000000000)) (profitBps opp)) ;;;
       if dryRun cfg
       then log LDryRun ;;; ret (true, recordExecution this opp)
       else liveExecution L cfg this opp).
Proof.
  intros ->.
  do 5 (apply Sat_bind_log; cbn [observe_step arb_mark is_simulation is_send app]).
  destruct (dryRun cfg).
  - apply Sat_bind_log. cbn. exists true. reflexivity.
  - apply liveExecution_state. reflexivity.
Qed.

(** X21: the state of the executor after a call of execute is determined by
    the boolean it returns.  The execution count grows by one exactly when
    the call returns true, and then the opportunity's expected profit is
    added to the total; a suppressed call returns false and changes
    nothing; every other call, also one that fails or throws, leaves the
    opportunity's key and the time of the call as the last execution. *)
Theorem execute_result_state (w : World) (this : Executor) (opp : ArbOpportunity)
  (h : Trace) :
  exists (b : bool) (t : Executor),
    fst (run w (execute L cfg this opp) h) = Ok (b, t) /\
    executionCount t = (executionCount this + (if b then 1 else 0))%N /\
    totalProfit t = (if b then dadd (totalProfit this) (expectedProfit opp)
                     else totalProfit this) /\
    (if is_duplicate this (dedupKey L opp) (w Z h Now)
     then b = false /\ t = this
     else lastExecution t = Some (dedupKey L opp, w Z h Now)).
Proof.
  destruct (is_duplicate this (dedupKey L opp) (w Z h Now)) eqn:Hd.
  - exists false, this. rewrite (execute_duplicate L cfg w this opp h Hd). cbn [fst].
    repeat split. lia.
  - unfold execute.
    change (bind (perform Now) ?f) with (Vis Now f).
    rewrite run_vis. cbn [fst snd]. rewrite Hd.
    set (this1 := stamp this (dedupKey L opp) (w Z h Now)).
    match goal with |- context [run w ?p ?h'] =>
      pose proof (Sat_run observe_step _ w p _ h'
                    (execute_body_state this1 opp _ eq_refl)) as (b & Hr)
    end.
    exists b, (if b then recordExecution this1 opp else this1).
    split; [exact Hr|]. destruct b; cbn; repeat split; lia.
Qed.

(** X22: the cooldown ends after 30000 ms and covers one key only: a first
    call, a call with another key than the last execution, and a call at
    least 30000 ms after it are not suppressed; each announces the
    opportunity and becomes the last execution. *)
Theorem execute_not_suppressed (w : World) (this : Executor) (opp : ArbOpportunity)
  (h : Trace) :
  match lastExecution this with
  | Some (key, ts) => key <> dedupKey L opp \/ 30000 <= w Z h Now - ts
  | None => True
  end ->
  In (Ev (Log (LOpportunity (type opp))) tt) (snd (run w (execute L cfg this opp) h)) /\
  exists b t, fst (run w (execute L cfg this opp) h) = Ok (b, t) /\
              lastExecution t = Some (dedupKey L opp, w Z h Now).
Proof.
  intros Hlast.
  assert (Hd : is_duplicate this (dedupKey L opp) (w Z h Now) = false).
  { unfold is_duplicate. destruct (lastExecution this) as [[key ts]|]; [|reflexivity].
    destruct Hlast as [Hk | Ht].
    - apply String.eqb_neq in Hk. rewrite Hk. reflexivity.
    - apply andb_false_iff. right. apply Z.ltb_ge. exact Ht. }
  destruct (execute_fresh L cfg w this opp h Hd) as (b & t & Hr & Ht & Hin).
  split; [exact Hin|]. exists b, t. split; assumption.
Qed.

(** X23: the loop that ensures the associated token accounts looks up each
    account once, in order, and appends a create instruction for exactly
    the accounts whose look-up returned null, leaving the rest of the
    transaction as it was; it stops with the reason at the first look-up
    that rejects. *)
Theorem ensureAtas_spec (w : World) (pairs : list (PublicKey * PublicKey)) :
  forall (tx : Transaction) (h : Trace),
  match fst (run w (ensureAtas cfg pairs tx) h) with
  | Ok tx' =>
      exists infos,
        List.length infos = List.length pairs /\
        snd (run w (ensureAtas cfg pairs tx) h) = ata_lookups pairs infos /\
        instructions tx' = instructions tx ++ missing_atas (wallet cfg) pairs infos /\
        feePayer tx' = feePayer tx /\ recentBlockhash tx' = recentBlockhash tx
  | Thrown reason =>
      exists infos,
        (List.length infos < List.length pairs)%nat /\
        snd (run w (ensureAtas cfg pairs tx) h)
        = ata_lookups pairs infos
          ++ [Ev (GetAccountInfo (snd (nth (List.length infos) pairs (0%N, 0%N))))
                (Rejected reason)]
  end.
Proof.
  induction pairs as [|[mint a] rest IH]; intros tx h.
  - cbn. exists []. repeat split. rewrite app_nil_r. reflexivity.
  - cbn [ensureAtas]. unfold await. cbn [bind]. rewrite run_vis. cbn [fst snd].
    destruct (w _ h (GetAccountInfo a)) as [info|reason]; cbn [bind].
    + match goal with |- context [run w (ensureAtas cfg rest ?tx2) ?h2] =>
        specialize (IH tx2 h2);
        destruct (fst (run w (ensureAtas cfg rest tx2) h2)) as [tx'|reason]
      end.
      * destruct IH as (infos & Hlen & Hev & Hix & Hfp & Hbh).
        exists (info :: infos). cbn [List.length]. split; [lia|].
        split; [rewrite Hev; reflexivity|].
        rewrite Hix, Hfp, Hbh.
        destruct info; cbn; rewrite <- ?app_assoc; repeat split.
      * destruct IH as (infos & Hlen & Hev).
        exists (info :: infos). cbn [List.length]. split; [lia|].
        rewrite Hev. reflexivity.
    + exists []. split; [cbn [List.length]; lia | reflexivity].
Qed.

End WithLibraries.

Lemma execute_dry_run_witness :
  let cfg := {| dryRun := true; slippageBps := 100; wallet_publicKey := 5%N |} in
  let opp := sample_opportunity 1 2 in
  let r := run (offline_world 1000) (execute toy_web3 cfg new_Executor opp) [] in
  fst r = Ok (true, recordExecution (stamp new_Executor (dedupKey toy_web3 opp) 1000) opp)
  /\ filter is_rpc (snd r) = [].
Proof.
  cbv zeta.
  destruct (execute_dry_run toy_web3
              {| dryRun := true; slippageBps := 100; wallet_publicKey := 5%N |}
              (offline_world 1000) new_Executor (sample_opportunity 1 2) [])
    as (H1 & H2 & _); [reflexivity | reflexivity |].
  split; [exact H1 | exact H2].
Defined.

Lemma execute_not_suppressed_witness :
  let w := offline_world 40000 in
  let opp := sample_opportunity 1 2 in
  exists b t, fst (run w (execute toy_web3 live_config busy_executor opp) []) = Ok (b, t) /\
              lastExecution t = Some (dedupKey toy_web3 opp, 40000).
Proof.
  cbv zeta.
  destruct (execute_not_suppressed toy_web3 live_config (offline_world 40000)
              busy_executor (sample_opportunity 1 2) []) as (_ & H).
  - right. cbn. lia.
  - exact H.
Defined.

(** ** What the builders hand to the simulation *)

Lemma record_simulated_fold evs : forall s,
  fold_left record_simulated evs s = s ++ simulated_txs evs.
Proof.
  induction evs as [|en evs IH]; intros s; cbn [fold_left simulated_txs flat_map].
  - symmetry. apply app_nil_r.
  - rewrite IH. unfold record_simulated. rewrite <- app_assoc. reflexivity.
Qed.

Lemma raw_instructions_tx_add tx ixs :
  raw_instructions (tx_add tx ixs)
  = raw_instructions tx ++ flat_map raw_instruction ixs.
Proof. unfold raw_instructions, tx_add. cbn [instructions]. apply flat_map_app. Qed.

Lemma bn_le8_some n b :
  bn_le8 n = Some b -> (n < 2 ^ 64)%N /\ b = le_bytes 8 n.
Proof.
  unfold bn_le8. destruct (N.ltb_spec n (2 ^ 64)); [|discriminate].
  intros [= <-]. split; [assumption | reflexivity].
Qed.

Lemma read_u64_encoded pre b post off n :
  List.length pre = off -> bn_le8 n = Some b ->
  readBigUInt64LE (pre ++ b ++ post) off = Some n.
Proof.
  intros <- Hb. apply bn_le8_some in Hb. destruct Hb as (Hn & ->).
  unfold readBigUInt64LE.
  rewrite read_le_in_range by (rewrite !length_app, le_bytes_length; lia).
  pose proof (subarray_middle pre (le_bytes 8 n) post) as Hm.
  rewrite le_bytes_length in Hm. rewrite Hm.
  rewrite le_value_le_bytes; [reflexivity|].
  change (256 ^ N.of_nat 8)%N with (2 ^ 64)%N. assumption.
Qed.

Lemma read_first_field disc b post n :
  bn_le8 n = Some b ->
  readBigUInt64LE (disc ++ b ++ post) (List.length disc) = Some n.
Proof. intros H. apply read_u64_encoded; [reflexivity | exact H]. Qed.

Lemma read_second_field disc b1 b post m n :
  bn_le8 m = Some b1 -> bn_le8 n = Some b ->
  readBigUInt64LE (disc ++ b1 ++ b ++ post) (List.length disc + 8) = Some n.
Proof.
  intros H1 H. rewrite app_assoc. apply read_u64_encoded; [|exact H].
  apply bn_le8_some in H1. destruct H1 as (_ & ->).
  rewrite length_app, le_bytes_length. reflexivity.
Qed.

Lemma read_last_field disc b1 b m n :
  bn_le8 m = Some b1 -> bn_le8 n = Some b ->
  readBigUInt64LE (disc ++ b1 ++ b) (List.length disc + 8) = Some n.
Proof.
  intros H1 H. rewrite <- (app_nil_r b). apply (read_second_field _ _ _ _ m); assumption.
Qed.

Section WithLibraries.

Context (L : Web3) (cfg : Config).

Lemma ensureAtas_keeps_raw pairs : forall tx,
  Sat record_simulated (keeps_raw tx) [] (ensureAtas cfg pairs tx).
Proof.
  induction pairs as [|[mint a] rest IH]; intros tx; cbn [ensureAtas].
  - cbn. split; [reflexivity|]. intros tx' [= <-]. reflexivity.
  - apply Sat_bind_await; cbn [record_simulated simulated_tx app].
    + intros info. eapply Sat_weaken; [apply IH|].
      intros s r (-> & H). split; [reflexivity|]. intros tx' Hr.
      rewrite (H tx' Hr). destruct info; [reflexivity|].
      rewrite raw_instructions_tx_add. cbn. apply app_nil_r.
    + intros r. split; [reflexivity|]. discriminate.
Qed.

Lemma wrapSol_keeps_raw amount account tx :
  Sat record_simulated (keeps_raw tx) [] (wrapSol cfg amount account tx).
Proof.
  unfold wrapSol. apply Sat_bind_orThrow.
  - intros lamports _. cbn. split; [reflexivity|]. intros tx' [= <-].
    rewrite raw_instructions_tx_add. cbn. apply app_nil_r.
  - intros _. split; [reflexivity|]. discriminate.
Qed.

Lemma maybe_wrapSol_keeps_raw (c : bool) amount account tx :
  Sat record_simulated (keeps_raw tx) []
      (if c then wrapSol cfg amount account tx else ret tx).
Proof.
  destruct c; [apply wrapSol_keeps_raw|].
  cbn. split; [reflexivity|]. intros tx' [= <-]. reflexivity.
Qed.

Lemma closing_simulated (P : Transaction -> Prop) v tail tx :
  (forall bh, P {| instructions := instructions tx; feePayer := Some (wallet cfg);
                   recentBlockhash := Some bh |}) ->
  Sat record_simulated (fun s _ => Forall P s) [] (simulateSignSend cfg v tail tx).
Proof.
  intros H.
  unfold simulateSignSend, sendAndConfirm, logSimLogs, await, log, perform.
  cbn. intros [bh|e]; cbn; [|constructor].
  assert (HP : Forall P [{| instructions := instructions tx;
                            feePayer := Some (wallet cfg);
                            recentBlockhash := Some bh |}])
    by (constructor; [apply H | constructor]).
  intros [r|e]; cbn; [|exact HP].
  destruct (sim_err r) as [err|]; cbn.
  - intros []. destruct (sim_logs r); cbn; [intros []|]; exact HP.
  - intros [raw|e]; cbn; [|exact HP].
    intros [sig|e]; cbn; [|exact HP].
    intros []. cbn.
    intros [[err|]|e]; cbn; try intros []; exact HP.
Qed.

Ltac sim_leaf := solve [ cbn; constructor ].

Ltac sim_await x :=
  apply Sat_bind_await; cbn [record_simulated simulated_tx app];
  [ intros x | intros ?; sim_leaf ].

Ltac sim_orThrow x H :=
  apply Sat_bind_orThrow; [ intros x H | intros _; sim_leaf ].

Ltac sim_log := apply Sat_bind_log; cbn [record_simulated simulated_tx app].

Ltac sim_tx tx H :=
  eapply (Sat_bind record_simulated (keeps_raw _));
  [ first [ apply ensureAtas_keeps_raw | apply maybe_wrapSol_keeps_raw ]
  | intros ? tx (-> & H); specialize (H _ eq_refl)
  | intros ? ? (-> & _); sim_leaf ].

Ltac swap_fields_plain disc post Hle :=
  unfold swap_fields; cbn [is_pump_buy amount_offset Nat.add];
  split;
  [ exact (read_first_field disc _ _ _ Hle)
  | exact (read_second_field disc _ (le_bytes 8 0) post _ 0 Hle eq_refl) ].

Lemma swapViaRaydiumRaw_simulated i o a p :
  Sat record_simulated (fun s _ => Forall (carries_swap L cfg VRaydium i a) s) []
      (swapViaRaydiumRaw L cfg i o a p).
Proof.
  unfold swapViaRaydiumRaw, ata. cbv zeta.
  sim_await acct. destruct acct as [acct|]; [|sim_log; sim_leaf].
  sim_await macct. destruct macct as [macct|]; [|sim_log; sim_leaf].
  sim_orThrow nonce Hnonce. sim_orThrow vaultSigner Hsigner.
  sim_orThrow src Hsrc. sim_orThrow dst Hdst.
  sim_tx tx1 Htx1. sim_tx tx2 Htx2.
  sim_orThrow n Hbn. sim_orThrow amountLE Hle.
  apply closing_simulated. intros bh.
  match goal with |- carries_swap _ _ _ _ _ {| instructions := instructions ?t |} =>
    assert (Hraw : exists keys, raw_instructions t
                   = [(RAYDIUM_AMM L, keys, [x09] ++ amountLE ++ le_bytes 8 0)])
  end.
  { destruct (pk_equals o (SOL_MINT L));
      rewrite ?raw_instructions_tx_add, Htx2, Htx1, raw_instructions_tx_add;
      cbn; eexists; reflexivity. }
  destruct Hraw as (keys & Hraw).
  exists keys, ([x09] ++ amountLE ++ le_bytes 8 0), n.
  split; [exact Hraw|]. split; [reflexivity|]. split; [exact Hbn|].
  swap_fields_plain [x09] (@nil byte) Hle.
Qed.

Lemma swapViaCpmm_simulated i o a p :
  Sat record_simulated (fun s _ => Forall (carries_swap L cfg VCpmm i a) s) []
      (swapViaCpmm L cfg i o a p).
Proof.
  unfold swapViaCpmm, ata. cbv zeta.
  sim_await acct. destruct acct as [acct|]; [|sim_log; sim_leaf].
  sim_orThrow src Hsrc. sim_orThrow dst Hdst.
  sim_await inInfo. sim_await outInfo.
  sim_tx tx1 Htx1. sim_tx tx2 Htx2.
  sim_orThrow n Hbn. sim_orThrow amountLE Hle.
  apply closing_simulated. intros bh.
  set (data := [x8f; xbe; x5a; xda; xc4; x1e; x33; xde] ++ amountLE ++ le_bytes 8 0).
  match goal with |- carries_swap _ _ _ _ _ {| instructions := instructions ?t |} =>
    assert (Hraw : exists keys, raw_instructions t = [(CPMM_PROGRAM L, keys, data)])
  end.
  { destruct (pk_equals o (SOL_MINT L));
      rewrite ?raw_instructions_tx_add, Htx2, Htx1, raw_instructions_tx_add;
      cbn; eexists; reflexivity. }
  destruct Hraw as (keys & Hraw).
  exists keys, data, n.
  split; [exact Hraw|]. split; [reflexivity|]. split; [exact Hbn|].
  unfold data.
  swap_fields_plain [x8f; xbe; x5a; xda; xc4; x1e; x33; xde] (@nil byte) Hle.
Qed.

Lemma swapViaOrca_simulated i o a p :
  Sat record_simulated (fun s _ => Forall (carries_swap L cfg VOrca i a) s) []
      (swapViaOrca L cfg i o a p).
Proof.
  unfold swapViaOrca, ata. cbv zeta.
  sim_await acct. destruct acct as [acct|]; [|sim_log; sim_leaf].
  sim_orThrow tickSpacing Hts. sim_orThrow currentTick Hct.
  sim_await taInfos.
  match goal with |- context [if negb ?c then _ else _] => destruct c end;
    cbn [negb]; [|sim_log; sim_leaf].
  sim_orThrow ataA HataA. sim_orThrow ataB HataB.
  sim_tx tx1 Htx1. sim_tx tx2 Htx2.
  sim_orThrow n Hbn. sim_orThrow amountLE Hle.
  apply closing_simulated. intros bh.
  match goal with
  | |- carries_swap _ _ _ _ _
         {| instructions := instructions
              (if _ then tx_add (tx_add _ [RawInstruction _ _ ?d]) _ else _) |} =>
      set (data := d)
  end.
  match goal with |- carries_swap _ _ _ _ _ {| instructions := instructions ?t |} =>
    assert (Hraw : exists keys, raw_instructions t = [(ORCA_WHIRLPOOL L, keys, data)])
  end.
  { destruct (pk_equals o (SOL_MINT L) && negb (pk_equals i (SOL_MINT L)));
      rewrite ?raw_instructions_tx_add, Htx2, Htx1, raw_instructions_tx_add;
      cbn; eexists; reflexivity. }
  destruct Hraw as (keys & Hraw).
  exists keys, data, n.
  split; [exact Hraw|]. split; [reflexivity|]. split; [exact Hbn|].
  unfold data.
  match goal with
  | |- swap_fields _ _ _ _ _ (_ :: _ :: _ :: _ :: _ :: _ :: _ :: _ :: _ ++ _ ++ ?post) =>
      swap_fields_plain [xf8; xc6; x9e; x91; xe1; x75; x87; xc8] post Hle
  end.
Qed.

Lemma U64_MAX_le8 : bn_le8 U64_MAX = Some (le_bytes 8 U64_MAX).
Proof. reflexivity. Qed.

Ltac pump_throw := intros _; split; [reflexivity | discriminate].

Lemma swapViaPumpFun_simulated i o a p :
  Sat record_simulated (fun s _ => Forall (carries_swap L cfg VPumpFun i a) s) []
      (swapViaPumpFun L cfg i o a p).
Proof.
  unfold swapViaPumpFun, ata. cbv zeta.
  sim_orThrow userAta Hata.
  sim_await ataInfo.
  sim_orThrow n Hbn.
  eapply (Sat_bind record_simulated (pump_data_ok L cfg VPumpFun i n)).
  - unfold pump_data_ok, swap_fields. cbn [is_pump_buy amount_offset Nat.add].
    destruct (pk_equals i (SOL_MINT L)).
    + apply Sat_bind_orThrow; [intros maxCost Hmax | pump_throw].
      apply Sat_bind_orThrow; [intros tokensLE Htok | pump_throw].
      apply Sat_bind_orThrow; [intros costLE Hcost | pump_throw].
      cbn. split; [reflexivity|]. intros d [= <-]. split.
      * exact (read_first_field [x66; x06; x3d; x12; x01; xda; xeb; xea] _ _ _ Htok).
      * exists maxCost. split; [exact Hmax|].
        exact (read_last_field [x66; x06; x3d; x12; x01; xda; xeb; xea]
                 _ _ _ _ Htok Hcost).
    + apply Sat_bind_orThrow; [intros amountLE Hle | pump_throw].
      cbn. split; [reflexivity|]. intros d [= <-]. split.
      * exact (read_first_field [x33; xe6; x85; xa4; x01; x7f; x83; xad] _ _ _ Hle).
      * exact (read_second_field [x33; xe6; x85; xa4; x01; x7f; x83; xad]
                 _ (le_bytes 8 0) (@nil byte) _ 0 Hle eq_refl).
  - intros ? data (-> & Hdata). specialize (Hdata _ eq_refl).
    apply closing_simulated. intros bh.
    match goal with |- carries_swap _ _ _ _ _ {| instructions := instructions ?t |} =>
      assert (Hraw : exists keys, raw_instructions t = [(PUMPFUN_PROGRAM L, keys, data)])
    end.
    { destruct ataInfo; rewrite !raw_instructions_tx_add; cbn; eexists; reflexivity. }
    destruct Hraw as (keys & Hraw).
    exists keys, data, n.
    split; [exact Hraw|]. split; [reflexivity|]. split; [exact Hbn | exact Hdata].
  - intros ? ? (-> & _). sim_leaf.
Qed.

Lemma swapViaPumpSwap_simulated i o a p :
  Sat record_simulated (fun s _ => Forall (carries_swap L cfg VPumpSwap i a) s) []
      (swapViaPumpSwap L cfg i o a p).
Proof.
  unfold swapViaPumpSwap, ata. cbv zeta.
  sim_await acct. destruct acct as [acct|]; [|sim_log; sim_leaf].
  destruct (parsePumpSwapPool (address p) (acc_data acct)) as [poolData|];
    [|sim_log; sim_leaf].
  sim_orThrow userBase Hub. sim_orThrow userQuote Huq.
  sim_orThrow feeBase Hfb. sim_orThrow feeQuote Hfq.
  sim_tx tx1 Htx1. sim_tx tx2 Htx2.
  sim_orThrow n Hbn.
  eapply (Sat_bind record_simulated (pump_data_ok L cfg VPumpSwap i n)).
  - unfold pump_data_ok, swap_fields. cbn [is_pump_buy amount_offset Nat.add].
    destruct (pk_equals i (SOL_MINT L)).
    + apply Sat_bind_orThrow; [intros maxCost Hmax | pump_throw].
      apply Sat_bind_orThrow; [intros tokensLE Htok | pump_throw].
      apply Sat_bind_orThrow; [intros costLE Hcost | pump_throw].
      cbn. split; [reflexivity|]. intros d [= <-]. split.
      * exact (read_first_field [x66; x06; x3d; x12; x01; xda; xeb; xea] _ _ _ Htok).
      * exists maxCost. split; [exact Hmax|].
        exact (read_second_field [x66; x06; x3d; x12; x01; xda; xeb; xea]
                 _ _ [x01] _ _ Htok Hcost).
    + apply Sat_bind_orThrow; [intros amountLE Hle | pump_throw].
      cbn. split; [reflexivity|]. intros d [= <-]. split.
      * exact (read_first_field [x33; xe6; x85; xa4; x01; x7f; x83; xad] _ _ _ Hle).
      * exact (read_second_field [x33; xe6; x85; xa4; x01; x7f; x83; xad]
                 _ (le_bytes 8 0) (@nil byte) _ 0 Hle eq_refl).
  - intros ? data (-> & Hdata). specialize (Hdata _ eq_refl).
    sim_await baseInfo. sim_await quoteInfo.
    apply closing_simulated. intros bh.
    match goal with |- carries_swap _ _ _ _ _ {| instructions := instructions ?t |} =>
      assert (Hraw : exists keys, raw_instructions t = [(PUMPSWAP_PROGRAM L, keys, data)])
    end.
    { destruct (pk_equals i (SOL_MINT L)); cbn [negb];
        rewrite ?raw_instructions_tx_add, Htx2, Htx1, raw_instructions_tx_add;
        cbn; eexists; reflexivity. }
    destruct Hraw as (keys & Hraw).
    exists keys, data, n.
    split; [exact Hraw|]. split; [reflexivity|]. split; [exact Hbn | exact Hdata].
  - intros ? ? (-> & _). sim_leaf.
Qed.

(** X24: every transaction a builder hands to the simulation is paid by the
    wallet and holds exactly one hand-built instruction, addressed to the
    venue's program.  After its discriminator that instruction carries the
    amount of the leg and a minimum output of zero; for a buy on pump.fun or
    PumpSwap it carries the largest 64-bit token amount and, as maximum cost,
    the amount with the configured slippage added. *)
Theorem swap_instruction_simulated (v : Venue) (inMint outMint : PublicKey)
  (amount : AmountStr) (p : PoolInfo) (w : World) (h : Trace) :
  Forall (carries_swap L cfg v inMint amount)
         (simulated_txs (snd (run w (swapVia L cfg v inMint outMint amount p) h))).
Proof.
  assert (H : Sat record_simulated
                (fun s _ => Forall (carries_swap L cfg v inMint amount) s) []
                (swapVia L cfg v inMint outMint amount p)).
  { destruct v; cbn [swapVia];
      first [ apply swapViaRaydiumRaw_simulated | apply swapViaCpmm_simulated
            | apply swapViaOrca_simulated | apply swapViaPumpFun_simulated
            | apply swapViaPumpSwap_simulated ]. }
  pose proof (Sat_run record_simulated _ w _ [] h H) as Hr.
  rewrite record_simulated_fold in Hr. exact Hr.
Qed.

(** X25: a sell leg of a token other than SOL, on whatever pool, hands to
    the simulation only transactions whose single hand-built instruction
    carries the token amount of the leg and a minimum output of zero. *)
Theorem sell_leg_minimum_output (mint : PublicKey) (amount : AmountStr)
  (p : PoolInfo) (w : World) (h : Trace) :
  mint <> SOL_MINT L ->
  Forall (fun tx =>
            exists v keys data n,
              raw_instructions tx = [(program_of L v, keys, data)] /\
              bn_of amount = Some n /\
              readBigUInt64LE data (amount_offset v) = Some n /\
              readBigUInt64LE data (amount_offset v + 8) = Some 0%N)
         (simulated_txs (snd (run w (executeSellLeg L cfg mint amount p) h))).
Proof.
  intros Hmint.
  assert (Hsol : pk_equals mint (SOL_MINT L) = false)
    by (apply N.eqb_neq; exact Hmint).
  assert (H : exists v, Sat record_simulated
                (fun s _ => Forall (carries_swap L cfg v mint amount) s) []
                (executeSellLeg L cfg mint amount p)).
  { unfold executeSellLeg. destruct (dex p); [destruct (poolType p)| | |];
      eexists;
      first [ apply swapViaRaydiumRaw_simulated | apply swapViaCpmm_simulated
            | apply swapViaOrca_simulated | apply swapViaPumpFun_simulated
            | apply swapViaPumpSwap_simulated ]. }
  destruct H as (v & H).
  pose proof (Sat_run record_simulated _ w _ [] h H) as Hr.
  rewrite record_simulated_fold in Hr. cbn [app] in Hr.
  eapply Forall_impl; [|exact Hr].
  intros tx (keys & data & n & Hraw & _ & Hbn & Hf).
  exists v, keys, data, n. split; [exact Hraw|]. split; [exact Hbn|].
  unfold swap_fields in Hf.
  replace (is_pump_buy L v mint) with false in Hf
    by (destruct v; cbn [is_pump_buy]; congruence).
  exact Hf.
Qed.

End WithLibraries.

(** A sale of 5 tokens on a pump.fun curve, every call succeeding. *)
Lemma sell_leg_minimum_output_witness :
  let evs := snd (run (scripted_world 9 1000)
                    (executeSellLeg toy_web3 live_config 777%N (AInt 5) (curve_pool 1)) []) in
  List.length (simulated_txs evs) = 1%nat /\
  Forall (fun tx =>
            exists v keys data n,
              raw_instructions tx = [(program_of toy_web3 v, keys, data)] /\
              bn_of (AInt 5) = Some n /\
              readBigUInt64LE data (amount_offset v) = Some n /\
              readBigUInt64LE data (amount_offset v + 8) = Some 0%N)
         (simulated_txs evs).
Proof.
  cbv zeta. split; [vm_compute; reflexivity|].
  apply sell_leg_minimum_output. vm_compute. discriminate.
Defined.

(** ** The two quotes of a bonding-curve pool *)

(** X26: a bonding curve is listed as a pool with its virtual SOL and token
    reserves and a fee of 100 bps.  In the exact regime the pool quote for
    buying with an amount of SOL and the bonding-curve buy quote of the same
    amount are close: the curve quote is at most one unit above the pool
    quote, and for an amount that is a multiple of 100 it is not below it
    (the pool quote rounds the output down, the curve quote rounds the
    remaining reserve down). *)
Theorem bonding_quote_near_pool_quote (curve : BondingCurveData) (ain vs vt : N) :
  virtualSolReserves curve = Z.of_N vs ->
  virtualTokenReserves curve = Z.of_N vt ->
  exact_regime ain vs vt 100 = true ->
  exists (pm : N) (gb : Z),
    getAmountOut (ofN ain) (ofN vs) (ofN vt) 100 = ofN pm /\
    getBuyQuote curve (Z.of_N ain) = Some gb /\
    gb <= Z.of_N pm + 1 /\
    ((ain mod 100 = 0)%N -> Z.of_N pm <= gb).
Proof.
  intros Hs Ht Hreg.
  destruct (regime_bounds _ _ _ _ Hreg) as (_ & Hvs & _).
  exists (exact_out ain vs vt 100).
  pose proof (getBuyQuote_value curve (Z.of_N ain) ltac:(lia) ltac:(lia) ltac:(lia))
    as Hgb.
  rewrite Hs, Ht in Hgb.
  destruct (after_fee_bounds (Z.of_N ain) ltac:(lia)) as ((Hfee0 & _) & _).
  pose proof (Z.mul_div_le (Z.of_N vt * Z.of_N vs) (Z.of_N vs + after_fee (Z.of_N ain))
                ltac:(lia)) as Hq1.
  pose proof (Z.mul_succ_div_gt (Z.of_N vt * Z.of_N vs)
                (Z.of_N vs + after_fee (Z.of_N ain)) ltac:(lia)) as Hq2.
  set (q := Z.of_N vt * Z.of_N vs / (Z.of_N vs + after_fee (Z.of_N ain))) in *.
  exists (Z.of_N vt - q). split; [apply getAmountOut_exact; assumption|].
  split; [exact Hgb|].
  clearbody q. clear Hgb. set (gb := Z.of_N vt - q) in *.
  assert (Hk1 : (Z.of_N vs + after_fee (Z.of_N ain)) * (Z.of_N vt - gb)
                <= Z.of_N vt * Z.of_N vs) by (unfold gb; nia).
  assert (Hk2 : Z.of_N vt * Z.of_N vs
                < (Z.of_N vs + after_fee (Z.of_N ain)) * (Z.of_N vt - gb + 1))
    by (unfold gb; nia).
  clearbody gb. clear Hq1 Hq2 Hfee0.
  destruct (after_fee_bounds (Z.of_N ain) ltac:(lia)) as ((Ha0 & _) & (Ha1 & Ha2)).
  assert (Hmul : (ain mod 100 = 0)%N -> 100 * after_fee (Z.of_N ain) = 99 * Z.of_N ain).
  { intros Hmod. unfold after_fee. rewrite quot_nonneg by lia.
    apply N.Div0.mod_divides in Hmod. destruct Hmod as (m & ->).
    rewrite N2Z.inj_mul. change (Z.of_N 100) with 100.
    replace (100 * Z.of_N m * 99) with (Z.of_N m * 99 * 100) by lia.
    rewrite Z.div_mul by lia. lia. }
  set (a' := after_fee (Z.of_N ain)) in *.
  destruct (exact_out_spec ain vs vt 100 Hvs) as (Hlo & Hhi).
  cbv zeta in Hlo, Hhi. unfold scaled_in in Hlo, Hhi.
  change (Z.to_N (10000 - 100)) with 9900%N in *.
  set (pm := exact_out ain vs vt 100) in *. clearbody pm a'.
  split.
  - destruct (Z.le_gt_cases gb (Z.of_N pm + 1)) as [|Hgt]; [assumption|]. exfalso.
    assert (H2 : (Z.of_N pm + 1) * (Z.of_N vs + a') < Z.of_N vt * a') by nia.
    assert (H4 : 0 <= Z.of_N vt - (Z.of_N pm + 1)) by nia.
    assert (H5 : (Z.of_N vt - (Z.of_N pm + 1)) * (100 * a')
                 <= (Z.of_N vt - (Z.of_N pm + 1)) * (99 * Z.of_N ain))
      by (apply Z.mul_le_mono_nonneg_l; lia).
    nia.
  - intros Hmod. specialize (Hmul Hmod).
    destruct (Z.le_gt_cases (Z.of_N pm) gb) as [|Hgt]; [assumption|]. exfalso.
    assert (H1 : Z.of_N vt * Z.of_N vs
                 < (Z.of_N vs + a') * (Z.of_N vt - Z.of_N pm + 1)) by nia.
    nia.
Qed.

Lemma bonding_quote_near_pool_quote_witness :
  let curve := {| virtualTokenReserves := 1000000; virtualSolReserves := 30000;
                  realTokenReserves := 800000; realSolReserves := 1;
                  tokenTotalSupply := 1000000; complete := false |} in
  exists (pm : N) (gb : Z),
    getAmountOut (ofN 1000) (ofN 30000) (ofN 1000000) 100 = ofN pm /\
    getBuyQuote curve 1000 = Some gb /\ Z.of_N pm <= gb <= Z.of_N pm + 1.
Proof.
  cbv zeta.
  destruct (bonding_quote_near_pool_quote
              {| virtualTokenReserves := 1000000; virtualSolReserves := 30000;
                 realTokenReserves := 800000; realSolReserves := 1;
                 tokenTotalSupply := 1000000; complete := false |}
              1000 30000 1000000)
    as (pm & gb & Hpm & Hgb & Hup & Hlow);
    [reflexivity | reflexivity | vm_compute; reflexivity |].
  exists pm, gb. split; [exact Hpm|]. split; [exact Hgb|].
  split; [apply Hlow; reflexivity | exact Hup].
Defined.

(** ** Builders that give up before building *)

Section WithLibraries.

Context (L : Web3) (cfg : Config).

(** X27: when the pool account does not exist, the Raydium, CPMM, Orca and
    PumpSwap builders return null after that one look-up and a log line:
    nothing is built, simulated or sent.  The same holds for the Raydium
    builder when the market account does not exist, and for the PumpSwap
    builder when the pool account is not one parsePumpSwapPool accepts. *)
Theorem builders_give_up (v : Venue) (inMint outMint : PublicKey)
  (amount : AmountStr) (p : PoolInfo) (w : World) (h : Trace) :
  let lookup := Ev (GetAccountInfo (address p)) (w _ h (GetAccountInfo (address p))) in
  (v <> VPumpFun ->
   w _ h (GetAccountInfo (address p)) = Resolved None ->
   run w (swapVia L cfg v inMint outMint amount p) h
   = (Ok None, [lookup; Ev (Log (LPoolNotFound v)) tt])) /\
  (forall acct,
     w _ h (GetAccountInfo (address p)) = Resolved (Some acct) ->
     w _ (h ++ [lookup]) (GetAccountInfo (key_at (acc_data acct) 528 560))
     = Resolved None ->
     run w (swapViaRaydiumRaw L cfg inMint outMint amount p) h
     = (Ok None,
        [lookup;
         Ev (GetAccountInfo (key_at (acc_data acct) 528 560)) (Resolved None);
         Ev (Log LMarketNotFound) tt])) /\
  (forall acct,
     w _ h (GetAccountInfo (address p)) = Resolved (Some acct) ->
     parsePumpSwapPool (address p) (acc_data acct) = None ->
     run w (swapViaPumpSwap L cfg inMint outMint amount p) h
     = (Ok None, [lookup; Ev (Log LPoolParseFailed) tt])).
Proof.
  cbv zeta. split; [|split].
  - intros Hv Hw.
    destruct v; try congruence; cbn [swapVia];
      unfold swapViaRaydiumRaw, swapViaCpmm, swapViaOrca, swapViaPumpSwap, await, log, perform;
      cbv zeta; cbn [bind]; rewrite run_vis; rewrite Hw; cbn [bind ret fst snd];
      rewrite run_vis; cbn [run fst snd];
      match goal with |- context [w unit ?hh ?e] => destruct (w unit hh e) end;
      reflexivity.
  - intros acct Hw Hm.
    unfold swapViaRaydiumRaw, await, log, perform. cbv zeta. cbn [bind].
    rewrite run_vis. rewrite Hw in *. cbn [bind fst snd].
    rewrite run_vis. rewrite Hm. cbn [bind ret fst snd].
    rewrite run_vis. cbn [run fst snd].
    match goal with |- context [w unit ?hh ?e] => destruct (w unit hh e) end.
    reflexivity.
  - intros acct Hw Hp.
    unfold swapViaPumpSwap, await, log, perform. cbv zeta. cbn [bind].
    rewrite run_vis. rewrite Hw. cbn [bind fst snd]. rewrite Hp. cbn [bind ret].
    rewrite run_vis. cbn [run fst snd].
    match goal with |- context [w unit ?hh ?e] => destruct (w unit hh e) end.
    reflexivity.
Qed.

End WithLibraries.

Lemma builders_give_up_witness :
  run (scripted_world 9 1000)
      (swapVia toy_web3 live_config VOrca 43%N 777%N (AInt 5) (priced_pool 1 1)) []
  = (Ok None, [Ev (GetAccountInfo 200%N) (Resolved None);
               Ev (Log (LPoolNotFound VOrca)) tt]).
Proof.
  apply (builders_give_up toy_web3 live_config VOrca 43%N 777%N (AInt 5)
           (priced_pool 1 1) (scripted_world 9 1000) []);
    [discriminate | reflexivity].
Defined.

(** ** More examples *)

Lemma getPoolsForPair_spec_witness :
  let pools := [sample_pool 1 1 25; curve_pool 1; priced_pool 1 1] in
  getPoolsForPair pools 22%N 11%N = [sample_pool 1 1 25; priced_pool 1 1] /\
  In (priced_pool 1 1) (getPoolsForPair pools 11%N 22%N).
Proof.
  cbv zeta.
  destruct (getPoolsForPair_spec [sample_pool 1 1 25; curve_pool 1; priced_pool 1 1]
              11%N 22%N) as (Hin & Hsym & _).
  split; [rewrite Hsym; reflexivity|].
  apply Hin. split; [right; right; left; reflexivity | left; split; reflexivity].
Defined.

Lemma parsePumpSwapPool_spec_witness :
  exists r, parsePumpSwapPool 9%N sample_pool_account = Some r /\
            status r = xff /\ (baseMint r < 2 ^ 256)%N.
Proof.
  pose proof (parsePumpSwapPool_spec 9%N sample_pool_account) as H.
  destruct (parsePumpSwapPool 9%N sample_pool_account) as [r|] eqn:E.
  - exists r. destruct H as (_ & _ & _ & _ & Hs & _ & _ & _ & _ & _ & _ & _ & Hb & _).
    split; [reflexivity|]. split; [exact Hs | exact Hb].
  - vm_compute in E. discriminate.
Defined.

Lemma fetchBondingCurve_spec_witness :
  let r := run (scripted_world 9 1000) (fetchBondingCurve toy_web3 777%N) [] in
  snd r = [Ev (GetAccountInfo (getBondingCurvePDA toy_web3 777%N)) (Resolved None)] /\
  fst r = Ok None.
Proof.
  exact (fetchBondingCurve_spec toy_web3 (scripted_world 9 1000) 777%N []).
Defined.

Lemma bestOpportunity_spec_witness :
  let opps := [opportunity_of 5 1 2; opportunity_of 9 1 3; opportunity_of 9 2 3;
               opportunity_of 3 3 1] in
  bestOpportunity opps = Some (opportunity_of 9 1 3) /\
  exists l1 l2, opps = l1 ++ opportunity_of 9 1 3 :: l2 /\
    (forall o, In o l1 -> profitBps o < 9) /\ (forall o, In o l2 -> profitBps o <= 9).
Proof.
  cbv zeta. split; [reflexivity|].
  exact (bestOpportunity_spec [opportunity_of 5 1 2; opportunity_of 9 1 3;
                               opportunity_of 9 2 3; opportunity_of 3 3 1]).
Defined.

Lemma execute_result_state_witness :
  exists (b : bool) (t : Executor),
    fst (run (scripted_world 9 1000)
           (execute toy_web3 live_config new_Executor (sample_opportunity 1 2)) [])
    = Ok (b, t) /\
    executionCount t = (0 + (if b then 1 else 0))%N.
Proof.
  destruct (execute_result_state toy_web3 live_config (scripted_world 9 1000)
              new_Executor (sample_opportunity 1 2) []) as (b & t & Hr & Hc & _).
  exists b, t. split; [exact Hr | exact Hc].
Defined.

Lemma ensureAtas_spec_witness :
  let r := run (scripted_world 9 1000)
             (ensureAtas live_config [(1%N, 2%N); (3%N, 4%N)] new_Transaction) [] in
  exists tx' infos, fst r = Ok tx' /\
    List.length infos = 2%nat /\
    snd r = ata_lookups [(1%N, 2%N); (3%N, 4%N)] infos /\
    instructions tx' = [] ++ missing_atas 5%N [(1%N, 2%N); (3%N, 4%N)] infos.
Proof.
  cbv zeta.
  pose proof (ensureAtas_spec live_config (scripted_world 9 1000)
                [(1%N, 2%N); (3%N, 4%N)] new_Transaction []) as H.
  destruct (fst (run (scripted_world 9 1000)
                   (ensureAtas live_config [(1%N, 2%N); (3%N, 4%N)] new_Transaction) []))
    as [tx'|reason] eqn:E.
  - destruct H as (infos & Hlen & Hev & Hix & _).
    exists tx', infos. split; [reflexivity|]. split; [exact Hlen|].
    split; [exact Hev | exact Hix].
  - vm_compute in E. discriminate.
Defined.

Lemma swap_instruction_simulated_witness :
  let evs := snd (run (scripted_world 9 1000)
                    (swapVia toy_web3 live_config VPumpFun (SOL_MINT toy_web3) 777%N
                       (AInt 1000000) (curve_pool 1)) []) in
  List.length (simulated_txs evs) = 1%nat /\
  Forall (carries_swap toy_web3 live_config VPumpFun (SOL_MINT toy_web3) (AInt 1000000))
         (simulated_txs evs).
Proof.
  cbv zeta. split; [vm_compute; reflexivity|].
  apply swap_instruction_simulated.
Defined.

